(** * Range Filter Tree index: a shallow embedding of [range_filter_tree.h]

    The development follows the header top to bottom: the sorting
    constructor, [batch_search], the two boundary helpers, the private
    constructor that builds the bucket pyramid, [check_empty] and the three
    query strategies.  Machine integers are [Z] with the 64-bit wrap-around
    of [size_t] written out; filter values are rationals (the template is
    generic in [FilterType]; a totally ordered exact field stands for floats
    without NaN); the one quotient the header takes in [float] is rounded
    as IEEE 754 binary32 rounds it; console output and SubIndex queries are
    recorded in an event trace; [std::out_of_range], unchecked indexing out of range and
    [std::runtime_error] are results of an error monad. *)

From Stdlib Require Import ZArith List Bool QArith Qminmax Qround Lia Lqa.
From Stdlib Require Import Permutation Sorted FinFun.
From Stdlib Require String.
Import ListNotations.
Import String.StringSyntax.
Delimit Scope string_scope with string.

Local Open Scope Z_scope.

(** ** Machine integers *)

Definition size_t := Z.

Definition two64 : Z := 2 ^ 64.

(** Reduction of a mathematical integer to an unsigned 64-bit value. *)
Definition sz (z : Z) : size_t := z mod two64.

(** [unsigned int], the element type of the returned id matrix. *)
Definition u32 (z : Z) : Z := z mod 2 ^ 32.

(** ** Filter values and distances *)

Definition FilterType := Q.
Definition FilterRange : Type := FilterType * FilterType.

Definition Qltb (a b : Q) : bool := negb (Qle_bool b a).

(** A [float] distance: a finite value or positive infinity. *)
Inductive float32 : Type :=
| FFinite (q : Q)
| FInfinity.

(** [std::numeric_limits<float>::max()], the largest finite float,
    (2 - 2^-23) * 2^127. *)
Definition FLT_MAX : float32 :=
  FFinite (340282346638528859811704183484516925440 # 1).

Definition float_ltb (a b : float32) : bool :=
  match a, b with
  | FFinite x, FFinite y => Qltb x y
  | FFinite _, FInfinity => true
  | FInfinity, _ => false
  end.

Definition float_le (a b : float32) : Prop := float_ltb b a = false.

(** [pid = std::pair<index_type, float>] *)
Definition pid : Type := Z * float32.

(** ** Single-precision arithmetic *)

(** [2^e] for an integer [e] of either sign. *)
Definition Qpow2 (e : Z) : Q :=
  if 0 <=? e then inject_Z (2 ^ e) else (/ inject_Z (2 ^ (- e)))%Q.

(** The exponent [e] with [2^e <= q < 2^(e+1)] of a positive rational. *)
Definition binade (q : Q) : Z :=
  let e0 := Z.log2 (Qnum q) - Z.log2 (Zpos (Qden q)) in
  if Qle_bool (Qpow2 e0) q then e0 else e0 - 1.

(** Rounding to the nearest integer, ties to the even one. *)
Definition round_half_even (q : Q) : Z :=
  let f := Qfloor q in
  match Qcompare (q - inject_Z f) (1 # 2) with
  | Lt => f
  | Gt => f + 1
  | Eq => if Z.even f then f else f + 1
  end.

(** The [float] nearest to a nonnegative rational, as the default rounding
    of IEEE 754 binary32 gives it: 24 significant bits, ties to even,
    exponents from -126 on (below, the spacing stays 2^-149), and infinity
    from 2^128 on. *)
Definition round_float (q : Q) : float32 :=
  if Qle_bool q 0 then FFinite 0 else
  let e := Z.max (binade q) (-126) in
  let ulp := Qpow2 (e - 23) in
  let r := (inject_Z (round_half_even (q / ulp)) * ulp)%Q in
  if Qle_bool (Qpow2 128) r then FInfinity else FFinite (Qred r).

(** [(float)z] for a [size_t]. *)
Definition float_of_size_t (z : size_t) : float32 := round_float (inject_Z z).

(** [a / b] in [float] on nonnegative operands, the only ones the header
    divides; [None] is NaN. *)
Definition float_div (a b : float32) : option float32 :=
  match a, b with
  | FFinite x, FFinite y =>
      if Qeq_bool y 0
      then if Qeq_bool x 0 then None else Some FInfinity
      else Some (round_float (x / y))
  | FFinite _, FInfinity => Some (FFinite 0)
  | FInfinity, FFinite _ => Some FInfinity
  | FInfinity, FInfinity => None
  end.

(** [a > b] for a quotient [a] and a finite [b]; a comparison with NaN is
    false. *)
Definition float_gtb (a : option float32) (b : Q) : bool :=
  match a with
  | Some f => float_ltb (FFinite b) f
  | None => false
  end.

(** ** QueryParams *)

(** Modelled from the spec: the declaration of [QueryParams] lives in
    [algorithms/utils/types.h], which is not part of the header; the fields
    are the ones the header reads and the spec lists, in the order of the
    eight-argument constructor call in [three_split_search], followed by
    [verbose]. *)
Record QueryParams : Type := mkQueryParams {
  k : Z;
  beamSize : Z;
  cut : Q;
  limit : Z;
  degree_limit : Z;
  final_beam_multiply : Q;
  postfiltering_max_beam : Z;
  min_query_to_bucket_ratio : option Q;
  verbose : bool
}.

(** The eight-argument constructor; [verbose] keeps its default. *)
Definition QueryParams8 (k beamSize : Z) (cut : Q) (limit degree_limit : Z)
    (final_beam_multiply : Q) (postfiltering_max_beam : Z)
    (min_query_to_bucket_ratio : option Q) : QueryParams :=
  mkQueryParams k beamSize cut limit degree_limit final_beam_multiply
    postfiltering_max_beam min_query_to_bucket_ratio false.

(** ** Effects: trace and errors *)

Inductive Event : Type :=
| EvOutsideRange (front back : FilterType) (range : FilterRange)
| EvVerbose (inclusive_start exclusive_end bucket_size start_bucket : size_t)
| EvQuery (bucket_size_index bucket_index : Z) (range : FilterRange)
          (qp : QueryParams).

Inductive Exn : Type :=
| out_of_range          (* thrown by a checked [.at] *)
| undefined_behaviour   (* unchecked access out of range, division by zero *)
| no_termination        (* a loop did not finish within the size_t bound *)
| runtime_error (msg : String.string).

Inductive Res (A : Type) : Type :=
| Ok (a : A)
| Err (e : Exn).
Arguments Ok {A} a.
Arguments Err {A} e.

(** A computation: what it printed or asked, then how it ended. *)
Definition M (A : Type) : Type := list Event * Res A.

Definition ret {A} (a : A) : M A := ([], Ok a).

Definition bind {A B} (m : M A) (f : A -> M B) : M B :=
  match m with
  | (t, Ok a) => let '(t', r) := f a in (t ++ t', r)
  | (t, Err e) => (t, Err e)
  end.

Definition raise {A} (e : Exn) : M A := ([], Err e).
Definition emit (ev : Event) : M unit := ([ev], Ok tt).

Definition trace {A} (m : M A) : list Event := fst m.
Definition outcome {A} (m : M A) : Res A := snd m.

Notation "x <- c1 ;; c2" := (bind c1 (fun x => c2))
  (at level 61, c1 at next level, right associativity).
Notation "c1 ;;; c2" := (bind c1 (fun _ => c2))
  (at level 61, right associativity).

Definition lift {A} (e : Exn) (o : option A) : M A :=
  match o with
  | Some a => ret a
  | None => raise e
  end.

Fixpoint mapM {A B} (f : A -> M B) (l : list A) : M (list B) :=
  match l with
  | [] => ret []
  | x :: l' => y <- f x ;; ys <- mapM f l' ;; ret (y :: ys)
  end.

(** ** Containers *)

(** Lookup at a [size_t] position. *)
Definition lookup {A} (l : list A) (i : Z) : option A :=
  if i <? 0 then None else nth_error l (Z.to_nat i).

(** Checked access, [v.at(i)]. *)
Definition at_ {A} (l : list A) (i : Z) : M A := lift out_of_range (lookup l i).

(** Unchecked access, [v[i]]. *)
Definition idx {A} (l : list A) (i : Z) : M A :=
  lift undefined_behaviour (lookup l i).

Definition size {A} (l : list A) : size_t := Z.of_nat (length l).

(** The positions [lo, lo+1, ..., hi-1] visited by a counting loop. *)
Definition zrange (lo hi : Z) : list Z :=
  map (fun i => lo + Z.of_nat i) (seq 0 (Z.to_nat (hi - lo))).

(** ** The boundary helpers *)

(** The loop shared by [first_greater_than] and
    [first_greater_than_or_equal_to]; [accept] is the test on
    [_filter_values[mid]].  [None] when the fuel runs out or the read is out
    of range. *)
Fixpoint boundary_loop (fuel : nat) (accept : FilterType -> bool)
    (filter_values : list FilterType) (start end_ : size_t) : option size_t :=
  if sz (start + 1) <? end_ then
    match fuel with
    | O => None
    | S fuel' =>
        let mid := sz (start + end_) / 2 in
        match lookup filter_values mid with
        | None => None
        | Some v =>
            if accept v
            then boundary_loop fuel' accept filter_values start mid
            else boundary_loop fuel' accept filter_values mid end_
        end
    end
  else Some end_.

Definition first_greater_than (filter_values : list FilterType)
    (filter_value : FilterType) : option size_t :=
  boundary_loop 64 (fun v => Qltb filter_value v) filter_values
    0 (size filter_values).

Definition first_greater_than_or_equal_to (filter_values : list FilterType)
    (filter_value : FilterType) : option size_t :=
  boundary_loop 64 (fun v => Qle_bool filter_value v) filter_values
    0 (size filter_values).

(** ** The index over its collaborators *)

(** [py::array_t<A>]: the buffer's rank, shape and flat contents. *)
Record array_t (A : Type) : Type := mkArray {
  ndim : Z;
  shape : list Z;
  data : list A
}.
Arguments mkArray {A} ndim shape data.
Arguments ndim {A} a.
Arguments shape {A} a.
Arguments data {A} a.

(** [v.back()]; [None] on an empty sequence, where the call is undefined. *)
Definition last_error {A} (l : list A) : option A :=
  match l with
  | [] => None
  | x :: l' => Some (last l' x)
  end.

(** [v[i]] inside a comparator, which has to be a total function; every
    use below reads at a position that is in range. *)
Definition get0 (l : list FilterType) (i : Z) : FilterType :=
  nth (Z.to_nat i) l 0%Q.

(** [parlay::tabulate(n, f)] *)
Definition tabulate {A} (n : Z) (f : Z -> A) : list A := map f (zrange 0 n).

(** Each level entry of the pyramid paired with its index, in the order a
    loop over [bucket_size_index] reads [_bucket_sizes]. *)
Definition indexed {A} (l : list A) : list (Z * A) :=
  combine (zrange 0 (size l)) l.

(** What [parlay::sort_inplace] promises for a comparator that is a strict
    weak order: the output is a rearrangement of the input with no
    inversion.  Nothing is promised about the order of equivalent
    elements ([parlay::stable_sort_inplace] is the stable variant). *)
Definition strict_weak_order {A} (less : A -> A -> bool) : Prop :=
  (forall a b, less a b = true -> less b a = false) /\
  (forall a b c, less a b = false -> less b c = false -> less a c = false).

Definition sort_contract
    (srt : forall A : Type, (A -> A -> bool) -> list A -> list A) : Prop :=
  forall (A : Type) (less : A -> A -> bool) (l : list A),
    Permutation l (srt A less l) /\
    (strict_weak_order less ->
     StronglySorted (fun a b => less b a = false) (srt A less l)).

Section RangeFilterTree.

(** The coordinate type [T]; a [Point] is a row of [T]. *)
Variable T : Type.
Definition Point : Type := list T.
Definition PointRange : Type := list Point.

(** [Point::distance], the external distance kernel. *)
Variable distance : Point -> Point -> float32.

(** [parlay::sort_inplace] *)
Variable sort_inplace : forall A : Type, (A -> A -> bool) -> list A -> list A.

(** Modelled from the spec: the class [PointRange] is not part of the
    header (the spec lists the storage layout of raw points as an external
    collaborator); [PointRange(data, n, dimension)] is taken to read [n]
    consecutive rows of [dimension] values each from the buffer. *)
Definition PointRange_of (values : list T) (n dimension : Z) : PointRange :=
  map (fun i => firstn (Z.to_nat dimension)
                  (skipn (Z.to_nat (i * dimension)) values))
      (zrange 0 n).

(** What the constructor of a SubIndex receives: the subset view made by
    [make_subset] (the parent points and the chosen positions) and the
    filter values of the subset. *)
Record SpatialIndex : Type := mkSpatialIndex {
  subset_parent : PointRange;
  subset_of_indices : list Z;
  subset_of_filter_values : list FilterType
}.

(** [RangeSpatialIndex::query], the external SubIndex. *)
Variable index_query :
  SpatialIndex -> Point -> FilterRange -> QueryParams -> list pid.

Record RangeFilterTreeIndex : Type := mkIndex {
  _bucket_sizes : list size_t;
  _starts : list (list size_t);
  _spatial_indices : list (list SpatialIndex);
  _sorted_index_to_original_point_id : list size_t;
  _filter_values : list FilterType;
  _cutoff : Z;
  _points : PointRange
}.

(** *** The private constructor *)

(** The body of the [parallel_for] over [bucket_id]. *)
Definition build_bucket (points : PointRange) (filter_values : list FilterType)
    (n current_filter_size bucket_id : size_t) : size_t * SpatialIndex :=
  let start := sz (bucket_id * current_filter_size) in
  let this_filter_size := Z.min current_filter_size (sz (n - start)) in
  let subset_of_indices := tabulate this_filter_size (fun i => i + start) in
  let subset_of_filter_values :=
    firstn (Z.to_nat this_filter_size) (skipn (Z.to_nat start) filter_values) in
  (start, mkSpatialIndex points subset_of_indices subset_of_filter_values).

Definition Level : Type := size_t * list (size_t * SpatialIndex).

(** The [while (current_filter_size < 2 * n)] loop. *)
Fixpoint build_levels (fuel : nat) (points : PointRange)
    (filter_values : list FilterType) (n current_filter_size : size_t)
    : M (list Level) :=
  if current_filter_size <? sz (2 * n) then
    match fuel with
    | O => raise no_termination
    | S fuel' =>
        if current_filter_size =? 0 then raise undefined_behaviour else
        let num_buckets :=
          sz (sz (n + current_filter_size) - 1) / current_filter_size in
        let buckets :=
          map (build_bucket points filter_values n current_filter_size)
              (zrange 0 num_buckets) in
        rest <- build_levels fuel' points filter_values n
                  (sz (current_filter_size * 2)) ;;
        ret ((current_filter_size, buckets) :: rest)
    end
  else ret [].

Definition RangeFilterTreeIndex_private (points : PointRange)
    (filter_values : list FilterType) (decoding : list size_t) (cutoff : Z)
    : M RangeFilterTreeIndex :=
  let n := size points in
  levels <- build_levels 64 points filter_values n (sz cutoff) ;;
  ret (mkIndex (map fst levels)
               (map (fun l => map fst (snd l)) levels)
               (map (fun l => map snd (snd l)) levels)
               decoding filter_values cutoff points).

(** *** The public constructor *)

Definition RangeFilterTreeIndex_new (points : array_t T)
    (filter_values : array_t FilterType) (cutoff : Z)
    : M RangeFilterTreeIndex :=
  if negb (ndim points =? 2) then
    raise (runtime_error "points numpy array must be 2-dimensional"%string)
  else
  let n := nth 0 (shape points) 0 in
  let dimension := nth 1 (shape points) 0 in
  if negb (ndim filter_values =? 1) then
    raise (runtime_error "filter data numpy array must be 1-dimensional"%string)
  else
  if negb (nth 0 (shape filter_values) 0 =? n) then
    raise (runtime_error
      "filter data numpy array must have the same number of elements as the points array"%string)
  else
  let filter_values_seq := firstn (Z.to_nat n) (data filter_values) in
  let filter_indices_sorted :=
    sort_inplace Z
      (fun i j => Qltb (get0 filter_values_seq i) (get0 filter_values_seq j))
      (tabulate n (fun i => i)) in
  let numpy_data := data points in
  sorted <- mapM (fun sorted_id =>
              row <- mapM (fun d =>
                       orig <- at_ filter_indices_sorted sorted_id ;;
                       idx numpy_data (sz (orig * dimension + d)))
                     (zrange 0 dimension) ;;
              orig <- at_ filter_indices_sorted sorted_id ;;
              ret (row, orig))
            (zrange 0 n) ;;
  let data_sorted := concat (map fst sorted) in
  let decoding := map snd sorted in
  filter_values_sorted <-
    mapM (fun i => orig <- at_ filter_indices_sorted i ;;
                   at_ filter_values_seq orig)
         (zrange 0 n) ;;
  let point_range := PointRange_of data_sorted n dimension in
  RangeFilterTreeIndex_private point_range filter_values_sorted decoding cutoff.

(** *** check_empty *)

Definition check_empty (index : RangeFilterTreeIndex) (range : FilterRange)
    : M bool :=
  front <- lift undefined_behaviour (hd_error (_filter_values index)) ;;
  back <- lift undefined_behaviour (last_error (_filter_values index)) ;;
  let empty := Qltb (snd range) front || Qltb back (fst range) in
  (if empty then emit (EvOutsideRange front back range) else ret tt) ;;;
  ret empty.

(** [_spatial_indices.at(i).at(j)->query(query, range, qp)] *)
Definition query_bucket (index : RangeFilterTreeIndex)
    (bucket_size_index bucket_index : Z) (query : Point) (range : FilterRange)
    (qp : QueryParams) : M (list pid) :=
  level <- at_ (_spatial_indices index) bucket_size_index ;;
  sub <- at_ level bucket_index ;;
  emit (EvQuery bucket_size_index bucket_index range qp) ;;;
  ret (index_query sub query range qp).

(** The residue loop: for [i] in [lo, hi), push [i] paired with the distance
    from the query to point [i] of [_points] (an unchecked read).  The
    narrowing of [i] to [index_type] is the identity below 2^31. *)
Definition brute_force (index : RangeFilterTreeIndex) (query : Point)
    (lo hi : size_t) : M (list pid) :=
  mapM (fun i => p <- idx (_points index) i ;; ret (i, distance p query))
       (zrange lo hi).

(** The final sort by distance and the cut to the first [knn] entries. *)
Definition sort_and_cut (frontier : list pid) (knn : size_t) : list pid :=
  firstn (Z.to_nat knn)
    (sort_inplace pid (fun a b => float_ltb (snd a) (snd b)) frontier).

(** *** fenwick_tree_search *)

(** The planner's state: [last_range] and [indices_to_search]. *)
Record Plan : Type := mkPlan {
  last_range : size_t * size_t;
  indices_to_search : list (Z * size_t)
}.

Definition unset (r : size_t * size_t) : bool :=
  (fst r =? 0) && (snd r =? 0).

(** The inner [for] over [possible_bucket_index]; it has no [break], so
    every qualifying bucket of the level is pushed and [last_range] ends as
    the last of them. *)
Definition seed_level (inclusive_start exclusive_end : size_t)
    (bucket_size_index : Z) (current_bucket_size : size_t) (p : Plan) : Plan :=
  fold_left
    (fun p possible_bucket_index =>
       let bucket_start := sz (possible_bucket_index * current_bucket_size) in
       let bucket_end := sz (bucket_start + current_bucket_size) in
       if (inclusive_start <=? bucket_start) && (bucket_end <=? exclusive_end)
       then mkPlan (bucket_start, sz (bucket_start + current_bucket_size))
                   (indices_to_search p ++
                    [(bucket_size_index, bucket_start / current_bucket_size)])
       else p)
    (zrange (inclusive_start / current_bucket_size)
            (exclusive_end / current_bucket_size))
    p.

(** One iteration of the loop over [bucket_size_index].  A zero bucket size
    would divide by zero; the constructor never stores one. *)
Definition plan_level (inclusive_start exclusive_end : size_t) (p : Plan)
    (level : Z * size_t) : Plan :=
  let '(bucket_size_index, current_bucket_size) := level in
  let p1 :=
    if unset (last_range p)
    then seed_level inclusive_start exclusive_end bucket_size_index
           current_bucket_size p
    else p in
  if unset (last_range p1) then p1 else
  let left_space := sz (fst (last_range p1) - inclusive_start) in
  let right_space := sz (exclusive_end - snd (last_range p1)) in
  let p2 :=
    if current_bucket_size <? left_space then
      let first := sz (fst (last_range p1) - current_bucket_size) in
      mkPlan (first, snd (last_range p1))
             (indices_to_search p1 ++
              [(bucket_size_index, first / current_bucket_size)])
    else p1 in
  if current_bucket_size <? right_space then
    mkPlan (fst (last_range p2),
            sz (snd (last_range p2) + current_bucket_size))
           (indices_to_search p2 ++
            [(bucket_size_index, snd (last_range p2) / current_bucket_size)])
  else p2.

(** The whole planning loop, from the largest level down to level 0. *)
Definition fenwick_plan (bucket_sizes : list size_t)
    (inclusive_start exclusive_end : size_t) : Plan :=
  fold_left (plan_level inclusive_start exclusive_end)
            (rev (indexed bucket_sizes))
            (mkPlan (0, 0) []).

(** The residue ranges brute-forced after the planned buckets. *)
Definition residue_ranges (p : Plan) (inclusive_start exclusive_end : size_t)
    : list (size_t * size_t) :=
  if unset (last_range p) then [(inclusive_start, exclusive_end)]
  else [(inclusive_start, fst (last_range p));
        (snd (last_range p), exclusive_end)].

Definition fenwick_tree_search (index : RangeFilterTreeIndex) (query : Point)
    (range : FilterRange) (qp : QueryParams) : M (list pid) :=
  empty <- check_empty index range ;;
  if empty then ret [] else
  let knn := sz (k qp) in
  inclusive_start <- lift undefined_behaviour
                       (first_greater_than (_filter_values index) (fst range)) ;;
  exclusive_end <- lift undefined_behaviour
                     (first_greater_than_or_equal_to (_filter_values index)
                        (snd range)) ;;
  let p := fenwick_plan (_bucket_sizes index) inclusive_start exclusive_end in
  searched <- mapM (fun index_pair =>
                query_bucket index (fst index_pair) (snd index_pair)
                  query range qp)
              (indices_to_search p) ;;
  residues <- mapM (fun r => brute_force index query (fst r) (snd r))
                (residue_ranges p inclusive_start exclusive_end) ;;
  let frontier := concat searched ++ concat residues in
  ret (sort_and_cut frontier knn).

(** *** optimized_postfiltering_search *)

(** The level scan: the first level whose bucket holds both ends of the
    window. *)
Definition containing_level (bucket_sizes : list size_t)
    (inclusive_start exclusive_end : size_t) : option (Z * size_t) :=
  find (fun level =>
          inclusive_start / snd level =? sz (exclusive_end - 1) / snd level)
       (indexed bucket_sizes).

Definition optimized_postfiltering_search (index : RangeFilterTreeIndex)
    (query : Point) (range : FilterRange) (qp : QueryParams) : M (list pid) :=
  empty <- check_empty index range ;;
  if empty then ret [] else
  inclusive_start <- lift undefined_behaviour
                       (first_greater_than (_filter_values index) (fst range)) ;;
  exclusive_end <- lift undefined_behaviour
                     (first_greater_than_or_equal_to (_filter_values index)
                        (snd range)) ;;
  if sz (4 * sz (exclusive_end - inclusive_start)) <? sz (_cutoff index) then
    fenwick_tree_search index query range qp
  else
  index_key <-
    match containing_level (_bucket_sizes index) inclusive_start exclusive_end
    with
    | Some (bucket_id, bucket_size) =>
        let start_bucket := inclusive_start / bucket_size in
        (if verbose qp
         then emit (EvVerbose inclusive_start exclusive_end bucket_size
                      start_bucket)
         else ret tt) ;;;
        ret (bucket_id, start_bucket)
    | None => ret (0, 0)
    end ;;
  bucket_size <- idx (_bucket_sizes index) (fst index_key) ;;
  (* both operands are converted to [float] and divided in [float] *)
  let bucket_size_to_query_size_ratio :=
    float_div (float_of_size_t bucket_size)
      (float_of_size_t (sz (exclusive_end - inclusive_start))) in
  match min_query_to_bucket_ratio qp with
  | Some ratio =>
      if float_gtb bucket_size_to_query_size_ratio ratio
      then fenwick_tree_search index query range qp
      else query_bucket index (fst index_key) (snd index_key) query range qp
  | None => query_bucket index (fst index_key) (snd index_key) query range qp
  end.

(** *** three_split_search *)

(** The scan for the center bucket; it leaves both loops at the first
    bucket that lies inside the window. *)
Definition center_in_level (n inclusive_start exclusive_end : size_t)
    (level : Z * size_t) : option (Z * size_t) :=
  let '(bucket_size_index, current_bucket_size) := level in
  match
    find (fun possible_bucket_index =>
            let bucket_start :=
              sz (possible_bucket_index * current_bucket_size) in
            let bucket_end :=
              Z.min (sz (bucket_start + current_bucket_size)) n in
            (inclusive_start <=? bucket_start) && (bucket_end <=? exclusive_end))
         (zrange (inclusive_start / current_bucket_size)
                 (exclusive_end / current_bucket_size))
  with
  | Some possible_bucket_index => Some (bucket_size_index, possible_bucket_index)
  | None => None
  end.

Fixpoint first_some {A B} (f : A -> option B) (l : list A) : option B :=
  match l with
  | [] => None
  | x :: l' => match f x with Some b => Some b | None => first_some f l' end
  end.

Definition find_center (bucket_sizes : list size_t)
    (n inclusive_start exclusive_end : size_t) : option (Z * size_t) :=
  first_some (center_in_level n inclusive_start exclusive_end)
             (rev (indexed bucket_sizes)).

(** The copy made for the center search. *)
Definition center_params (qp : QueryParams) : QueryParams :=
  QueryParams8 (k qp) (beamSize qp) (cut qp) (limit qp) (degree_limit qp)
    1 (postfiltering_max_beam qp) (min_query_to_bucket_ratio qp).

Definition three_split_search (index : RangeFilterTreeIndex) (query : Point)
    (filter_range : FilterRange) (qp : QueryParams) : M (list pid) :=
  inclusive_start <- lift undefined_behaviour
                       (first_greater_than (_filter_values index)
                          (fst filter_range)) ;;
  exclusive_end <- lift undefined_behaviour
                     (first_greater_than_or_equal_to (_filter_values index)
                        (snd filter_range)) ;;
  match find_center (_bucket_sizes index) (size (_points index))
          inclusive_start exclusive_end with
  | None => fenwick_tree_search index query filter_range qp
  | Some (bucket_size_index, bucket_index) =>
      let qp_copy := center_params qp in
      center <- query_bucket index bucket_size_index bucket_index query
                  filter_range qp_copy ;;
      bucket_size <- idx (_bucket_sizes index) bucket_size_index ;;
      let middle_start := sz (bucket_index * bucket_size) in
      let middle_end :=
        Z.min (sz (middle_start + bucket_size)) (size (_points index)) in
      let left_space := sz (middle_start - inclusive_start) in
      let right_space := sz (exclusive_end - middle_end) in
      left <- (if 0 <? left_space then
                 v <- idx (_filter_values index) middle_start ;;
                 optimized_postfiltering_search index query
                   (fst filter_range, v) qp
               else ret []) ;;
      right <- (if 0 <? right_space then
                  v <- idx (_filter_values index) middle_end ;;
                  optimized_postfiltering_search index query
                    (v, snd filter_range) qp
                else ret []) ;;
      let frontier := center ++ left ++ right in
      ret (sort_and_cut frontier (sz (k qp)))
  end.

(** *** batch_search *)

(** One row of the output: the first [knn] results with ids translated
    back, then the padding.  The counter of [for (auto j = 0; j < knn; j++)]
    is an [int]: it takes the values from 0 up to [knn - 1] when [knn] is
    at most 2^31 - 1, and for a larger [knn] its increment overflows after
    the entry at 2^31 - 1 has been written. *)
Definition output_row (index : RangeFilterTreeIndex) (results : list pid)
    (knn : size_t) : M (list (Z * float32)) :=
  row <- mapM (fun j =>
            if j <? size results then
              r <- idx results j ;;
              id <- at_ (_sorted_index_to_original_point_id index)
                      (sz (fst r)) ;;
              ret (u32 id, snd r)
            else ret (0, FLT_MAX))
          (zrange 0 (Z.min knn (2 ^ 31))) ;;
  if 2 ^ 31 <=? knn then raise undefined_behaviour else ret row.

Definition batch_search (index : RangeFilterTreeIndex) (queries : list Point)
    (filters : list FilterRange) (num_queries : Z)
    (query_method : String.string) (qp : QueryParams)
    : M (list (list Z) * list (list float32)) :=
  let knn := sz (k qp) in
  rows <- mapM (fun i =>
            q <- idx queries i ;;
            filter <- idx filters i ;;
            results <-
              (if String.eqb query_method "optimized_postfilter"
               then optimized_postfiltering_search index q filter qp
               else if String.eqb query_method "three_split"
               then three_split_search index q filter qp
               else fenwick_tree_search index q filter qp) ;;
            output_row index results knn)
          (zrange 0 num_queries) ;;
  ret (map (map fst) rows, map (map snd) rows).

End RangeFilterTree.

(** ** A concrete instance of the collaborators *)

Module Instance.

(** Insertion sort, an instance of [sort_contract] that keeps equivalent
    elements in their input order. *)
Fixpoint insert {A} (less : A -> A -> bool) (x : A) (l : list A) : list A :=
  match l with
  | [] => [x]
  | y :: l' => if less x y then x :: y :: l' else y :: insert less x l'
  end.

Definition insertion_sort (A : Type) (less : A -> A -> bool) (l : list A)
    : list A :=
  fold_left (fun acc x => insert less x acc) l [].

(** A second instance: equivalent elements come out in reverse input
    order. *)
Fixpoint insert_front {A} (less : A -> A -> bool) (x : A) (l : list A)
    : list A :=
  match l with
  | [] => [x]
  | y :: l' => if less y x then y :: insert_front less x l' else x :: y :: l'
  end.

Definition reversing_sort (A : Type) (less : A -> A -> bool) (l : list A)
    : list A :=
  fold_left (fun acc x => insert_front less x acc) l [].

(** Squared Euclidean distance on rational coordinates. *)
Fixpoint sq_dist (p q : list Q) : Q :=
  match p, q with
  | x :: p', y :: q' => ((x - y) * (x - y) + sq_dist p' q')%Q
  | _, _ => 0%Q
  end.

Definition distance (p q : list Q) : float32 := FFinite (Qred (sq_dist p q)).

(** Modelled from the spec: the SubIndex ([prefiltering.h]) is not part of
    the header; this one answers a query exactly: the members of its subset
    whose filter value lies in [lo, hi], nearest first, at most [k], with
    ids in the sorted coordinate space. *)
Definition index_query (sub : SpatialIndex Q) (query : list Q)
    (range : FilterRange) (qp : QueryParams) : list pid :=
  let members := combine (subset_of_indices Q sub)
                         (subset_of_filter_values Q sub) in
  let eligible :=
    filter (fun m => Qle_bool (fst range) (snd m) &&
                     Qle_bool (snd m) (snd range)) members in
  let scored :=
    map (fun m => (fst m,
                   distance (nth (Z.to_nat (fst m)) (subset_parent Q sub) [])
                            query))
        eligible in
  firstn (Z.to_nat (k qp))
    (insertion_sort pid (fun a b => float_ltb (snd a) (snd b)) scored).

Definition qp_of_k (knn : Z) : QueryParams :=
  mkQueryParams knn 10 (135 # 100) 1000 1000 1 1000 None false.

End Instance.

(** * Vocabulary of the properties *)

(** The number of buckets of a level of width [w] over [n] points. *)
Definition num_buckets_of (n w : size_t) : Z := (n + w - 1) / w.

(** The shape of the levels produced from width [w] on. *)
Definition levels_from (T : Type) (points : PointRange T)
    (filter_values : list FilterType) (n w : size_t)
    (levels : list (Level T)) : Prop :=
  (forall j v, lookup (map fst levels) j = Some v -> v = w * 2 ^ j) /\
  Forall (fun lv =>
            1 <= fst lv < 2 * n /\
            snd lv = map (build_bucket T points filter_values n (fst lv))
                         (zrange 0 (num_buckets_of n (fst lv)))) levels /\
  2 * n <= w * 2 ^ size levels.

(** The comparator of the constructor's sort. *)
Definition filter_less (fv : list FilterType) (i j : Z) : bool :=
  Qltb (get0 fv i) (get0 fv j).

(** The inputs the build accepts: a rank-2 point array of [n] rows, a
    rank-1 filter array of the same length, and sizes that fit
    [index_type] and the [int32_t] cutoff. *)
Definition valid_input (T : Type) (points : array_t T)
    (filter_values : array_t FilterType) (cutoff : Z) : Prop :=
  let n := nth 0 (shape points) 0 in
  let dimension := nth 1 (shape points) 0 in
  ndim points = 2 /\ ndim filter_values = 1 /\
  nth 0 (shape filter_values) 0 = n /\
  size (data points) = n * dimension /\ size (data filter_values) = n /\
  1 <= n < 2 ^ 31 /\ 1 <= dimension < 2 ^ 31 /\ 1 <= cutoff < 2 ^ 31.

(** The sorted order chosen by the constructor for filter values [fv]. *)
Definition decoding_of
    (sort_inplace : forall A : Type, (A -> A -> bool) -> list A -> list A)
    (fv : list FilterType) : list Z :=
  sort_inplace Z (filter_less fv) (tabulate (size fv) (fun i => i)).

(** What a finished build looks like. *)
Record built (T : Type)
    (sort_inplace : forall A : Type, (A -> A -> bool) -> list A -> list A)
    (fv : list FilterType) (cutoff : Z)
    (index : RangeFilterTreeIndex T) : Prop := mkBuilt {
  built_decoding :
    _sorted_index_to_original_point_id T index = decoding_of sort_inplace fv;
  built_filter :
    _filter_values T index = map (get0 fv) (decoding_of sort_inplace fv);
  built_points : size (_points T index) = size fv;
  built_cutoff : _cutoff T index = cutoff;
  built_levels :
    exists levels,
      levels_from T (_points T index) (_filter_values T index) (size fv)
        cutoff levels /\
      _bucket_sizes T index = map fst levels /\
      _spatial_indices T index = map (fun l => map snd (snd l)) levels
}.

(** A planned bucket exists in a pyramid of widths [sizes] over [n]
    points. *)
Definition bucket_ok (sizes : list size_t) (n : size_t) (b : Z * size_t)
    : Prop :=
  exists w, lookup sizes (fst b) = Some w /\ 0 <= snd b /\ snd b * w < n.

(** [last_range] is either still unset or a range inside the window
    [s, e), and every planned bucket exists. *)
Definition plan_ok (sizes : list size_t) (n s e : size_t) (p : Plan) : Prop :=
  (unset (last_range p) = true \/
   (s <= fst (last_range p) /\ fst (last_range p) <= snd (last_range p) /\
    snd (last_range p) <= e)) /\
  Forall (bucket_ok sizes n) (indices_to_search p).

(** Ascending distance. *)
Definition by_distance (a b : pid) : Prop := float_le (snd a) (snd b).

(** The SubIndex answers in ascending distance. *)
Definition index_sorted (T : Type)
    (index_query :
       SpatialIndex T -> Point T -> FilterRange -> QueryParams -> list pid)
    : Prop :=
  forall sub query range qp,
    StronglySorted by_distance (index_query sub query range qp).

(** The events of a recursive [optimized_postfiltering_search] call made
    with the caller's parameters, if the call is made. *)
Definition recursive_call (T : Type)
    (distance : Point T -> Point T -> float32)
    (sort_inplace : forall A : Type, (A -> A -> bool) -> list A -> list A)
    (index_query :
       SpatialIndex T -> Point T -> FilterRange -> QueryParams -> list pid)
    (index : RangeFilterTreeIndex T) (query : Point T) (qp : QueryParams)
    (r : option FilterRange) : list Event :=
  match r with
  | Some r => trace (optimized_postfiltering_search T distance sort_inplace
                       index_query index query r qp)
  | None => []
  end.

(** A SubIndex query event carries the parameters [qp]. *)
Definition carries (qp : QueryParams) (ev : Event) : Prop :=
  match ev with
  | EvQuery _ _ _ qp' => qp' = qp
  | _ => True
  end.

(** The sorted positions of bucket [b] of a level, clipped to [n]. *)
Definition bucket_span (bucket_sizes : list size_t) (n : size_t)
    (b : Z * size_t) : size_t * size_t :=
  let w := nth (Z.to_nat (fst b)) bucket_sizes 0 in
  (snd b * w, Z.min (snd b * w + w) n).

(** Everything a plan looks at: the spans of its buckets, then its residue
    ranges. *)
Definition planned_spans (bucket_sizes : list size_t) (n : size_t) (p : Plan)
    (inclusive_start exclusive_end : size_t) : list (size_t * size_t) :=
  map (bucket_span bucket_sizes n) (indices_to_search p)
  ++ residue_ranges p inclusive_start exclusive_end.

Definition covers (r : size_t * size_t) (i : Z) : bool :=
  (fst r <=? i) && (i <? snd r).

(** How many planned spans contain position [i]. *)
Definition cover_count (spans : list (size_t * size_t)) (i : Z) : nat :=
  length (filter (fun r => covers r i) spans).

(** The width of level [j] of a pyramid with cutoff [c], and the widths of
    its first [k] levels. *)
Definition width (c j : Z) : size_t := c * 2 ^ j.

Definition widths (c : Z) (k : nat) : list size_t :=
  map (width c) (zrange 0 (Z.of_nat k)).

(** Position [i] lies in the unclipped span of bucket [b]. *)
Definition span_in (c : Z) (b : Z * size_t) (i : Z) : Prop :=
  snd b * width c (fst b) <= i < snd b * width c (fst b) + width c (fst b).

(** The planner's invariant behind coverage: every planned bucket lies in
    the window [s, e); [last_range] is unset with nothing planned, or it is
    a range inside the window whose ends are multiples of [wd] and whose
    positions are all covered by planned buckets. *)
Definition covering (c m s e wd : Z) (p : Plan) : Prop :=
  Forall (fun b => 0 <= fst b < m /\ s <= snd b * width c (fst b) /\
                   snd b * width c (fst b) + width c (fst b) <= e)
         (indices_to_search p) /\
  ((last_range p = (0, 0) /\ indices_to_search p = []) \/
   (unset (last_range p) = false /\
    s <= fst (last_range p) /\ fst (last_range p) <= snd (last_range p) /\
    snd (last_range p) <= e /\
    (wd | fst (last_range p)) /\ (wd | snd (last_range p)) /\
    forall i, fst (last_range p) <= i < snd (last_range p) ->
      Exists (fun b => span_in c b i) (indices_to_search p))).

(** Ties in ascending original id, as a property of one output row. *)
Definition ties_by_original_id (ids : list Z) (dists : list float32) : Prop :=
  forall i j a b d,
    i < j -> lookup ids i = Some a -> lookup ids j = Some b ->
    lookup dists i = Some d -> lookup dists j = Some d -> a < b.

(** Stability of the sorted order: equal filter values keep their input
    order. *)
Definition stable_layout (fv : list FilterType) (original_id : list Z) : Prop :=
  forall i j pi pj,
    0 <= i < j -> (get0 fv i == get0 fv j)%Q ->
    lookup original_id pi = Some i -> lookup original_id pj = Some j ->
    pi < pj.

(** Arrays of the shape the constructor accepts, with any number of rows
    and no condition on the cutoff. *)
Definition valid_shape (T : Type) (points : array_t T)
    (filter_values : array_t FilterType) : Prop :=
  let n := nth 0 (shape points) 0 in
  let dimension := nth 1 (shape points) 0 in
  ndim points = 2 /\ ndim filter_values = 1 /\
  nth 0 (shape filter_values) 0 = n /\
  size (data points) = n * dimension /\ size (data filter_values) = n /\
  0 <= n < 2 ^ 31 /\ 1 <= dimension < 2 ^ 31.

(** Sorted position [i] of [pts] holds the input row [sigma[i]]. *)
Definition rows_gathered (T : Type) (points : array_t T) (sigma : list Z)
    (pts : PointRange T) : Prop :=
  let dimension := nth 1 (shape points) 0 in
  forall i, 0 <= i < size sigma ->
    exists p o, lookup pts i = Some p /\ lookup sigma i = Some o /\
      size p = dimension /\
      forall d, 0 <= d < dimension ->
        lookup p d = lookup (data points) (o * dimension + d).

(** The fields of an index are assembled from the levels of its pyramid. *)
Definition assembled (T : Type) (index : RangeFilterTreeIndex T)
    (levels : list (Level T)) : Prop :=
  _bucket_sizes T index = map fst levels /\
  _starts T index = map (fun l => map fst (snd l)) levels /\
  _spatial_indices T index = map (fun l => map snd (snd l)) levels /\
  levels_from T (_points T index) (_filter_values T index)
    (size (_points T index)) (sz (_cutoff T index)) levels.

(** The sorted positions held by SubIndex [b] of level [j]; empty when
    there is no such SubIndex. *)
Definition bucket_positions (T : Type) (index : RangeFilterTreeIndex T)
    (j b : Z) : list Z :=
  match lookup (_spatial_indices T index) j with
  | Some level =>
      match lookup level b with
      | Some sub => subset_of_indices T sub
      | None => []
      end
  | None => []
  end.

(** The messages of the constructor's three shape checks. *)
Definition points_message : String.string :=
  "points numpy array must be 2-dimensional"%string.
Definition filter_message : String.string :=
  "filter data numpy array must be 1-dimensional"%string.
Definition length_message : String.string :=
  "filter data numpy array must have the same number of elements as the points array"%string.

(** The brute-force scan of the sorted positions [s, e): each position with
    its distance to the query, sorted by distance and cut to [knn]. *)
Definition window_scan (T : Type) (distance : Point T -> Point T -> float32)
    (sort_inplace : forall A : Type, (A -> A -> bool) -> list A -> list A)
    (index : RangeFilterTreeIndex T) (query : Point T) (s e knn : size_t)
    : list pid :=
  sort_and_cut sort_inplace
    (map (fun i => (i, distance (nth (Z.to_nat i) (_points T index) []) query))
         (zrange s e))
    knn.

(** Bucket [b] of width [w] is a full bucket inside the window [s, e). *)
Definition full_bucket_inside (s e w b : Z) : Prop :=
  0 <= b /\ s <= b * w /\ b * w + w <= e.

(** The SubIndex answers with members of its subset. *)
Definition answers_in_subset (T : Type)
    (index_query :
       SpatialIndex T -> Point T -> FilterRange -> QueryParams -> list pid)
    : Prop :=
  forall sub query range qp,
    Forall (fun p : pid => In (fst p) (subset_of_indices T sub))
           (index_query sub query range qp).

(** Every id of [r] is a sorted position below [n]. *)
Definition ids_below (n : Z) (r : list pid) : Prop :=
  Forall (fun p => 0 <= fst p < n) r.

(** * Scenarios *)

Module Scenarios.
Import Instance.

Definition points_of (rows : list (list Q)) : array_t Q :=
  mkArray 2 [size rows; size (hd [] rows)] (concat rows).

Definition filter_of (values : list Q) : array_t Q :=
  mkArray 1 [size values] values.

Definition build (srt : forall A : Type, (A -> A -> bool) -> list A -> list A)
    (rows : list (list Q)) (values : list Q) (cutoff : Z)
    : M (RangeFilterTreeIndex Q) :=
  RangeFilterTreeIndex_new Q srt (points_of rows) (filter_of values) cutoff.

Definition the_index (m : M (RangeFilterTreeIndex Q)) : RangeFilterTreeIndex Q :=
  match outcome m with
  | Ok index => index
  | Err _ => mkIndex Q [] [] [] [] [] 0 []
  end.

Definition search (srt : forall A : Type, (A -> A -> bool) -> list A -> list A)
    (index : RangeFilterTreeIndex Q) (query : list Q)
    (range : FilterRange) (query_method : String.string) (knn : Z)
    : M (list (list Z) * list (list float32)) :=
  batch_search Q distance srt index_query index [query] [range] 1
    query_method (qp_of_k knn).

Definition strategies : list String.string :=
  ["fenwick_tree"; "optimized_postfilter"; "three_split"]%string.

(** One point, filter value 1/2, cutoff 1. *)
Definition single_rows : list (list Q) := [[1; 0]]%Q.
Definition single_filter : list Q := [1 # 2].
Definition single_index : RangeFilterTreeIndex Q :=
  Eval vm_compute in the_index (build insertion_sort single_rows single_filter 1).

(** Eight points on a line with filter values 0..7. *)
Definition line_rows : list (list Q) :=
  map (fun i => [inject_Z i]) [0; 1; 2; 3; 4; 5; 6; 7].
Definition line_filter : list Q := map inject_Z [0; 1; 2; 3; 4; 5; 6; 7].
Definition line_index_1 : RangeFilterTreeIndex Q :=
  Eval vm_compute in the_index (build insertion_sort line_rows line_filter 1).
Definition line_index_2 : RangeFilterTreeIndex Q :=
  Eval vm_compute in the_index (build insertion_sort line_rows line_filter 2).

(** Four points with filter values 1..4 and a cutoff of 8: no level. *)
Definition four_rows : list (list Q) := map (fun i => [inject_Z i]) [1; 2; 3; 4].
Definition four_filter : list Q := map inject_Z [1; 2; 3; 4].
Definition four_index : RangeFilterTreeIndex Q :=
  Eval vm_compute in the_index (build insertion_sort four_rows four_filter 8).

(** Four points; input points 1 and 2 are at the same distance from the
    query [0] and swap places in the sorted order. *)
Definition tie_rows : list (list Q) := [[10]; [1]; [-1]; [10]]%Q.
Definition tie_filter : list Q := map inject_Z [0; 3; 2; 5].
Definition tie_index : RangeFilterTreeIndex Q :=
  Eval vm_compute in the_index (build insertion_sort tie_rows tie_filter 1000).

(** The same points with the filter values already in order, built with the
    sort that reverses ties. *)
Definition tie_filter' : list Q := map inject_Z [0; 2; 3; 5].
Definition tie_index' : RangeFilterTreeIndex Q :=
  Eval vm_compute in the_index (build reversing_sort tie_rows tie_filter' 1000).

(** Two points with the same filter value. *)
Definition twin_rows : list (list Q) := [[0]; [1]]%Q.
Definition twin_filter : list Q := [1; 1]%Q.
Definition twin_index : RangeFilterTreeIndex Q :=
  Eval vm_compute in the_index (build reversing_sort twin_rows twin_filter 1).

(** Three points with filter values 1, 2, 3. *)
Definition three_rows : list (list Q) := [[0]; [1]; [2]]%Q.
Definition three_filter : list Q := map inject_Z [1; 2; 3].
Definition three_index : RangeFilterTreeIndex Q :=
  Eval vm_compute in the_index (build insertion_sort three_rows three_filter 1).

(** Four points, two of them with equal filter values. *)
Definition mixed_rows : list (list Q) := [[0]; [1]; [2]; [3]]%Q.
Definition mixed_filter : list Q := map inject_Z [3; 1; 2; 1].

(** The index over the four points with two equal filter values. *)
Definition mixed_index : RangeFilterTreeIndex Q :=
  Eval vm_compute in the_index (build insertion_sort mixed_rows mixed_filter 1).

(** Arrays without a row. *)
Definition no_points : array_t Q := mkArray 2 [0; 2] [].
Definition no_filter : array_t Q := mkArray 1 [0] [].

(** The two nearest of the line to the query [3] inside the range [1, 6]. *)
Definition line_answer : list pid :=
  Eval vm_compute in
    match outcome (fenwick_tree_search Q distance insertion_sort index_query
                     line_index_1 [3]%Q (1, 6)%Q (qp_of_k 2)) with
    | Ok r => r
    | Err _ => []
    end.

(** Two queries on the line, each with its range. *)
Definition two_queries : list (list Q) := [[3]; [5]]%Q.
Definition two_ranges : list FilterRange := [(1, 6); (0, 2)]%Q.

(** Parameters with a beam multiplier other than 1 and verbose output. *)
Definition wide_params : QueryParams :=
  mkQueryParams 10 10 (135 # 100) 1000 1000 3 1000 None true.

(** The line with a cutoff of 5: one level of width 5 and one of width 10. *)
Definition line_index_5 : RangeFilterTreeIndex Q :=
  Eval vm_compute in the_index (build insertion_sort line_rows line_filter 5).

(** Parameters whose bucket ratio is the [float] nearest to 5/3, which lies
    below 5/3. *)
Definition ratio_params : QueryParams :=
  mkQueryParams 2 10 (135 # 100) 1000 1000 1 1000
    (Some (13981013 # 8388608)) false.

End Scenarios.

(** * Properties *)

(** ** Integers, lookups and counting loops *)

Lemma two64_eq : two64 = 18446744073709551616.
Proof. reflexivity. Qed.

Lemma sz_small (z : Z) : 0 <= z < two64 -> sz z = z.
Proof. intros H. unfold sz. apply Z.mod_small. exact H. Qed.

Lemma sz_range (z : Z) : 0 <= sz z < two64.
Proof. unfold sz. apply Z.mod_pos_bound. rewrite two64_eq. lia. Qed.

Lemma size_nonneg {A} (l : list A) : 0 <= size l.
Proof. unfold size. lia. Qed.

Lemma lookup_Some_range {A} (l : list A) (i : Z) (v : A) :
  lookup l i = Some v -> 0 <= i < size l.
Proof.
  unfold lookup, size. destruct (i <? 0) eqn:E; [discriminate|].
  intros H. apply Z.ltb_ge in E.
  assert (Z.to_nat i < length l)%nat.
  { apply nth_error_Some. rewrite H. discriminate. }
  lia.
Qed.

Lemma lookup_in_range {A} (l : list A) (i : Z) :
  0 <= i < size l -> exists v, lookup l i = Some v.
Proof.
  unfold lookup, size. intros H.
  destruct (i <? 0) eqn:E; [apply Z.ltb_lt in E; lia|].
  destruct (nth_error l (Z.to_nat i)) eqn:N; [eauto|].
  apply nth_error_None in N. lia.
Qed.

Lemma lookup_In {A} (l : list A) (i : Z) (v : A) :
  lookup l i = Some v -> In v l.
Proof.
  unfold lookup. destruct (i <? 0); [discriminate|]. apply nth_error_In.
Qed.

Lemma lookup_map {A B} (f : A -> B) (l : list A) (i : Z) :
  lookup (map f l) i = option_map f (lookup l i).
Proof.
  unfold lookup. destruct (i <? 0); [reflexivity|]. apply nth_error_map.
Qed.

Lemma zrange_length (lo hi : Z) : length (zrange lo hi) = Z.to_nat (hi - lo).
Proof. unfold zrange. rewrite length_map, length_seq. reflexivity. Qed.

Lemma zrange_size (lo hi : Z) : lo <= hi -> size (zrange lo hi) = hi - lo.
Proof. intros H. unfold size. rewrite zrange_length. lia. Qed.

Lemma zrange_In (lo hi i : Z) : In i (zrange lo hi) <-> lo <= i < hi.
Proof.
  unfold zrange. rewrite in_map_iff. split.
  - intros [j [<- Hj]]. apply in_seq in Hj. lia.
  - intros H. exists (Z.to_nat (i - lo)). split; [lia|].
    apply in_seq. lia.
Qed.

Lemma zrange_empty (lo hi : Z) : hi <= lo -> zrange lo hi = [].
Proof.
  intros H. unfold zrange.
  replace (Z.to_nat (hi - lo)) with 0%nat by lia. reflexivity.
Qed.

Lemma zrange_lookup (lo hi i : Z) :
  0 <= i < hi - lo -> lookup (zrange lo hi) i = Some (lo + i).
Proof.
  intros H. unfold lookup, zrange.
  destruct (i <? 0) eqn:E; [apply Z.ltb_lt in E; lia|].
  rewrite nth_error_map, nth_error_seq.
  destruct (Nat.ltb_spec (Z.to_nat i) (Z.to_nat (hi - lo))); [|lia].
  simpl. f_equal. lia.
Qed.

Lemma zrange_snoc (lo hi : Z) :
  lo <= hi -> zrange lo (hi + 1) = zrange lo hi ++ [hi].
Proof.
  intros H. unfold zrange.
  replace (Z.to_nat (hi + 1 - lo)) with (Z.to_nat (hi - lo) + 1)%nat by lia.
  rewrite seq_app, map_app. simpl. do 2 f_equal. lia.
Qed.

(** ** The monad *)

Lemma bind_ok {A B} (m : M A) (f : A -> M B) (a : A) :
  m = ([], Ok a) -> bind m f = f a.
Proof. intros ->. unfold bind. destruct (f a). reflexivity. Qed.

Lemma bind_ret {A B} (a : A) (f : A -> M B) : bind (ret a) f = f a.
Proof. apply bind_ok. reflexivity. Qed.

Lemma outcome_bind_ok {A B} (m : M A) (f : A -> M B) (a : A) :
  outcome m = Ok a -> outcome (bind m f) = outcome (f a).
Proof.
  destruct m as [t r]. simpl. intros ->. simpl. destruct (f a). reflexivity.
Qed.

Lemma bind_pair {A B} (t : list Event) (a : A) (f : A -> M B) :
  bind (t, Ok a) f = (t ++ trace (f a), outcome (f a)).
Proof. unfold bind. destruct (f a). reflexivity. Qed.

Lemma outcome_bind_pair {A B} (t : list Event) (a : A) (f : A -> M B) :
  outcome (bind (t, Ok a) f) = outcome (f a).
Proof. apply outcome_bind_ok. reflexivity. Qed.

Lemma outcome_bind_inv {A B} (m : M A) (f : A -> M B) (b : B) :
  outcome (bind m f) = Ok b ->
  exists a, outcome m = Ok a /\ outcome (f a) = Ok b.
Proof.
  destruct m as [t [a|e]]; simpl.
  - destruct (f a) eqn:E. simpl. intros ->. exists a. rewrite E. auto.
  - discriminate.
Qed.

Lemma trace_bind {A B} (m : M A) (f : A -> M B) :
  trace (bind m f) =
  trace m ++ match outcome m with Ok a => trace (f a) | Err _ => [] end.
Proof.
  destruct m as [t [a|e]]; simpl.
  - destruct (f a). reflexivity.
  - rewrite app_nil_r. reflexivity.
Qed.

Lemma mapM_pure {A B} (f : A -> M B) (g : A -> B) (l : list A) :
  (forall x, In x l -> f x = ([], Ok (g x))) ->
  mapM f l = ([], Ok (map g l)).
Proof.
  induction l as [|x l IH]; intros H; simpl; [reflexivity|].
  rewrite (bind_ok _ _ (g x)) by (apply H; left; reflexivity).
  rewrite (bind_ok _ _ (map g l)) by (apply IH; intros; apply H; right; assumption).
  reflexivity.
Qed.

Lemma mapM_outcome_ok {A B} (f : A -> M B) (l : list A) :
  (forall x, In x l -> exists y, outcome (f x) = Ok y) ->
  exists ys, outcome (mapM f l) = Ok ys /\ length ys = length l /\
             Forall2 (fun x y => outcome (f x) = Ok y) l ys.
Proof.
  induction l as [|x l IH]; intros H; simpl.
  - exists []. repeat split; constructor.
  - destruct (H x (or_introl eq_refl)) as [y Hy].
    destruct IH as [ys [Hys [Hlen Hall]]].
    { intros; apply H; right; assumption. }
    exists (y :: ys). split; [|split].
    + rewrite (outcome_bind_ok _ _ y Hy).
      rewrite (outcome_bind_ok _ _ ys Hys). reflexivity.
    + simpl. congruence.
    + constructor; assumption.
Qed.

Lemma mapM_outcome_inv {A B} (f : A -> M B) (l : list A) (ys : list B) :
  outcome (mapM f l) = Ok ys ->
  Forall2 (fun x y => outcome (f x) = Ok y) l ys.
Proof.
  revert ys. induction l as [|x l IH]; intros ys; simpl.
  - intros [= <-]. constructor.
  - intros H. apply outcome_bind_inv in H as [y [Hy H]].
    apply outcome_bind_inv in H as [ys' [Hys' H]].
    simpl in H. injection H as <-. constructor; auto.
Qed.

Lemma mapM_trace_In {A B} (f : A -> M B) (l : list A) (ev : Event) :
  In ev (trace (mapM f l)) -> exists x, In x l /\ In ev (trace (f x)).
Proof.
  induction l as [|x l IH]; simpl; [intros []|].
  rewrite trace_bind. intros H. apply in_app_or in H as [H|H].
  - exists x. auto.
  - destruct (outcome (f x)); [|destruct H].
    rewrite trace_bind in H. apply in_app_or in H as [H|H].
    + destruct (IH H) as [x' [? ?]]. exists x'. auto.
    + destruct (outcome (mapM f l)); destruct H.
Qed.

(** ** The boundary helpers *)

(** What the loop establishes: it returns, the result [r] lies in
    [(start, end_]], the value at [r] is accepted unless [r] is the initial
    [end_], and the value just before [r] is rejected unless [r] is
    [start + 1].  Position [start] itself is never read. *)
Lemma boundary_loop_spec (accept : FilterType -> bool)
    (fv : list FilterType) :
  forall (fuel : nat) (start end_ : size_t),
    0 <= start < end_ -> end_ <= size fv -> size fv < 2 ^ 63 ->
    end_ - start <= 2 ^ Z.of_nat fuel ->
    exists r, boundary_loop fuel accept fv start end_ = Some r /\
      start < r <= end_ /\
      (r = end_ \/ exists v, lookup fv r = Some v /\ accept v = true) /\
      (r = start + 1 \/
       exists v, lookup fv (r - 1) = Some v /\ accept v = false).
Proof.
  induction fuel as [|fuel IH]; intros start end_ Hse Hend Hn Hgap.
  - simpl in Hgap. assert (end_ = start + 1) by lia. subst end_.
    simpl. rewrite sz_small by (rewrite two64_eq; lia).
    rewrite Z.ltb_irrefl. exists (start + 1). repeat split; auto; lia.
  - cbn [boundary_loop]. rewrite sz_small by (rewrite two64_eq; lia).
    destruct (start + 1 <? end_) eqn:E.
    + apply Z.ltb_lt in E.
      rewrite sz_small by (rewrite two64_eq; lia).
      set (mid := (start + end_) / 2).
      assert (Hmid : start < mid < end_).
      { subst mid. Z.div_mod_to_equations. lia. }
      rewrite Nat2Z.inj_succ, Z.pow_succ_r in Hgap by lia.
      destruct (lookup_in_range fv mid) as [v Hv]; [lia|].
      rewrite Hv. destruct (accept v) eqn:Ha.
      * destruct (IH start mid) as [r [Hr [Hb [Hhi Hlo]]]]; try lia.
        { subst mid. Z.div_mod_to_equations. lia. }
        exists r. split; [exact Hr|]. split; [lia|]. split; [|exact Hlo].
        right. destruct Hhi as [->|Hhi]; [exists v; auto|exact Hhi].
      * destruct (IH mid end_) as [r [Hr [Hb [Hhi Hlo]]]]; try lia.
        { subst mid. Z.div_mod_to_equations. lia. }
        exists r. split; [exact Hr|]. split; [lia|]. split; [exact Hhi|].
        right. destruct Hlo as [->|Hlo]; [|exact Hlo].
        exists v. replace (mid + 1 - 1) with mid by lia. auto.
    + apply Z.ltb_ge in E. assert (end_ = start + 1) by lia. subst end_.
      exists (start + 1). repeat split; auto; lia.
Qed.

(** On a non-empty sequence both helpers return a position in [1, n]. *)
Lemma boundary_top (accept : FilterType -> bool) (fv : list FilterType) :
  1 <= size fv < 2 ^ 63 ->
  exists r, boundary_loop 64 accept fv 0 (size fv) = Some r /\
    1 <= r <= size fv /\
    (r = size fv \/ exists v, lookup fv r = Some v /\ accept v = true) /\
    (r = 1 \/ exists v, lookup fv (r - 1) = Some v /\ accept v = false).
Proof.
  intros Hn.
  assert (Hgap : size fv - 0 <= 2 ^ Z.of_nat 64).
  { change (2 ^ Z.of_nat 64) with (2 * 2 ^ 63). lia. }
  destruct (boundary_loop_spec accept fv 64 0 (size fv)
              ltac:(lia) ltac:(lia) ltac:(lia) Hgap)
    as [r [Hr [Hb [Hhi Hlo]]]].
  exists r. repeat split; auto; lia.
Qed.

(** Every value of the sequence is accepted: the helper returns 1. *)
Lemma boundary_all_accepted (accept : FilterType -> bool)
    (fv : list FilterType) :
  1 <= size fv < 2 ^ 63 ->
  (forall v, In v fv -> accept v = true) ->
  boundary_loop 64 accept fv 0 (size fv) = Some 1.
Proof.
  intros Hn Hall.
  destruct (boundary_top accept fv Hn) as [r [Hr [Hb [_ Hlo]]]].
  destruct Hlo as [->|[v [Hv Ha]]]; [exact Hr|].
  apply lookup_In in Hv. rewrite (Hall v Hv) in Ha. discriminate.
Qed.

Lemma first_greater_than_or_equal_to_all (fv : list FilterType)
    (x : FilterType) :
  1 <= size fv < 2 ^ 63 -> (forall v, In v fv -> (x <= v)%Q) ->
  first_greater_than_or_equal_to fv x = Some 1.
Proof.
  intros Hn Hall. unfold first_greater_than_or_equal_to.
  apply boundary_all_accepted; [exact Hn|].
  intros v Hv. apply Qle_bool_iff. apply Hall. exact Hv.
Qed.

(** No value of the sequence is accepted: the helper returns [n]. *)
Lemma boundary_none_accepted (accept : FilterType -> bool)
    (fv : list FilterType) :
  1 <= size fv < 2 ^ 63 ->
  (forall v, In v fv -> accept v = false) ->
  boundary_loop 64 accept fv 0 (size fv) = Some (size fv).
Proof.
  intros Hn Hall.
  destruct (boundary_top accept fv Hn) as [r [Hr [Hb [Hhi _]]]].
  destruct Hhi as [->|[v [Hv Ha]]]; [exact Hr|].
  apply lookup_In in Hv. rewrite (Hall v Hv) in Ha. discriminate.
Qed.

Lemma lookup_cons {A} (x : A) (l : list A) (i : Z) :
  lookup (x :: l) i = if i =? 0 then Some x else lookup l (i - 1).
Proof.
  unfold lookup. destruct (Z.eqb_spec i 0) as [->|Hne]; [reflexivity|].
  destruct (Z.ltb_spec i 0) as [Hneg|Hpos].
  - destruct (Z.ltb_spec (i - 1) 0); [reflexivity|lia].
  - destruct (Z.ltb_spec (i - 1) 0); [lia|].
    replace (Z.to_nat i) with (S (Z.to_nat (i - 1))) by lia. reflexivity.
Qed.

Lemma size_cons {A} (x : A) (l : list A) : size (x :: l) = size l + 1.
Proof. unfold size. simpl length. lia. Qed.

Lemma size_map {A B} (f : A -> B) (l : list A) : size (map f l) = size l.
Proof. unfold size. rewrite length_map. reflexivity. Qed.

Lemma size_app {A} (l l' : list A) : size (l ++ l') = size l + size l'.
Proof. unfold size. rewrite length_app. lia. Qed.

Lemma first_greater_than_none (fv : list FilterType) (x : FilterType) :
  1 <= size fv < 2 ^ 63 -> (forall v, In v fv -> (v <= x)%Q) ->
  first_greater_than fv x = Some (size fv).
Proof.
  intros Hn Hall. unfold first_greater_than.
  apply boundary_none_accepted; [exact Hn|].
  intros v Hv. unfold Qltb. apply negb_false_iff. apply Qle_bool_iff.
  apply Hall. exact Hv.
Qed.

(** ** The pyramid built by the private constructor *)

Section Pyramid.

Variable T : Type.
Variable points : PointRange T.
Variable filter_values : list FilterType.
Variable n : size_t.
Hypothesis n_range : 1 <= n < 2 ^ 62.

Lemma build_levels_spec :
  forall (fuel : nat) (w : size_t),
    1 <= w < two64 -> 2 * n <= w * 2 ^ Z.of_nat fuel ->
    exists levels,
      build_levels T fuel points filter_values n w = ([], Ok levels) /\
      levels_from T points filter_values n w levels.
Proof.
  assert (H2n : sz (2 * n) = 2 * n).
  { apply sz_small. rewrite two64_eq. lia. }
  induction fuel as [|fuel IH]; intros w Hw Hfuel.
  - change (2 ^ Z.of_nat 0) with 1 in Hfuel.
    exists []. cbn [build_levels]. rewrite H2n.
    destruct (Z.ltb_spec w (2 * n)); [lia|]. split; [reflexivity|].
    repeat split.
    + intros j v. unfold lookup. destruct (j <? 0); [discriminate|].
      destruct (Z.to_nat j); discriminate.
    + constructor.
    + change (2 ^ size (@nil (Level T))) with 1. lia.
  - cbn [build_levels]. rewrite H2n.
    destruct (Z.ltb_spec w (2 * n)) as [Hlt|Hge].
    + destruct (Z.eqb_spec w 0) as [->|_]; [lia|].
      assert (Hw2 : sz (w * 2) = w * 2).
      { apply sz_small. rewrite two64_eq. lia. }
      rewrite Hw2.
      rewrite Nat2Z.inj_succ, Z.pow_succ_r in Hfuel by lia.
      destruct (IH (w * 2)) as [rest [Hrest [Hgeo [Hall Hstop]]]].
      { rewrite two64_eq. lia. }
      { lia. }
      rewrite (bind_ok _ _ rest Hrest).
      eexists. split; [reflexivity|]. repeat split.
      * intros j v. cbn [map fst]. rewrite lookup_cons.
        destruct (Z.eqb_spec j 0) as [->|Hj].
        -- intros [= <-]. simpl. lia.
        -- intros Hv. pose proof (lookup_Some_range _ _ _ Hv) as Hr.
           rewrite (Hgeo _ _ Hv).
           replace j with (Z.succ (j - 1)) at 2 by lia.
           rewrite Z.pow_succ_r by lia. lia.
      * constructor; [|exact Hall]. cbn [fst snd]. split; [lia|].
        unfold num_buckets_of.
        rewrite (sz_small (n + w)) by (rewrite two64_eq; lia).
        rewrite sz_small by (rewrite two64_eq; lia). reflexivity.
      * rewrite size_cons. rewrite Z.pow_add_r by (pose proof (size_nonneg rest); lia).
        simpl (2 ^ 1). lia.
    + exists []. split; [reflexivity|]. repeat split.
      * intros j v. unfold lookup. destruct (j <? 0); [discriminate|].
        destruct (Z.to_nat j); discriminate.
      * constructor.
      * change (2 ^ size (@nil (Level T))) with 1. lia.
Qed.

End Pyramid.

(** ** The two sorting instances meet the contract *)

Module InstanceFacts.
Import Instance.

Section Insertion.

Variable A : Type.
Variable less : A -> A -> bool.

Let ordered (a b : A) : Prop := less b a = false.

Lemma insert_perm (x : A) (l : list A) : Permutation (x :: l) (insert less x l).
Proof.
  induction l as [|y l IH]; simpl; [apply Permutation_refl|].
  destruct (less x y); [apply Permutation_refl|].
  eapply perm_trans; [apply perm_swap|]. apply perm_skip. exact IH.
Qed.

Lemma insert_front_perm (x : A) (l : list A) :
  Permutation (x :: l) (insert_front less x l).
Proof.
  induction l as [|y l IH]; simpl; [apply Permutation_refl|].
  destruct (less y x); [|apply Permutation_refl].
  eapply perm_trans; [apply perm_swap|]. apply perm_skip. exact IH.
Qed.

Lemma fold_insert_perm (ins : A -> list A -> list A) :
  (forall x l, Permutation (x :: l) (ins x l)) ->
  forall l acc, Permutation (acc ++ l) (fold_left (fun acc x => ins x acc) l acc).
Proof.
  intros Hins. induction l as [|x l IH]; intros acc; simpl.
  - rewrite app_nil_r. apply Permutation_refl.
  - eapply perm_trans; [|apply IH].
    eapply perm_trans; [apply Permutation_sym, Permutation_middle|].
    change (x :: acc ++ l) with ((x :: acc) ++ l).
    apply Permutation_app_tail. apply Hins.
Qed.

Hypothesis less_swo : strict_weak_order less.

Lemma insert_sorted (x : A) (l : list A) :
  StronglySorted ordered l -> StronglySorted ordered (insert less x l).
Proof.
  destruct less_swo as [Hasym Hneg].
  induction l as [|y l IH]; intros Hs; simpl.
  - constructor; constructor.
  - inversion Hs as [|? ? Hs' Hy]; subst.
    destruct (less x y) eqn:E.
    + constructor; [exact Hs|]. constructor.
      * unfold ordered. apply Hasym. exact E.
      * eapply Forall_impl; [|exact Hy]. intros z Hz. unfold ordered in *.
        apply (Hneg z y x); [exact Hz|]. apply Hasym. exact E.
    + constructor; [apply IH; exact Hs'|].
      eapply Permutation_Forall; [apply insert_perm|].
      constructor; [exact E|exact Hy].
Qed.

Lemma insert_front_sorted (x : A) (l : list A) :
  StronglySorted ordered l -> StronglySorted ordered (insert_front less x l).
Proof.
  destruct less_swo as [Hasym Hneg].
  induction l as [|y l IH]; intros Hs; simpl.
  - constructor; constructor.
  - inversion Hs as [|? ? Hs' Hy]; subst.
    destruct (less y x) eqn:E.
    + constructor; [apply IH; exact Hs'|].
      eapply Permutation_Forall; [apply insert_front_perm|].
      constructor; [|exact Hy]. unfold ordered. apply Hasym. exact E.
    + constructor; [exact Hs|]. constructor; [exact E|].
      eapply Forall_impl; [|exact Hy]. intros z Hz. unfold ordered in *.
      apply (Hneg z y x); assumption.
Qed.

Lemma fold_insert_sorted (ins : A -> list A -> list A) :
  (forall x l, StronglySorted ordered l -> StronglySorted ordered (ins x l)) ->
  forall l acc, StronglySorted ordered acc ->
    StronglySorted ordered (fold_left (fun acc x => ins x acc) l acc).
Proof.
  intros Hins. induction l as [|x l IH]; intros acc Hacc; simpl; auto.
Qed.

End Insertion.

Lemma insertion_sort_contract : sort_contract insertion_sort.
Proof.
  intros A less l. split.
  - apply (fold_insert_perm A (insert less) (insert_perm A less) l []).
  - intros Hswo. unfold insertion_sort.
    apply (fold_insert_sorted A less (insert less)).
    + intros x l0. apply insert_sorted. exact Hswo.
    + constructor.
Qed.

Lemma reversing_sort_contract : sort_contract reversing_sort.
Proof.
  intros A less l. split.
  - apply (fold_insert_perm A (insert_front less) (insert_front_perm A less) l []).
  - intros Hswo. unfold reversing_sort.
    apply (fold_insert_sorted A less (insert_front less)).
    + intros x l0. apply insert_front_sorted. exact Hswo.
    + constructor.
Qed.

End InstanceFacts.

(** ** More on lookups and quiet computations *)

Lemma lookup_nth {A} (l : list A) (i : Z) (d : A) :
  0 <= i < size l -> lookup l i = Some (nth (Z.to_nat i) l d).
Proof.
  unfold lookup, size. intros H.
  destruct (Z.ltb_spec i 0); [lia|].
  apply nth_error_nth'. lia.
Qed.

Lemma at_nth {A} (l : list A) (i : Z) (d : A) :
  0 <= i < size l -> at_ l i = ([], Ok (nth (Z.to_nat i) l d)).
Proof. intros H. unfold at_. rewrite (lookup_nth l i d H). reflexivity. Qed.

Lemma idx_nth {A} (l : list A) (i : Z) (d : A) :
  0 <= i < size l -> idx l i = ([], Ok (nth (Z.to_nat i) l d)).
Proof. intros H. unfold idx. rewrite (lookup_nth l i d H). reflexivity. Qed.

Lemma idx_in_range {A} (l : list A) (i : Z) :
  0 <= i < size l -> exists v, idx l i = ([], Ok v) /\ lookup l i = Some v.
Proof.
  intros H. destruct (lookup_in_range l i H) as [v Hv].
  exists v. unfold idx. rewrite Hv. auto.
Qed.

Lemma at_in_range {A} (l : list A) (i : Z) :
  0 <= i < size l -> exists v, at_ l i = ([], Ok v) /\ lookup l i = Some v.
Proof.
  intros H. destruct (lookup_in_range l i H) as [v Hv].
  exists v. unfold at_. rewrite Hv. auto.
Qed.

(** A list is the tabulation of its own entries. *)
Lemma map_nth_zrange {A} (l : list A) (d : A) :
  map (fun i => nth (Z.to_nat i) l d) (zrange 0 (size l)) = l.
Proof.
  unfold zrange, size. rewrite map_map. rewrite Z.sub_0_r, Nat2Z.id.
  apply nth_ext with (d := d) (d' := d).
  - rewrite length_map, length_seq. reflexivity.
  - intros i Hi. rewrite length_map, length_seq in Hi.
    rewrite (nth_indep _ d (nth (Z.to_nat (0 + Z.of_nat 0)) l d)) by
      (rewrite length_map, length_seq; exact Hi).
    rewrite (map_nth (fun i0 => nth (Z.to_nat (0 + Z.of_nat i0)) l d) (seq 0 (length l)) 0%nat i).
    rewrite seq_nth by exact Hi. simpl. rewrite Nat2Z.id. reflexivity.
Qed.

Lemma mapM_quiet {A B} (P : A -> B -> Prop) (f : A -> M B) (l : list A) :
  (forall x, In x l -> exists y, f x = ([], Ok y) /\ P x y) ->
  exists ys, mapM f l = ([], Ok ys) /\ Forall2 P l ys.
Proof.
  induction l as [|x l IH]; intros H; simpl.
  - exists []. split; [reflexivity|constructor].
  - destruct (H x (or_introl eq_refl)) as [y [Hy HP]].
    destruct IH as [ys [Hys Hall]].
    { intros; apply H; right; assumption. }
    exists (y :: ys). split.
    + rewrite (bind_ok _ _ y Hy), (bind_ok _ _ ys Hys). reflexivity.
    + constructor; assumption.
Qed.

Lemma Forall2_length_size {A B} (R : A -> B -> Prop) (l : list A)
    (l' : list B) : Forall2 R l l' -> size l' = size l.
Proof. intros H. unfold size. rewrite (Forall2_length H). reflexivity. Qed.

Lemma Forall2_map_eq {A B C} (f : A -> C) (g : B -> C) (R : A -> B -> Prop)
    (l : list A) (l' : list B) :
  Forall2 R l l' -> (forall x y, R x y -> g y = f x) -> map g l' = map f l.
Proof.
  intros H Hfg. induction H; simpl; [reflexivity|].
  f_equal; auto.
Qed.

(** ** Order on filter values *)

Lemma Qltb_true_iff (a b : Q) : Qltb a b = true <-> (a < b)%Q.
Proof.
  unfold Qltb. rewrite negb_true_iff. split.
  - intros H. apply Qnot_le_lt. intros Hle.
    apply Qle_bool_iff in Hle. congruence.
  - intros H. destruct (Qle_bool b a) eqn:E; [|reflexivity].
    apply Qle_bool_iff in E. exfalso. apply (Qlt_not_le _ _ H E).
Qed.

Lemma Qltb_false_iff (a b : Q) : Qltb a b = false <-> (b <= a)%Q.
Proof.
  unfold Qltb. rewrite negb_false_iff. apply Qle_bool_iff.
Qed.

Lemma filter_less_swo (fv : list FilterType) :
  strict_weak_order (filter_less fv).
Proof.
  unfold filter_less. split.
  - intros a b H. apply Qltb_true_iff in H. apply Qltb_false_iff.
    apply Qlt_le_weak. exact H.
  - intros a b c Hab Hbc. apply Qltb_false_iff in Hab, Hbc.
    apply Qltb_false_iff. eapply Qle_trans; eassumption.
Qed.

Lemma float_less_swo :
  strict_weak_order (fun a b : pid => float_ltb (snd a) (snd b)).
Proof.
  split.
  - intros [ia [x|]] [ib [y|]]; simpl; try discriminate; auto.
    intros H. apply Qltb_true_iff in H. apply Qltb_false_iff.
    apply Qlt_le_weak. exact H.
  - intros [ia [x|]] [ib [y|]] [ic [z|]]; simpl; try discriminate; auto.
    intros Hab Hbc. apply Qltb_false_iff in Hab, Hbc.
    apply Qltb_false_iff. eapply Qle_trans; eassumption.
Qed.

(** ** The public constructor *)

Section Build.

Variable T : Type.
Variable sort_inplace : forall A : Type, (A -> A -> bool) -> list A -> list A.
Hypothesis sort_ok : sort_contract sort_inplace.

Lemma tabulate_id (n : Z) : tabulate n (fun i => i) = zrange 0 n.
Proof. unfold tabulate. apply map_id. Qed.

Lemma decoding_perm (fv : list FilterType) :
  Permutation (zrange 0 (size fv)) (decoding_of sort_inplace fv).
Proof.
  unfold decoding_of. rewrite tabulate_id. apply sort_ok.
Qed.

Lemma decoding_size (fv : list FilterType) : size (decoding_of sort_inplace fv) = size fv.
Proof.
  unfold size at 1. rewrite <- (Permutation_length (decoding_perm fv)).
  rewrite zrange_length. unfold size. lia.
Qed.

Lemma decoding_range (fv : list FilterType) (x : Z) :
  In x (decoding_of sort_inplace fv) -> 0 <= x < size fv.
Proof.
  intros H. apply zrange_In.
  eapply Permutation_in; [apply Permutation_sym, decoding_perm|exact H].
Qed.

Lemma decoding_nth_range (fv : list FilterType) (i : Z) :
  0 <= i < size fv -> 0 <= nth (Z.to_nat i) (decoding_of sort_inplace fv) 0 < size fv.
Proof.
  intros H. apply decoding_range. apply nth_In.
  pose proof (decoding_size fv) as Hs. unfold size in *. lia.
Qed.

Lemma PointRange_of_size (values : list T) (n dimension : Z) :
  0 <= n -> size (PointRange_of T values n dimension) = n.
Proof.
  intros H. unfold PointRange_of. rewrite size_map, zrange_size; lia.
Qed.

Lemma new_spec (points : array_t T) (filter_values : array_t FilterType)
    (cutoff : Z) :
  valid_input T points filter_values cutoff ->
  exists index,
    RangeFilterTreeIndex_new T sort_inplace points filter_values cutoff
      = ([], Ok index) /\
    built T sort_inplace (data filter_values) cutoff index.
Proof.
  intros (Hnd & Hfd & Hfn & Hdata & Hfdata & Hn & Hdim & Hcut).
  unfold RangeFilterTreeIndex_new.
  rewrite Hnd, Hfd, Hfn, !Z.eqb_refl. cbn [negb].
  set (n := nth 0 (shape points) 0) in *.
  set (dimension := nth 1 (shape points) 0) in *.
  set (fv := data filter_values) in *.
  assert (Hfirstn : firstn (Z.to_nat n) fv = fv).
  { apply firstn_all2. unfold size in Hfdata. lia. }
  rewrite Hfirstn.
  change (sort_inplace Z
            (fun i j : Z => Qltb (get0 fv i) (get0 fv j))
            (tabulate n (fun i : Z => i)))
    with (sort_inplace Z (filter_less fv) (tabulate n (fun i : Z => i))).
  rewrite <- Hfdata. fold (decoding_of sort_inplace fv).
  set (sigma := decoding_of sort_inplace fv).
  assert (Hsig : size sigma = size fv) by apply decoding_size.
  (* the gather of rows and of the decoding *)
  match goal with
  | |- context [bind (mapM ?f (zrange 0 (size fv))) _] =>
      destruct (mapM_quiet
                  (fun sid y => snd y = nth (Z.to_nat sid) sigma 0)
                  f (zrange 0 (size fv))) as [sorted [Hsorted Hall]]
  end.
  { intros sid Hsid. apply zrange_In in Hsid.
    rewrite (at_nth sigma sid 0) by lia.
    pose proof (decoding_nth_range fv sid Hsid) as Horig.
    fold sigma in Horig.
    match goal with
    | |- context [bind (mapM ?g (zrange 0 dimension)) _] =>
        destruct (mapM_quiet (fun _ _ => True) g (zrange 0 dimension))
          as [row [Hrow _]]
    end.
    { intros d Hd. apply zrange_In in Hd.
      rewrite (bind_ok _ _ _ eq_refl).
      assert (Hpos : 0 <= nth (Z.to_nat sid) sigma 0 * dimension + d
                     < size (data points)).
      { rewrite Hdata. fold n. rewrite <- Hfdata. nia. }
      rewrite sz_small by (rewrite two64_eq; rewrite Hdata in Hpos; nia).
      destruct (idx_in_range (data points) _ Hpos) as [v [Hv _]].
      exists v. split; [exact Hv|exact I]. }
    rewrite (bind_ok _ _ row Hrow). rewrite (bind_ok _ _ _ eq_refl).
    eexists. split; [reflexivity|reflexivity]. }
  rewrite (bind_ok _ _ sorted Hsorted).
  assert (Hdec : map snd sorted = sigma).
  { rewrite (Forall2_map_eq (fun sid => nth (Z.to_nat sid) sigma 0) snd _ _ _ Hall).
    - rewrite <- Hsig. apply map_nth_zrange.
    - intros sid y Hy. exact Hy. }
  rewrite Hdec.
  (* the sorted filter values *)
  rewrite (mapM_pure _ (fun i => get0 fv (nth (Z.to_nat i) sigma 0))).
  2:{ intros i Hi. apply zrange_In in Hi.
      rewrite (at_nth sigma i 0) by lia.
      rewrite (bind_ok _ _ _ eq_refl).
      apply at_nth. apply (decoding_nth_range fv i Hi). }
  rewrite (bind_ok _ _ _ eq_refl).
  assert (Hfvs : map (fun i => get0 fv (nth (Z.to_nat i) sigma 0))
                     (zrange 0 (size fv)) = map (get0 fv) sigma).
  { rewrite <- (map_map (fun i => nth (Z.to_nat i) sigma 0) (get0 fv)).
    rewrite <- Hsig. rewrite map_nth_zrange. reflexivity. }
  rewrite Hfvs.
  (* the pyramid *)
  unfold RangeFilterTreeIndex_private.
  set (pts := PointRange_of T (concat (map fst sorted)) (size fv) dimension).
  assert (Hpts : size pts = size fv).
  { apply PointRange_of_size. apply size_nonneg. }
  rewrite Hpts.
  rewrite (sz_small cutoff) by (rewrite two64_eq; lia).
  destruct (build_levels_spec T pts (map (get0 fv) sigma) (size fv)
              ltac:(lia) 64 cutoff) as [levels [Hlevels Hshape]].
  { rewrite two64_eq. lia. }
  { change (2 ^ Z.of_nat 64) with 18446744073709551616. lia. }
  rewrite (bind_ok _ _ levels Hlevels).
  eexists. split; [reflexivity|].
  constructor; cbn; auto.
  exists levels. auto.
Qed.

End Build.

(** ** Sorted sequences and positions *)

Lemma StronglySorted_lookup {A} (R : A -> A -> Prop) (l : list A) :
  StronglySorted R l ->
  forall p q a b, lookup l p = Some a -> lookup l q = Some b -> p < q -> R a b.
Proof.
  induction 1 as [|x l Hs IH Hx]; intros p q a b Hp Hq Hpq.
  - apply lookup_Some_range in Hp. unfold size in Hp. simpl in Hp. lia.
  - pose proof (lookup_Some_range _ _ _ Hp) as Rp.
    rewrite lookup_cons in Hp, Hq.
    destruct (Z.eqb_spec q 0) as [->|Hq0]; [lia|].
    destruct (Z.eqb_spec p 0) as [->|Hp0].
    + injection Hp as <-. rewrite Forall_forall in Hx. apply Hx.
      eapply lookup_In. exact Hq.
    + apply (IH (p - 1) (q - 1)); auto. lia.
Qed.

Lemma StronglySorted_map {A B} (R : A -> A -> Prop) (R' : B -> B -> Prop)
    (f : A -> B) (l : list A) :
  (forall a b, R a b -> R' (f a) (f b)) ->
  StronglySorted R l -> StronglySorted R' (map f l).
Proof.
  intros HR. induction 1 as [|x l Hs IH Hx]; simpl; constructor; auto.
  rewrite Forall_map. eapply Forall_impl; [|exact Hx]. intros; apply HR; auto.
Qed.

Lemma StronglySorted_firstn {A} (R : A -> A -> Prop) (l : list A) (m : nat) :
  StronglySorted R l -> StronglySorted R (firstn m l).
Proof.
  intros Hs. revert m. induction Hs as [|x l Hs IH Hx]; intros [|m]; simpl;
    try constructor; auto.
  rewrite Forall_forall in *. intros y Hy. apply Hx.
  rewrite <- (firstn_skipn m l). apply in_or_app. left. exact Hy.
Qed.

Lemma zrange_NoDup (lo hi : Z) : NoDup (zrange lo hi).
Proof.
  unfold zrange. apply Injective_map_NoDup; [|apply seq_NoDup].
  intros a b H. lia.
Qed.

Lemma NoDup_lookup_inj {A} (l : list A) (i j : Z) (v : A) :
  NoDup l -> lookup l i = Some v -> lookup l j = Some v -> i = j.
Proof.
  intros Hnd Hi Hj.
  pose proof (lookup_Some_range _ _ _ Hi) as Ri.
  pose proof (lookup_Some_range _ _ _ Hj) as Rj.
  unfold lookup in Hi, Hj.
  destruct (Z.ltb_spec i 0); [lia|]. destruct (Z.ltb_spec j 0); [lia|].
  assert (Z.to_nat i = Z.to_nat j).
  { apply (proj1 (NoDup_nth_error l) Hnd).
    - unfold size in Ri. lia.
    - congruence. }
  lia.
Qed.

Lemma In_lookup {A} (l : list A) (v : A) :
  In v l -> exists i, lookup l i = Some v.
Proof.
  intros H. apply In_nth_error in H as [k Hk].
  exists (Z.of_nat k). unfold lookup.
  destruct (Z.ltb_spec (Z.of_nat k) 0); [lia|]. rewrite Nat2Z.id. exact Hk.
Qed.

(** A list whose entry at [j] is [f j] is the tabulation of [f]. *)
Lemma lookup_tabulate (l : list Z) (f : Z -> Z) :
  (forall j v, lookup l j = Some v -> v = f j) ->
  l = map f (zrange 0 (size l)).
Proof.
  intros H. rewrite <- (map_nth_zrange l 0) at 1.
  apply map_ext_in. intros j Hj. apply zrange_In in Hj.
  apply H. apply lookup_nth. lia.
Qed.

(** ** The boundary helpers on a sorted sequence *)

(** With a test that is monotone along the sorted sequence, the loop finds
    the first accepted position among [1, ..., n-1], and [n] when there is
    none. *)
Lemma boundary_sorted (accept : FilterType -> bool) (fv : list FilterType) :
  StronglySorted Qle fv ->
  (forall a b, (a <= b)%Q -> accept a = true -> accept b = true) ->
  1 <= size fv < 2 ^ 63 ->
  exists r, boundary_loop 64 accept fv 0 (size fv) = Some r /\
    1 <= r <= size fv /\
    (forall i v, 1 <= i < r -> lookup fv i = Some v -> accept v = false) /\
    (forall i v, r <= i -> lookup fv i = Some v -> accept v = true).
Proof.
  intros Hsorted Hmono Hn.
  destruct (boundary_top accept fv Hn) as [r [Hr [Hb [Hhi Hlo]]]].
  assert (Hle : forall p q a b, lookup fv p = Some a -> lookup fv q = Some b ->
                  p <= q -> (a <= b)%Q).
  { intros p q a b Hp Hq Hpq. destruct (Z.eq_dec p q) as [->|Hne].
    - rewrite Hp in Hq. injection Hq as <-. apply Qle_refl.
    - apply (StronglySorted_lookup Qle fv Hsorted p q); auto. lia. }
  exists r. split; [exact Hr|]. split; [exact Hb|]. split.
  - intros i v Hi Hv. destruct Hlo as [->|[u [Hu Ha]]]; [lia|].
    destruct (accept v) eqn:E; [|reflexivity].
    rewrite (Hmono v u (Hle i (r - 1) v u Hv Hu ltac:(lia)) E) in Ha.
    discriminate.
  - intros i v Hi Hv. pose proof (lookup_Some_range _ _ _ Hv) as Hr'.
    destruct Hhi as [->|[u [Hu Ha]]]; [lia|].
    apply (Hmono u v); [|exact Ha]. apply (Hle r i u v Hu Hv Hi).
Qed.

Lemma first_greater_than_sorted (fv : list FilterType) (x : FilterType) :
  StronglySorted Qle fv -> 1 <= size fv < 2 ^ 63 ->
  exists r, first_greater_than fv x = Some r /\ 1 <= r <= size fv /\
    (forall i v, 1 <= i < r -> lookup fv i = Some v -> (v <= x)%Q) /\
    (forall i v, r <= i -> lookup fv i = Some v -> (x < v)%Q).
Proof.
  intros Hsorted Hn.
  destruct (boundary_sorted (fun v => Qltb x v) fv Hsorted) as
    [r [Hr [Hb [Hlo Hhi]]]]; [|exact Hn|].
  { intros a b Hab Ha. apply Qltb_true_iff in Ha. apply Qltb_true_iff.
    eapply Qlt_le_trans; eassumption. }
  exists r. split; [exact Hr|]. split; [exact Hb|]. split.
  - intros i v Hi Hv. apply Qltb_false_iff. apply (Hlo i v Hi Hv).
  - intros i v Hi Hv. apply Qltb_true_iff. apply (Hhi i v Hi Hv).
Qed.

Lemma first_greater_than_or_equal_to_sorted (fv : list FilterType)
    (x : FilterType) :
  StronglySorted Qle fv -> 1 <= size fv < 2 ^ 63 ->
  exists r, first_greater_than_or_equal_to fv x = Some r /\
    1 <= r <= size fv /\
    (forall i v, 1 <= i < r -> lookup fv i = Some v -> (v < x)%Q) /\
    (forall i v, r <= i -> lookup fv i = Some v -> (x <= v)%Q).
Proof.
  intros Hsorted Hn.
  destruct (boundary_sorted (fun v => Qle_bool x v) fv Hsorted) as
    [r [Hr [Hb [Hlo Hhi]]]]; [|exact Hn|].
  { intros a b Hab Ha. apply Qle_bool_iff in Ha. apply Qle_bool_iff.
    eapply Qle_trans; eassumption. }
  exists r. split; [exact Hr|]. split; [exact Hb|]. split.
  - intros i v Hi Hv. apply Qnot_le_lt. intros Hle.
    apply Qle_bool_iff in Hle. rewrite (Hlo i v Hi Hv) in Hle. discriminate.
  - intros i v Hi Hv. apply Qle_bool_iff. apply (Hhi i v Hi Hv).
Qed.

(** ** The sorted layout *)

Section SortedLayout.

Variable T : Type.
Variable sort_inplace : forall A : Type, (A -> A -> bool) -> list A -> list A.
Hypothesis sort_ok : sort_contract sort_inplace.

Lemma decoding_sorted (fv : list FilterType) :
  StronglySorted (fun a b => filter_less fv b a = false)
                 (decoding_of sort_inplace fv).
Proof. unfold decoding_of. apply sort_ok. apply filter_less_swo. Qed.

Lemma built_filter_sorted (fv : list FilterType) (cutoff : Z)
    (index : RangeFilterTreeIndex T) :
  built T sort_inplace fv cutoff index ->
  StronglySorted Qle (_filter_values T index).
Proof.
  intros Hb. rewrite (built_filter _ _ _ _ _ Hb).
  eapply StronglySorted_map; [|apply decoding_sorted].
  intros a b H. apply Qltb_false_iff in H. exact H.
Qed.

Lemma decoding_NoDup (fv : list FilterType) :
  NoDup (decoding_of sort_inplace fv).
Proof.
  eapply Permutation_NoDup; [apply decoding_perm; exact sort_ok|].
  apply zrange_NoDup.
Qed.

(** C5.  After a build from [n] points the stored filter values are
    non-decreasing, and the stored map from sorted position to original id
    is a bijection of [0, n): it is a rearrangement of [0, ..., n-1], every
    position holds an id below [n], no id occurs at two positions, and
    every id below [n] occurs. *)
Theorem build_monotone_and_bijective (points : array_t T)
    (filter_values : array_t FilterType) (cutoff : Z) :
  valid_input T points filter_values cutoff ->
  exists index,
    RangeFilterTreeIndex_new T sort_inplace points filter_values cutoff
      = ([], Ok index) /\
    StronglySorted Qle (_filter_values T index) /\
    let n := nth 0 (shape points) 0 in
    let original_id := _sorted_index_to_original_point_id T index in
    Permutation (zrange 0 n) original_id /\
    (forall i, 0 <= i < n ->
       exists o, lookup original_id i = Some o /\ 0 <= o < n) /\
    (forall i j o,
       lookup original_id i = Some o -> lookup original_id j = Some o ->
       i = j) /\
    (forall o, 0 <= o < n ->
       exists i, 0 <= i < n /\ lookup original_id i = Some o).
Proof.
  intros Hv. destruct (new_spec T sort_inplace sort_ok _ _ _ Hv)
    as [index [Hnew Hb]].
  exists index. split; [exact Hnew|].
  split; [eapply built_filter_sorted; exact Hb|].
  destruct Hv as (_ & _ & _ & _ & Hfdata & Hn & _).
  cbv zeta. rewrite (built_decoding _ _ _ _ _ Hb). rewrite <- Hfdata.
  set (fv := data filter_values).
  pose proof (decoding_size sort_inplace sort_ok fv) as Hsize.
  split; [apply decoding_perm; exact sort_ok|]. split; [|split].
  - intros i Hi.
    destruct (lookup_in_range (decoding_of sort_inplace fv) i) as [o Ho];
      [lia|].
    exists o. split; [exact Ho|].
    apply (decoding_range sort_inplace sort_ok fv). eapply lookup_In; exact Ho.
  - intros i j o. apply NoDup_lookup_inj. apply decoding_NoDup.
  - intros o Ho.
    assert (Hin : In o (decoding_of sort_inplace fv)).
    { eapply Permutation_in; [apply decoding_perm; exact sort_ok|].
      apply zrange_In. exact Ho. }
    destruct (In_lookup _ _ Hin) as [i Hi]. exists i. split; [|exact Hi].
    apply lookup_Some_range in Hi. lia.
Qed.

(** A point with a strictly smaller filter value comes first in the sorted
    order, whatever the sort does with ties. *)
Lemma decoding_strict_order (fv : list FilterType) (pi pj i j : Z) :
  lookup (decoding_of sort_inplace fv) pi = Some i ->
  lookup (decoding_of sort_inplace fv) pj = Some j ->
  (get0 fv i < get0 fv j)%Q -> pi < pj.
Proof.
  intros Hi Hj Hlt.
  destruct (Z_lt_le_dec pi pj) as [Hok|Hge]; [exact Hok|exfalso].
  destruct (Z.eq_dec pi pj) as [->|Hne].
  - rewrite Hi in Hj. injection Hj as <-. apply (Qlt_irrefl _ Hlt).
  - assert (Hji : filter_less fv i j = false).
    { apply (StronglySorted_lookup _ _ (decoding_sorted fv) pj pi j i);
        auto. lia. }
    apply Qltb_false_iff in Hji. apply (Qlt_not_le _ _ Hlt Hji).
Qed.

(** The build orders the points by filter value: whenever the filter value
    of input point [i] is strictly smaller than that of input point [j],
    point [i] stands before point [j] in the sorted order.  The order among
    points with equal filter values is whatever the sort produces. *)
Lemma build_orders_by_filter (points : array_t T)
    (filter_values : array_t FilterType) (cutoff : Z) :
  valid_input T points filter_values cutoff ->
  exists index,
    RangeFilterTreeIndex_new T sort_inplace points filter_values cutoff
      = ([], Ok index) /\
    forall pi pj i j,
      lookup (_sorted_index_to_original_point_id T index) pi = Some i ->
      lookup (_sorted_index_to_original_point_id T index) pj = Some j ->
      (get0 (data filter_values) i < get0 (data filter_values) j)%Q ->
      pi < pj.
Proof.
  intros Hv. destruct (new_spec T sort_inplace sort_ok _ _ _ Hv)
    as [index [Hnew Hb]].
  exists index. split; [exact Hnew|].
  rewrite (built_decoding _ _ _ _ _ Hb). apply decoding_strict_order.
Qed.

(** C3 (amended).  The level widths are [cutoff * 2^j] for [j = 0 .. m-1],
    where the built levels are exactly those whose width is below [2n]:
    every built width is below [2n], the next width [cutoff * 2^m] is at
    least [2n], and when a level exists the largest one satisfies
    [n <= w_(m-1) < 2n]. *)
Theorem pyramid_shape (points : array_t T)
    (filter_values : array_t FilterType) (cutoff : Z) :
  valid_input T points filter_values cutoff ->
  exists index m,
    RangeFilterTreeIndex_new T sort_inplace points filter_values cutoff
      = ([], Ok index) /\
    let n := nth 0 (shape points) 0 in
    0 <= m /\
    _bucket_sizes T index = map (fun j => cutoff * 2 ^ j) (zrange 0 m) /\
    (forall j, 0 <= j < m -> cutoff * 2 ^ j < 2 * n) /\
    2 * n <= cutoff * 2 ^ m /\
    (1 <= m -> n <= cutoff * 2 ^ (m - 1) < 2 * n).
Proof.
  intros Hv. destruct (new_spec T sort_inplace sort_ok _ _ _ Hv)
    as [index [Hnew Hb]].
  destruct Hv as (_ & _ & _ & _ & Hfdata & Hn & _ & Hcut).
  destruct (built_levels _ _ _ _ _ Hb) as [levels [[Hgeo [Hall Hstop]] [Hsz _]]].
  exists index, (size levels). split; [exact Hnew|]. cbv zeta.
  rewrite <- Hfdata. set (n := size (data filter_values)) in *.
  assert (Hbelow : forall j, 0 <= j < size levels -> cutoff * 2 ^ j < 2 * n).
  { intros j Hj.
    destruct (lookup_in_range levels j Hj) as [lv Hlv].
    assert (Hfst : lookup (map fst levels) j = Some (fst lv)).
    { exact (eq_trans (lookup_map fst levels j)
                      (f_equal (option_map fst) Hlv)). }
    rewrite <- (Hgeo _ _ Hfst).
    rewrite Forall_forall in Hall.
    apply (Hall lv (lookup_In _ _ _ Hlv)). }
  split; [apply size_nonneg|]. split; [|split; [exact Hbelow|split]].
  - rewrite Hsz.
    replace (size levels) with (size (map fst levels))
      by (unfold size; rewrite length_map; reflexivity).
    apply lookup_tabulate. exact Hgeo.
  - exact Hstop.
  - intros Hm. split; [|apply Hbelow; lia].
    replace (size levels) with (Z.succ (size levels - 1)) in Hstop by lia.
    rewrite Z.pow_succ_r in Hstop by lia. lia.
Qed.

End SortedLayout.

(** ** Loops over the levels *)

Lemma zrange_cons (lo hi : Z) : lo < hi -> zrange lo hi = lo :: zrange (lo + 1) hi.
Proof.
  intros H. unfold zrange.
  replace (Z.to_nat (hi - lo)) with (S (Z.to_nat (hi - (lo + 1)))) by lia.
  cbn [seq map]. f_equal; [lia|].
  rewrite <- seq_shift, map_map. apply map_ext. intros a. lia.
Qed.

Lemma combine_zrange_In {A} (l : list A) (k j : Z) (w : A) :
  In (j, w) (combine (zrange k (k + size l)) l) -> lookup l (j - k) = Some w.
Proof.
  revert k. induction l as [|x l IH]; intros k.
  { intros H. rewrite combine_nil in H. destruct H. }
  rewrite size_cons.
  rewrite zrange_cons by (pose proof (size_nonneg l); lia).
  cbn [combine]. intros [H|H].
  - injection H as <- <-. rewrite Z.sub_diag. reflexivity.
  - replace (k + (size l + 1)) with (k + 1 + size l) in H by lia.
    pose proof (IH (k + 1) H) as Hl.
    pose proof (lookup_Some_range _ _ _ Hl) as Hr.
    rewrite lookup_cons.
    destruct (Z.eqb_spec (j - k) 0); [lia|].
    replace (j - k - 1) with (j - (k + 1)) by lia. exact Hl.
Qed.

Lemma indexed_In {A} (l : list A) (j : Z) (w : A) :
  In (j, w) (indexed l) -> lookup l j = Some w.
Proof.
  unfold indexed. intros H.
  rewrite <- (Z.sub_0_r j). apply combine_zrange_In. exact H.
Qed.

Lemma fold_left_invariant {A B} (P : A -> Prop) (f : A -> B -> A)
    (l : list B) (a : A) :
  P a -> (forall a b, In b l -> P a -> P (f a b)) -> P (fold_left f l a).
Proof.
  revert a. induction l as [|b l IH]; intros a Ha Hf; simpl; [exact Ha|].
  apply IH.
  - apply Hf; [left; reflexivity|exact Ha].
  - intros a' b' Hb'. apply Hf. right. exact Hb'.
Qed.

Lemma first_some_In {A B} (f : A -> option B) (l : list A) (b : B) :
  first_some f l = Some b -> exists x, In x l /\ f x = Some b.
Proof.
  induction l as [|x l IH]; simpl; [discriminate|].
  destruct (f x) eqn:E.
  - intros [= <-]. exists x. auto.
  - intros H. destruct (IH H) as [x' [? ?]]. exists x'. auto.
Qed.

(** The bucket count of a level covers every bucket that starts below [n]. *)
Lemma bucket_below_count (n w b : Z) :
  1 <= w -> 0 <= b -> b * w < n -> b < (n + w - 1) / w.
Proof.
  intros Hw Hb Hlt.
  assert ((b + 1) <= (n + w - 1) / w); [|lia].
  apply Z.div_le_lower_bound; nia.
Qed.

(** ** Queries on a built index *)

Section Queries.

Variable T : Type.
Variable distance : Point T -> Point T -> float32.
Variable sort_inplace : forall A : Type, (A -> A -> bool) -> list A -> list A.
Variable index_query :
  SpatialIndex T -> Point T -> FilterRange -> QueryParams -> list pid.
Hypothesis sort_ok : sort_contract sort_inplace.

Variable fv : list FilterType.
Variable cutoff : Z.
Variable index : RangeFilterTreeIndex T.
Hypothesis index_built : built T sort_inplace fv cutoff index.
Hypothesis n_bound : 1 <= size fv < 2 ^ 31.
Hypothesis cutoff_bound : 1 <= cutoff < 2 ^ 31.

Let n : Z := size fv.
Let fvs : list FilterType := _filter_values T index.
Let sizes : list size_t := _bucket_sizes T index.

Lemma fvs_size : size fvs = n.
Proof.
  unfold fvs. rewrite (built_filter _ _ _ _ _ index_built), size_map.
  apply decoding_size. exact sort_ok.
Qed.

Lemma sizes_range (j : Z) (w : size_t) :
  lookup sizes j = Some w -> 1 <= w < 2 * n.
Proof.
  unfold sizes. intros H.
  destruct (built_levels _ _ _ _ _ index_built) as [levels [[_ [Hall _]] [Hsz _]]].
  rewrite Hsz in H. apply lookup_In in H. apply in_map_iff in H as [lv [<- Hin]].
  rewrite Forall_forall in Hall. apply (Hall lv Hin).
Qed.

Lemma level_buckets (j : Z) (w : size_t) :
  lookup sizes j = Some w ->
  exists level, lookup (_spatial_indices T index) j = Some level /\
                size level = (n + w - 1) / w.
Proof.
  unfold sizes. intros H.
  destruct (built_levels _ _ _ _ _ index_built)
    as [levels [[_ [Hall _]] [Hsz Hsp]]].
  rewrite Hsz in H. rewrite Hsp.
  pose proof (eq_trans (eq_sym (lookup_map fst levels j)) H) as Hl.
  unfold Level in *.
  destruct (lookup levels j) as [lv|] eqn:E; [|discriminate].
  simpl in Hl. injection Hl as Hw.
  exists (map snd (snd lv)). split.
  - exact (eq_trans (lookup_map _ levels j)
                    (f_equal (option_map _) E)).
  - rewrite Forall_forall in Hall.
    destruct (Hall lv (lookup_In _ _ _ E)) as [Hr Hs].
    apply (f_equal size) in Hs. rewrite size_map in Hs.
    rewrite size_map. etransitivity; [exact Hs|].
    subst w. unfold num_buckets_of. fold n.
    rewrite zrange_size; [apply Z.sub_0_r|]. apply Z.div_pos; lia.
Qed.

Lemma query_bucket_ok (j b : Z) (w : size_t) :
  lookup sizes j = Some w -> 0 <= b -> b * w < n ->
  exists sub, forall query range qp,
    query_bucket T index_query index j b query range qp
    = ([EvQuery j b range qp], Ok (index_query sub query range qp)).
Proof.
  intros Hj Hb Hlt.
  destruct (level_buckets j w Hj) as [level [Hlevel Hsize]].
  pose proof (sizes_range j w Hj) as Hw.
  destruct (lookup_in_range level b) as [sub Hsub].
  { rewrite Hsize. split; [exact Hb|]. apply bucket_below_count; lia. }
  exists sub. intros query range qp. unfold query_bucket, at_.
  rewrite Hlevel. cbn [lift]. rewrite bind_ret.
  rewrite Hsub. reflexivity.
Qed.

Lemma first_greater_than_ok (x : FilterType) :
  exists s, first_greater_than fvs x = Some s /\ 1 <= s <= n.
Proof.
  pose proof fvs_size as Hs.
  destruct (boundary_top (fun v => Qltb x v) fvs) as [r [Hr [Hb _]]];
    [lia|].
  exists r. split; [exact Hr|lia].
Qed.

Lemma first_greater_than_or_equal_to_ok (x : FilterType) :
  exists e, first_greater_than_or_equal_to fvs x = Some e /\ 1 <= e <= n.
Proof.
  pose proof fvs_size as Hs.
  destruct (boundary_top (fun v => Qle_bool x v) fvs) as [r [Hr [Hb _]]];
    [lia|].
  exists r. split; [exact Hr|lia].
Qed.

Lemma check_empty_ok (range : FilterRange) :
  exists front back,
    hd_error fvs = Some front /\ last_error fvs = Some back /\
    check_empty T index range
    = (if Qltb (snd range) front || Qltb back (fst range)
       then [EvOutsideRange front back range] else [],
       Ok (Qltb (snd range) front || Qltb back (fst range))).
Proof.
  pose proof fvs_size as Hs. unfold check_empty. fold fvs.
  destruct fvs as [|front rest] eqn:E.
  - unfold size in Hs. simpl in Hs. lia.
  - exists front, (last rest front). split; [reflexivity|]. split; [reflexivity|].
    cbn [hd_error last_error lift]. rewrite !bind_ret.
    destruct (Qltb (snd range) front || Qltb (last rest front) (fst range));
      reflexivity.
Qed.

(** *** The plan of [fenwick_tree_search] stays in bounds *)

Section Window.

Variables s e : size_t.
Hypothesis s_range : 0 <= s <= n.
Hypothesis e_range : 0 <= e <= n.

Lemma seed_level_ok (j : Z) (w : size_t) (p : Plan) :
  lookup sizes j = Some w -> plan_ok sizes n s e p ->
  plan_ok sizes n s e (seed_level s e j w p).
Proof.
  intros Hj Hp. pose proof (sizes_range j w Hj) as Hw.
  unfold seed_level. apply fold_left_invariant; [exact Hp|].
  intros p' b Hb [Hlr Hall]. apply zrange_In in Hb.
  assert (Hb0 : 0 <= b).
  { assert (0 <= s / w) by (apply Z.div_pos; lia). lia. }
  assert (Hbe : b * w + w <= e).
  { pose proof (Z.mul_div_le e w ltac:(lia)). nia. }
  rewrite (sz_small (b * w)) by (rewrite two64_eq; nia).
  rewrite (sz_small (b * w + w)) by (rewrite two64_eq; nia).
  destruct ((s <=? b * w) && (b * w + w <=? e)) eqn:C; [|split; assumption].
  apply andb_prop in C as [C1 C2]. apply Z.leb_le in C1, C2.
  split; cbn [last_range indices_to_search fst snd].
  - right. lia.
  - apply Forall_app. split; [exact Hall|]. constructor; [|constructor].
    exists w. cbn [fst snd]. rewrite Z.div_mul by lia.
    split; [exact Hj|]. split; [exact Hb0|]. lia.
Qed.

Lemma plan_level_ok (j : Z) (w : size_t) (p : Plan) :
  lookup sizes j = Some w -> plan_ok sizes n s e p ->
  plan_ok sizes n s e (plan_level s e p (j, w)).
Proof.
  intros Hj Hp. pose proof (sizes_range j w Hj) as Hw.
  unfold plan_level.
  set (p1 := if unset (last_range p) then seed_level s e j w p else p).
  assert (Hp1 : plan_ok sizes n s e p1).
  { subst p1. destruct (unset (last_range p)); [|exact Hp].
    apply seed_level_ok; assumption. }
  clearbody p1. destruct (unset (last_range p1)) eqn:U; [exact Hp1|].
  destruct Hp1 as [[Hu|Hlr] Hall]; [congruence|].
  destruct (last_range p1) as [first second] eqn:Elr. cbn [fst snd] in *.
  rewrite (sz_small (first - s)) by (rewrite two64_eq; lia).
  rewrite (sz_small (e - second)) by (rewrite two64_eq; lia).
  set (p2 := if w <? first - s then _ else p1).
  assert (Hp2 : (s <= fst (last_range p2) /\
                 fst (last_range p2) <= snd (last_range p2) /\
                 snd (last_range p2) = second) /\
                Forall (bucket_ok sizes n) (indices_to_search p2)).
  { subst p2. destruct (Z.ltb_spec w (first - s)) as [Hl|Hl].
    - rewrite (sz_small (first - w)) by (rewrite two64_eq; lia).
      cbn [last_range indices_to_search fst snd]. split; [lia|].
      apply Forall_app. split; [exact Hall|]. constructor; [|constructor].
      exists w. cbn [fst snd]. split; [exact Hj|].
      pose proof (Z.mul_div_le (first - w) w ltac:(lia)).
      split; [apply Z.div_pos; lia|lia].
    - rewrite Elr. cbn [fst snd]. split; [lia|exact Hall]. }
  clearbody p2. destruct Hp2 as [[H1 [H2 H3]] Hall2].
  destruct (Z.ltb_spec w (e - second)) as [Hr|Hr].
  - rewrite H3. rewrite (sz_small (second + w)) by (rewrite two64_eq; lia).
    split; cbn [last_range indices_to_search fst snd].
    + right. lia.
    + apply Forall_app. split; [exact Hall2|]. constructor; [|constructor].
      exists w. cbn [fst snd]. split; [exact Hj|].
      pose proof (Z.mul_div_le second w ltac:(lia)).
      split; [apply Z.div_pos; lia|lia].
  - split; [right; lia|exact Hall2].
Qed.

Lemma fenwick_plan_ok : plan_ok sizes n s e (fenwick_plan sizes s e).
Proof.
  unfold fenwick_plan. apply fold_left_invariant.
  - split; [left; reflexivity|constructor].
  - intros p [j w] Hin Hp. apply plan_level_ok; [|exact Hp].
    apply indexed_In. apply in_rev. exact Hin.
Qed.

Lemma brute_force_ok (query : Point T) (lo hi : size_t) :
  0 <= lo -> hi <= n ->
  exists r, outcome (brute_force T distance index query lo hi) = Ok r.
Proof.
  intros Hlo Hhi. unfold brute_force.
  destruct (mapM_outcome_ok
              (fun i => p <- idx (_points T index) i ;;
                        ret (i, distance p query)) (zrange lo hi))
    as [r [Hr _]].
  - intros i Hi. apply zrange_In in Hi.
    destruct (idx_in_range (_points T index) i) as [v [Hv _]].
    { rewrite (built_points _ _ _ _ _ index_built). fold n. lia. }
    rewrite Hv, (bind_ok _ _ _ eq_refl). eexists. reflexivity.
  - exists r. exact Hr.
Qed.

End Window.

Lemma sort_and_cut_sorted (frontier : list pid) (knn : size_t) :
  StronglySorted by_distance (sort_and_cut sort_inplace frontier knn).
Proof.
  unfold sort_and_cut. apply StronglySorted_firstn.
  apply (proj2 (sort_ok pid _ frontier)). apply float_less_swo.
Qed.

Lemma fenwick_tree_search_ok (query : Point T) (range : FilterRange)
    (qp : QueryParams) :
  exists r,
    outcome (fenwick_tree_search T distance sort_inplace index_query index
               query range qp) = Ok r /\
    StronglySorted by_distance r.
Proof.
  destruct (check_empty_ok range) as [front [back [_ [_ Hce]]]].
  unfold fenwick_tree_search.
  rewrite (outcome_bind_ok _ _ _ (f_equal snd Hce)).
  destruct (Qltb (snd range) front || Qltb back (fst range)).
  { exists []. split; [reflexivity|constructor]. }
  destruct (first_greater_than_ok (fst range)) as [s [Hs Hsr]].
  destruct (first_greater_than_or_equal_to_ok (snd range)) as [e [He Her]].
  fold fvs. rewrite Hs, He. cbn [lift]. rewrite !bind_ret.
  fold sizes.
  pose proof (fenwick_plan_ok s e ltac:(lia) ltac:(lia)) as [Hlr Hall].
  set (p := fenwick_plan sizes s e) in *.
  destruct (mapM_outcome_ok
              (fun index_pair : Z * size_t =>
                 query_bucket T index_query index (fst index_pair)
                   (snd index_pair) query range qp)
              (indices_to_search p)) as [searched [Hsearched _]].
  { intros b Hb. rewrite Forall_forall in Hall.
    destruct (Hall b Hb) as [w [Hw [Hb0 Hbn]]].
    destruct (query_bucket_ok (fst b) (snd b) w Hw Hb0 Hbn) as [sub Hsub].
    rewrite Hsub. eexists. reflexivity. }
  rewrite (outcome_bind_ok _ _ _ Hsearched).
  destruct (mapM_outcome_ok
              (fun r : size_t * size_t =>
                 brute_force T distance index query (fst r) (snd r))
              (residue_ranges p s e)) as [residues [Hresidues _]].
  { intros r Hr. unfold residue_ranges in Hr.
    destruct (unset (last_range p)) eqn:U.
    - destruct Hr as [<-|[]]. apply brute_force_ok; cbn [fst snd]; lia.
    - destruct Hlr as [Hu|Hlr]; [congruence|].
      destruct Hr as [<-|[<-|[]]]; apply brute_force_ok; cbn [fst snd]; lia. }
  rewrite (outcome_bind_ok _ _ _ Hresidues).
  eexists. split; [reflexivity|]. apply sort_and_cut_sorted.
Qed.

(** *** optimized_postfiltering_search *)

(** Either the search returns (a sorted sequence, when the SubIndex answers
    are sorted), or the pyramid has no level and the search fails. *)
Lemma optimized_postfiltering_search_cases (query : Point T)
    (range : FilterRange) (qp : QueryParams) :
  (exists r,
     outcome (optimized_postfiltering_search T distance sort_inplace
                index_query index query range qp) = Ok r /\
     (index_sorted T index_query -> StronglySorted by_distance r)) \/
  (sizes = [] /\
   exists err,
     outcome (optimized_postfiltering_search T distance sort_inplace
                index_query index query range qp) = Err err).
Proof.
  destruct (check_empty_ok range) as [front [back [_ [_ Hce]]]].
  unfold optimized_postfiltering_search.
  rewrite (outcome_bind_ok _ _ _ (f_equal snd Hce)).
  destruct (Qltb (snd range) front || Qltb back (fst range)).
  { left. exists []. split; [reflexivity|constructor]. }
  destruct (first_greater_than_ok (fst range)) as [s [Hs Hsr]].
  destruct (first_greater_than_or_equal_to_ok (snd range)) as [e [He Her]].
  fold fvs. rewrite Hs, He. cbn [lift]. rewrite !bind_ret.
  assert (Hfen : exists r,
            outcome (fenwick_tree_search T distance sort_inplace index_query
                       index query range qp) = Ok r /\
            (index_sorted T index_query -> StronglySorted by_distance r)).
  { destruct (fenwick_tree_search_ok query range qp) as [r [Hr Hsorted]].
    exists r. auto. }
  destruct (sz (4 * sz (e - s)) <? sz (_cutoff T index)); [left; exact Hfen|].
  fold sizes.
  assert (Hdirect : forall j b w,
            lookup sizes j = Some w -> 0 <= b -> b * w < n ->
            exists r,
              outcome (query_bucket T index_query index j b query range qp)
              = Ok r /\ (index_sorted T index_query -> StronglySorted by_distance r)).
  { intros j b w Hj Hb Hbn.
    destruct (query_bucket_ok j b w Hj Hb Hbn) as [sub Hsub].
    rewrite Hsub. eexists. split; [reflexivity|]. intros Hi. apply Hi. }
  destruct (containing_level sizes s e) as [[j w]|] eqn:Ec.
  - unfold containing_level in Ec. apply find_some in Ec as [Hin Hc].
    apply indexed_In in Hin. cbn [snd] in Hc. apply Z.eqb_eq in Hc.
    pose proof (sizes_range j w Hin) as Hw.
    rewrite (sz_small (e - 1)) in Hc by (rewrite two64_eq; lia).
    assert (Hkey : outcome
              ((if verbose qp then emit (EvVerbose s e w (s / w)) else ret tt)
               ;;; ret (j, s / w)) = Ok (j, s / w)).
    { destruct (verbose qp); reflexivity. }
    rewrite (outcome_bind_ok _ _ _ Hkey). cbn [fst snd].
    unfold idx at 1. rewrite Hin. cbn [lift]. rewrite bind_ret.
    assert (Hb : 0 <= s / w /\ s / w * w < n).
    { split; [apply Z.div_pos; lia|]. rewrite Hc.
      pose proof (Z.mul_div_le (e - 1) w ltac:(lia)). lia. }
    left. destruct (min_query_to_bucket_ratio qp) as [ratio|].
    + destruct (float_gtb _ ratio); [exact Hfen|].
      apply (Hdirect j (s / w) w); tauto.
    + apply (Hdirect j (s / w) w); tauto.
  - rewrite bind_ret. cbn [fst snd].
    destruct sizes as [|w0 rest] eqn:Es.
    + right. split; [reflexivity|]. exists undefined_behaviour. reflexivity.
    + left. unfold idx at 1. cbn [lookup Z.ltb Z.compare Z.to_nat nth_error lift].
      rewrite bind_ret.
      assert (H0 : lookup sizes 0 = Some w0) by (rewrite Es; reflexivity).
      pose proof (sizes_range 0 w0 H0) as Hw.
      rewrite <- Es in *.
      destruct (min_query_to_bucket_ratio qp) as [ratio|].
      * destruct (float_gtb _ ratio); [exact Hfen|].
        apply (Hdirect 0 0 w0); auto; lia.
      * apply (Hdirect 0 0 w0); auto; lia.
Qed.

Lemma optimized_postfiltering_search_ok (query : Point T)
    (range : FilterRange) (qp : QueryParams) :
  sizes <> [] ->
  exists r,
    outcome (optimized_postfiltering_search T distance sort_inplace
               index_query index query range qp) = Ok r.
Proof.
  intros Hne.
  destruct (optimized_postfiltering_search_cases query range qp)
    as [[r [Hr _]]|[Hnil _]]; [eauto|contradiction].
Qed.

(** *** three_split_search *)

(** What the scan for the center returns is a bucket of the pyramid lying
    inside the window. *)
Lemma find_center_spec (s e : size_t) (j : Z) (b : size_t) :
  0 <= s <= n -> 0 <= e <= n ->
  find_center sizes n s e = Some (j, b) ->
  exists w, lookup sizes j = Some w /\ 0 <= b /\
            s <= b * w /\ b * w + w <= e.
Proof.
  intros Hs He Hf. unfold find_center in Hf.
  apply first_some_In in Hf as [[j' w] [Hin Hc]].
  apply in_rev in Hin. apply indexed_In in Hin.
  pose proof (sizes_range j' w Hin) as Hw.
  unfold center_in_level in Hc.
  destruct (find _ _) as [b'|] eqn:Ef; [|discriminate].
  injection Hc as <- <-. apply find_some in Ef as [Hb Hcond].
  apply zrange_In in Hb.
  assert (Hb0 : 0 <= b').
  { assert (0 <= s / w) by (apply Z.div_pos; lia). lia. }
  assert (Hbe : b' * w + w <= e).
  { pose proof (Z.mul_div_le e w ltac:(lia)). nia. }
  rewrite (sz_small (b' * w)) in Hcond by (rewrite two64_eq; nia).
  apply andb_prop in Hcond as [C1 _]. apply Z.leb_le in C1.
  exists w. auto.
Qed.

Lemma three_split_search_ok (query : Point T) (range : FilterRange)
    (qp : QueryParams) :
  exists r,
    outcome (three_split_search T distance sort_inplace index_query index
               query range qp) = Ok r /\
    StronglySorted by_distance r.
Proof.
  unfold three_split_search.
  destruct (first_greater_than_ok (fst range)) as [s [Hs Hsr]].
  destruct (first_greater_than_or_equal_to_ok (snd range)) as [e [He Her]].
  fold fvs. rewrite Hs, He. cbn [lift]. rewrite !bind_ret.
  rewrite (built_points _ _ _ _ _ index_built). fold n sizes.
  destruct (find_center sizes n s e) as [[j b]|] eqn:Ec;
    [|apply fenwick_tree_search_ok].
  destruct (find_center_spec s e j b ltac:(lia) ltac:(lia) Ec)
    as [w [Hj [Hb0 [Hlo Hhi]]]].
  pose proof (sizes_range j w Hj) as Hw.
  assert (Hne : sizes <> []).
  { intros Hnil. rewrite Hnil in Hj. unfold lookup in Hj.
    destruct (j <? 0); [discriminate|]. destruct (Z.to_nat j); discriminate. }
  destruct (query_bucket_ok j b w Hj Hb0 ltac:(lia)) as [sub Hsub].
  rewrite Hsub. rewrite outcome_bind_pair.
  unfold idx at 1. rewrite Hj. cbn [lift]. rewrite bind_ret.
  rewrite (sz_small (b * w)) by (rewrite two64_eq; nia).
  rewrite (sz_small (b * w + w)) by (rewrite two64_eq; nia).
  rewrite (Z.min_l (b * w + w) n) by lia.
  rewrite (sz_small (b * w - s)) by (rewrite two64_eq; lia).
  rewrite (sz_small (e - (b * w + w))) by (rewrite two64_eq; lia).
  match goal with
  | |- context [bind (if 0 <? b * w - s then ?m else _) _] =>
      assert (Hleft : exists l,
                outcome (if 0 <? b * w - s then m else ret []) = Ok l)
  end.
  { destruct (0 <? b * w - s); [|exists []; reflexivity].
    destruct (idx_in_range fvs (b * w)) as [v [Hv _]].
    { rewrite fvs_size. lia. }
    rewrite Hv, (bind_ok _ _ _ eq_refl).
    apply optimized_postfiltering_search_ok. exact Hne. }
  destruct Hleft as [l Hl]. rewrite (outcome_bind_ok _ _ _ Hl).
  match goal with
  | |- context [bind (if 0 <? e - (b * w + w) then ?m else _) _] =>
      assert (Hright : exists l,
                outcome (if 0 <? e - (b * w + w) then m else ret []) = Ok l)
  end.
  { destruct (Z.ltb_spec 0 (e - (b * w + w))); [|exists []; reflexivity].
    destruct (idx_in_range fvs (b * w + w)) as [v [Hv _]].
    { rewrite fvs_size. lia. }
    rewrite Hv, (bind_ok _ _ _ eq_refl).
    apply optimized_postfiltering_search_ok. exact Hne. }
  destruct Hright as [r Hr]. rewrite (outcome_bind_ok _ _ _ Hr).
  eexists. split; [reflexivity|]. apply sort_and_cut_sorted.
Qed.

(** *** Queries outside the range of the index *)

Lemma front_is_least (front : FilterType) :
  hd_error fvs = Some front -> forall v, In v fvs -> (front <= v)%Q.
Proof.
  pose proof (built_filter_sorted T sort_inplace sort_ok _ _ _ index_built)
    as Hsorted.
  fold fvs in Hsorted. intros Hhd v Hv.
  destruct Hsorted as [|x l Hs Hx]; [destruct Hv|].
  injection Hhd as <-. destruct Hv as [<-|Hv]; [apply Qle_refl|].
  rewrite Forall_forall in Hx. apply Hx. exact Hv.
Qed.

Lemma last_cons {A} (l : list A) (x y : A) : last (y :: l) x = last l y.
Proof.
  revert x y. induction l as [|z l IH]; intros x y; [reflexivity|].
  change (last (y :: z :: l) x) with (last (z :: l) x).
  rewrite (IH x z), (IH y z). reflexivity.
Qed.

Lemma last_is_greatest (l : list FilterType) (x : FilterType) :
  StronglySorted Qle (x :: l) ->
  forall v, In v (x :: l) -> (v <= last l x)%Q.
Proof.
  revert x. induction l as [|y l IH]; intros x Hs v Hv.
  - destruct Hv as [<-|[]]. apply Qle_refl.
  - inversion Hs as [|? ? Hs' Hx]; subst.
    rewrite last_cons.
    destruct Hv as [<-|Hv]; [|apply IH; assumption].
    eapply Qle_trans; [|apply (IH y Hs' y); left; reflexivity].
    rewrite Forall_forall in Hx. apply Hx. left. reflexivity.
Qed.

Lemma back_is_greatest (back : FilterType) :
  last_error fvs = Some back -> forall v, In v fvs -> (v <= back)%Q.
Proof.
  pose proof (built_filter_sorted T sort_inplace sort_ok _ _ _ index_built)
    as Hsorted.
  fold fvs in Hsorted. intros Hl v Hv.
  destruct fvs as [|x l]; [destruct Hv|].
  injection Hl as <-. apply last_is_greatest; assumption.
Qed.

(** Outside the index range the window has [exclusive_end = 1] or
    [inclusive_start = n]. *)
Lemma outside_window (range : FilterRange) (front back : FilterType) :
  hd_error fvs = Some front -> last_error fvs = Some back ->
  (snd range < front \/ back < fst range)%Q ->
  exists s e,
    first_greater_than fvs (fst range) = Some s /\
    first_greater_than_or_equal_to fvs (snd range) = Some e /\
    1 <= s <= n /\ 1 <= e <= n /\ (e = 1 \/ s = n).
Proof.
  intros Hf Hb Hout. pose proof fvs_size as Hsz.
  destruct (first_greater_than_ok (fst range)) as [s [Hs Hsr]].
  destruct (first_greater_than_or_equal_to_ok (snd range)) as [e [He Her]].
  exists s, e. repeat (split; [assumption || lia|]).
  destruct Hout as [Hlow|Hhigh].
  - left.
    assert (Hone : first_greater_than_or_equal_to fvs (snd range) = Some 1).
    { apply first_greater_than_or_equal_to_all; [lia|].
      intros v Hv. apply Qlt_le_weak. eapply Qlt_le_trans; [exact Hlow|].
      apply front_is_least; assumption. }
    congruence.
  - right.
    assert (Hall : first_greater_than fvs (fst range) = Some (size fvs)).
    { apply first_greater_than_none; [lia|].
      intros v Hv. apply Qlt_le_weak. eapply Qle_lt_trans; [|exact Hhigh].
      apply back_is_greatest; assumption. }
    congruence.
Qed.

Lemma find_center_none (s e : size_t) :
  1 <= s <= n -> 1 <= e <= n -> e = 1 \/ s = n ->
  find_center sizes n s e = None.
Proof.
  intros Hs He Hcase.
  destruct (find_center sizes n s e) as [[j b]|] eqn:Ec; [|reflexivity].
  destruct (find_center_spec s e j b ltac:(lia) ltac:(lia) Ec)
    as [w [Hj [Hb0 [Hlo Hhi]]]].
  pose proof (sizes_range j w Hj). exfalso. nia.
Qed.

(** Every strategy answers such a query with the diagnostic and an empty
    result. *)
Lemma outside_range_searches (query : Point T) (range : FilterRange)
    (qp : QueryParams) (front back : FilterType) :
  hd_error fvs = Some front -> last_error fvs = Some back ->
  (snd range < front \/ back < fst range)%Q ->
  fenwick_tree_search T distance sort_inplace index_query index query range qp
    = ([EvOutsideRange front back range], Ok []) /\
  optimized_postfiltering_search T distance sort_inplace index_query index
    query range qp = ([EvOutsideRange front back range], Ok []) /\
  three_split_search T distance sort_inplace index_query index query range qp
    = ([EvOutsideRange front back range], Ok []).
Proof.
  intros Hf Hb Hout.
  destruct (check_empty_ok range) as [front' [back' [Hf' [Hb' Hce]]]].
  assert (front' = front) by congruence. assert (back' = back) by congruence.
  subst front' back'.
  assert (Hempty : Qltb (snd range) front || Qltb back (fst range) = true).
  { apply orb_true_iff. destruct Hout as [H|H]; [left|right];
      apply Qltb_true_iff; exact H. }
  rewrite Hempty in Hce.
  assert (Hfen : fenwick_tree_search T distance sort_inplace index_query index
                   query range qp = ([EvOutsideRange front back range], Ok [])).
  { unfold fenwick_tree_search. rewrite Hce. reflexivity. }
  split; [exact Hfen|]. split.
  - unfold optimized_postfiltering_search. rewrite Hce. reflexivity.
  - destruct (outside_window range front back Hf Hb Hout)
      as [s [e [Hs [He [Hsr [Her Hcase]]]]]].
    unfold three_split_search. fold fvs. rewrite Hs, He. cbn [lift].
    rewrite !bind_ret. rewrite (built_points _ _ _ _ _ index_built).
    fold n sizes. rewrite (find_center_none s e Hsr Her Hcase). exact Hfen.
Qed.

(** *** The SubIndex queries issued by [three_split_search] *)

Lemma three_split_search_no_center (query : Point T) (range : FilterRange)
    (qp : QueryParams) (s e : size_t) :
  first_greater_than fvs (fst range) = Some s ->
  first_greater_than_or_equal_to fvs (snd range) = Some e ->
  find_center sizes (size (_points T index)) s e = None ->
  three_split_search T distance sort_inplace index_query index query range qp
  = fenwick_tree_search T distance sort_inplace index_query index query
      range qp.
Proof.
  intros Hs He Ec. unfold three_split_search. fold fvs sizes.
  rewrite Hs, He. cbn [lift]. rewrite !bind_ret. rewrite Ec. reflexivity.
Qed.

Lemma three_split_search_trace (query : Point T) (range : FilterRange)
    (qp : QueryParams) (s e : size_t) (j : Z) (b : size_t) :
  first_greater_than fvs (fst range) = Some s ->
  first_greater_than_or_equal_to fvs (snd range) = Some e ->
  find_center sizes (size (_points T index)) s e = Some (j, b) ->
  exists w,
    lookup sizes j = Some w /\
    trace (three_split_search T distance sort_inplace index_query index
             query range qp)
    = EvQuery j b range (center_params qp)
        :: recursive_call T distance sort_inplace index_query index query qp
             (if s <? b * w then Some (fst range, get0 fvs (b * w))
              else None)
        ++ recursive_call T distance sort_inplace index_query index query qp
             (if b * w + w <? e then Some (get0 fvs (b * w + w), snd range)
              else None).
Proof.
  intros Hs He Ec.
  destruct (first_greater_than_ok (fst range)) as [s' [Hs' Hsr]].
  destruct (first_greater_than_or_equal_to_ok (snd range)) as [e' [He' Her]].
  rewrite Hs in Hs'. injection Hs' as <-.
  rewrite He in He'. injection He' as <-.
  unfold three_split_search. fold fvs sizes.
  rewrite Hs, He. cbn [lift]. rewrite !bind_ret. rewrite Ec.
  rewrite (built_points _ _ _ _ _ index_built) in Ec |- *. fold n in Ec |- *.
  destruct (find_center_spec s e j b ltac:(lia) ltac:(lia) Ec)
    as [w [Hj [Hb0 [Hlo Hhi]]]].
  pose proof (sizes_range j w Hj) as Hw.
  assert (Hne : sizes <> []).
  { intros Hnil. rewrite Hnil in Hj. unfold lookup in Hj.
    destruct (j <? 0); [discriminate|]. destruct (Z.to_nat j); discriminate. }
  exists w. split; [exact Hj|].
  destruct (query_bucket_ok j b w Hj Hb0 ltac:(lia)) as [sub Hsub].
  rewrite Hsub. rewrite trace_bind. cbn [trace outcome fst snd].
  unfold idx at 1. rewrite Hj. cbn [lift]. rewrite bind_ret.
  rewrite (sz_small (b * w)) by (rewrite two64_eq; nia).
  rewrite (sz_small (b * w + w)) by (rewrite two64_eq; nia).
  rewrite (Z.min_l (b * w + w) n) by lia.
  rewrite (sz_small (b * w - s)) by (rewrite two64_eq; lia).
  rewrite (sz_small (e - (b * w + w))) by (rewrite two64_eq; lia).
  match goal with
  | |- context [bind (if 0 <? b * w - s then ?m else _) _] =>
      assert (Hleft : exists l,
                trace (if 0 <? b * w - s then m else ret [])
                = recursive_call T distance sort_inplace index_query index
                    query qp
                    (if s <? b * w then Some (fst range, get0 fvs (b * w))
                     else None) /\
                outcome (if 0 <? b * w - s then m else ret []) = Ok l)
  end.
  { destruct (Z.ltb_spec 0 (b * w - s)); destruct (Z.ltb_spec s (b * w));
      try lia; [|exists []; split; reflexivity].
    rewrite (bind_ok _ _ _ (idx_nth fvs (b * w) 0%Q
                              ltac:(rewrite fvs_size; lia))).
    fold (get0 fvs (b * w)).
    destruct (optimized_postfiltering_search_ok query
                (fst range, get0 fvs (b * w)) qp Hne) as [l Hl].
    exists l. split; [reflexivity|exact Hl]. }
  destruct Hleft as [l [Htl Hol]].
  match goal with
  | |- context [bind (if 0 <? e - (b * w + w) then ?m else _) _] =>
      assert (Hright : exists r,
                trace (if 0 <? e - (b * w + w) then m else ret [])
                = recursive_call T distance sort_inplace index_query index
                    query qp
                    (if b * w + w <? e
                     then Some (get0 fvs (b * w + w), snd range)
                     else None) /\
                outcome (if 0 <? e - (b * w + w) then m else ret []) = Ok r)
  end.
  { destruct (Z.ltb_spec 0 (e - (b * w + w)));
      destruct (Z.ltb_spec (b * w + w) e);
      try lia; [|exists []; split; reflexivity].
    rewrite (bind_ok _ _ _ (idx_nth fvs (b * w + w) 0%Q
                              ltac:(rewrite fvs_size; lia))).
    fold (get0 fvs (b * w + w)).
    destruct (optimized_postfiltering_search_ok query
                (get0 fvs (b * w + w), snd range) qp Hne) as [r Hr].
    exists r. split; [reflexivity|exact Hr]. }
  destruct Hright as [r [Htr Hor]].
  rewrite trace_bind, Htl, Hol. rewrite trace_bind, Htr, Hor.
  cbn [trace ret fst]. rewrite app_nil_r. reflexivity.
Qed.

End Queries.

Lemma bind_ret_r {A} (m : M A) : bind m (fun a => ret a) = m.
Proof.
  destruct m as [t [a|err]]; [|reflexivity].
  cbn [bind ret]. rewrite app_nil_r. reflexivity.
Qed.

(** While [knn] fits the [int] counter the row is written entry by entry
    up to [knn]. *)
Lemma output_row_in_range (T : Type) (index : RangeFilterTreeIndex T)
    (results : list pid) (knn : size_t) :
  knn < 2 ^ 31 ->
  output_row T index results knn
  = mapM (fun j =>
            if j <? size results then
              r <- idx results j ;;
              id <- at_ (_sorted_index_to_original_point_id T index)
                      (sz (fst r)) ;;
              ret (u32 id, snd r)
            else ret (0, FLT_MAX))
         (zrange 0 knn).
Proof.
  intros Hk. unfold output_row. rewrite Z.min_l by lia.
  destruct (Z.leb_spec (2 ^ 31) knn); [lia|]. apply bind_ret_r.
Qed.

(** From [knn = 2^31] on the counter overflows before the loop ends and no
    row is returned. *)
Lemma output_row_overflow (T : Type) (index : RangeFilterTreeIndex T)
    (results : list pid) (knn : size_t) :
  2 ^ 31 <= knn ->
  exists err, outcome (output_row T index results knn) = Err err.
Proof.
  intros Hk. unfold output_row.
  destruct (Z.leb_spec (2 ^ 31) knn); [|lia].
  match goal with |- context [bind ?m _] => destruct m as [t [row|err]] end.
  - exists undefined_behaviour. reflexivity.
  - exists err. reflexivity.
Qed.

(** The row written for a query without results is all padding. *)
Lemma output_row_empty (T : Type) (index : RangeFilterTreeIndex T)
    (knn : size_t) :
  knn < 2 ^ 31 ->
  output_row T index [] knn
  = ([], Ok (map (fun _ => (0, FLT_MAX)) (zrange 0 knn))).
Proof.
  intros Hk. rewrite output_row_in_range by exact Hk.
  apply mapM_pure. intros j Hj. apply zrange_In in Hj.
  change (size (@nil pid)) with 0.
  destruct (Z.ltb_spec j 0); [lia|reflexivity].
Qed.

(** ** The parameters carried by SubIndex queries *)

Lemma Forall_trace_bind {A B} (P : Event -> Prop) (m : M A) (f : A -> M B) :
  Forall P (trace m) ->
  (forall a, outcome m = Ok a -> Forall P (trace (f a))) ->
  Forall P (trace (bind m f)).
Proof.
  intros Hm Hf. rewrite trace_bind. apply Forall_app. split; [exact Hm|].
  destruct (outcome m) as [a|err]; [apply Hf; reflexivity|constructor].
Qed.

Lemma Forall_trace_mapM {A B} (P : Event -> Prop) (f : A -> M B)
    (l : list A) :
  (forall x, In x l -> Forall P (trace (f x))) ->
  Forall P (trace (mapM f l)).
Proof.
  intros H. apply Forall_forall. intros ev Hev.
  apply mapM_trace_In in Hev as [x [Hx Hin]].
  pose proof (H x Hx) as Hall. rewrite Forall_forall in Hall. auto.
Qed.

Lemma trace_lift {A} (e : Exn) (o : option A) : trace (lift e o) = [].
Proof. destruct o; reflexivity. Qed.

Section Carried.

Variable T : Type.
Variable distance : Point T -> Point T -> float32.
Variable sort_inplace : forall A : Type, (A -> A -> bool) -> list A -> list A.
Variable index_query :
  SpatialIndex T -> Point T -> FilterRange -> QueryParams -> list pid.
Variable index : RangeFilterTreeIndex T.
Variable query : Point T.
Variable qp : QueryParams.

Lemma lift_carries {A} (e : Exn) (o : option A) :
  Forall (carries qp) (trace (lift e o)).
Proof. rewrite trace_lift. constructor. Qed.

Lemma check_empty_carries (range : FilterRange) :
  Forall (carries qp) (trace (check_empty T index range)).
Proof.
  unfold check_empty.
  apply Forall_trace_bind; [apply lift_carries|intros front _].
  apply Forall_trace_bind; [apply lift_carries|intros back _].
  apply Forall_trace_bind; [|intros; constructor].
  destruct (_ || _); repeat constructor.
Qed.

Lemma query_bucket_carries (j b : Z) (range : FilterRange) :
  Forall (carries qp)
    (trace (query_bucket T index_query index j b query range qp)).
Proof.
  unfold query_bucket, at_.
  apply Forall_trace_bind; [apply lift_carries|intros level _].
  apply Forall_trace_bind; [apply lift_carries|intros sub _].
  apply Forall_trace_bind; [|intros; constructor].
  repeat constructor.
Qed.

Lemma brute_force_carries (lo hi : size_t) :
  Forall (carries qp) (trace (brute_force T distance index query lo hi)).
Proof.
  unfold brute_force. apply Forall_trace_mapM. intros i _.
  apply Forall_trace_bind; [apply lift_carries|intros; constructor].
Qed.

Lemma fenwick_tree_search_carries (range : FilterRange) :
  Forall (carries qp)
    (trace (fenwick_tree_search T distance sort_inplace index_query index
              query range qp)).
Proof.
  unfold fenwick_tree_search.
  apply Forall_trace_bind; [apply check_empty_carries|intros empty _].
  destruct empty; [constructor|].
  apply Forall_trace_bind; [apply lift_carries|intros s _].
  apply Forall_trace_bind; [apply lift_carries|intros e _].
  apply Forall_trace_bind.
  { apply Forall_trace_mapM. intros; apply query_bucket_carries. }
  intros searched _. apply Forall_trace_bind; [|intros; constructor].
  apply Forall_trace_mapM. intros; apply brute_force_carries.
Qed.

Lemma optimized_postfiltering_search_carries (range : FilterRange) :
  Forall (carries qp)
    (trace (optimized_postfiltering_search T distance sort_inplace
              index_query index query range qp)).
Proof.
  unfold optimized_postfiltering_search.
  apply Forall_trace_bind; [apply check_empty_carries|intros empty _].
  destruct empty; [constructor|].
  apply Forall_trace_bind; [apply lift_carries|intros s _].
  apply Forall_trace_bind; [apply lift_carries|intros e _].
  destruct (_ <? _); [apply fenwick_tree_search_carries|].
  apply Forall_trace_bind.
  { destruct (containing_level _ _ _) as [[j w]|]; [|constructor].
    apply Forall_trace_bind; [|intros; constructor].
    destruct (verbose qp); repeat constructor. }
  intros index_key _.
  apply Forall_trace_bind; [apply lift_carries|intros bucket_size _].
  destruct (min_query_to_bucket_ratio qp) as [ratio|].
  - destruct (float_gtb _ ratio);
      [apply fenwick_tree_search_carries|apply query_bucket_carries].
  - apply query_bucket_carries.
Qed.

End Carried.

(** ** Properties of the three strategies on a built index *)

Section Strategies.

Variable T : Type.
Variable distance : Point T -> Point T -> float32.
Variable sort_inplace : forall A : Type, (A -> A -> bool) -> list A -> list A.
Variable index_query :
  SpatialIndex T -> Point T -> FilterRange -> QueryParams -> list pid.
Hypothesis sort_ok : sort_contract sort_inplace.

Variable points : array_t T.
Variable filter_values : array_t FilterType.
Variable cutoff : Z.
Variable index : RangeFilterTreeIndex T.
Hypothesis input_ok : valid_input T points filter_values cutoff.
Hypothesis index_ok :
  RangeFilterTreeIndex_new T sort_inplace points filter_values cutoff
  = ([], Ok index).

Lemma index_built : built T sort_inplace (data filter_values) cutoff index.
Proof.
  destruct (new_spec T sort_inplace sort_ok _ _ _ input_ok) as [i [Hi Hb]].
  rewrite index_ok in Hi. injection Hi as ->. exact Hb.
Qed.

Lemma input_size : 1 <= size (data filter_values) < 2 ^ 31.
Proof.
  destruct input_ok as (_ & _ & _ & _ & Hfdata & Hn & _). rewrite Hfdata.
  exact Hn.
Qed.

Lemma input_cutoff : 1 <= cutoff < 2 ^ 31.
Proof. destruct input_ok as (_ & _ & _ & _ & _ & _ & _ & Hc). exact Hc. Qed.

(** C6 (amended).  [fenwick_tree_search] and [three_split_search] return,
    and what they return is in ascending (non-decreasing) order of
    distance; [optimized_postfiltering_search] returns such a sequence
    whenever it returns and the SubIndex answers are in ascending order
    themselves.  Nothing orders results of equal distance. *)
Theorem results_sorted_by_distance (query : Point T) (range : FilterRange)
    (qp : QueryParams) :
  (exists r,
     outcome (fenwick_tree_search T distance sort_inplace index_query index
                query range qp) = Ok r /\
     StronglySorted by_distance r) /\
  (exists r,
     outcome (three_split_search T distance sort_inplace index_query index
                query range qp) = Ok r /\
     StronglySorted by_distance r) /\
  (index_sorted T index_query ->
   forall r,
     outcome (optimized_postfiltering_search T distance sort_inplace
                index_query index query range qp) = Ok r ->
     StronglySorted by_distance r).
Proof.
  pose proof index_built as Hb. pose proof input_size as Hn.
  pose proof input_cutoff as Hc.
  split; [|split].
  - eapply fenwick_tree_search_ok; eassumption.
  - eapply three_split_search_ok; eassumption.
  - intros Hsorted r Hr.
    destruct (optimized_postfiltering_search_cases T distance sort_inplace
                index_query sort_ok _ _ _ Hb Hn Hc query range qp)
      as [[r' [Hr' Hs]]|[_ [err Herr]]].
    + rewrite Hr in Hr'. injection Hr' as <-. apply Hs. exact Hsorted.
    + rewrite Hr in Herr. discriminate.
Qed.

(** C8.  Let [s, e) be the window of the range and let the scan for the
    center run on it.  When the scan finds the bucket [b] of level [j], of
    width [w], the first SubIndex query of [three_split_search] goes to
    that bucket with the caller's range and carries a copy of the caller's
    parameters in which [final_beam_multiply] is 1 and the other seven
    forwarded fields are the caller's.  Everything after it is the events
    of the left call of [optimized_postfiltering_search], made when
    [s < b * w] on the range from the caller's lower bound to the filter
    value at [b * w], and then of the right call, made when [b * w + w < e]
    on the range from the filter value at [b * w + w] to the caller's upper
    bound; both are made with the caller's own parameters, and every
    SubIndex query among their events carries exactly these.  When the scan
    finds no bucket the search is [fenwick_tree_search] with the caller's
    parameters.  Parameters are passed by value, so the caller's record is
    never written. *)
Theorem three_split_center_params (query : Point T) (range : FilterRange)
    (qp : QueryParams) :
  let qp_copy := center_params qp in
  let run :=
    three_split_search T distance sort_inplace index_query index query
      range qp in
  let fvs := _filter_values T index in
  (final_beam_multiply qp_copy = 1%Q /\
   k qp_copy = k qp /\ beamSize qp_copy = beamSize qp /\
   cut qp_copy = cut qp /\ limit qp_copy = limit qp /\
   degree_limit qp_copy = degree_limit qp /\
   postfiltering_max_beam qp_copy = postfiltering_max_beam qp /\
   min_query_to_bucket_ratio qp_copy = min_query_to_bucket_ratio qp) /\
  exists s e,
    first_greater_than fvs (fst range) = Some s /\
    first_greater_than_or_equal_to fvs (snd range) = Some e /\
    match find_center (_bucket_sizes T index) (size (_points T index)) s e
    with
    | Some (j, b) =>
        exists w,
          lookup (_bucket_sizes T index) j = Some w /\
          let middle_start := b * w in
          let middle_end := b * w + w in
          let left_range :=
            if s <? middle_start
            then Some (fst range, get0 fvs middle_start) else None in
          let right_range :=
            if middle_end <? e
            then Some (get0 fvs middle_end, snd range) else None in
          let left :=
            recursive_call T distance sort_inplace index_query index query
              qp left_range in
          let right :=
            recursive_call T distance sort_inplace index_query index query
              qp right_range in
          trace run = EvQuery j b range qp_copy :: left ++ right /\
          Forall (carries qp) (left ++ right)
    | None =>
        run = fenwick_tree_search T distance sort_inplace index_query index
                query range qp /\
        Forall (carries qp) (trace run)
    end.
Proof.
  cbv zeta. split; [repeat split|].
  pose proof index_built as Hb. pose proof input_size as Hn.
  pose proof input_cutoff as Hc.
  destruct (first_greater_than_ok T sort_inplace sort_ok _ _ _ Hb Hn
              (fst range)) as [s [Hs _]].
  destruct (first_greater_than_or_equal_to_ok T sort_inplace sort_ok _ _ _
              Hb Hn (snd range)) as [e [He _]].
  exists s, e. split; [exact Hs|]. split; [exact He|].
  destruct (find_center (_bucket_sizes T index) (size (_points T index)) s e)
    as [[j b]|] eqn:Ec.
  - destruct (three_split_search_trace T distance sort_inplace index_query
                sort_ok _ _ _ Hb Hn Hc query range qp s e j b Hs He Ec)
      as [w [Hj Htrace]].
    exists w. split; [exact Hj|]. split; [exact Htrace|].
    apply Forall_app. split.
    + destruct (s <? b * w); [|constructor].
      apply optimized_postfiltering_search_carries.
    + destruct (b * w + w <? e); [|constructor].
      apply optimized_postfiltering_search_carries.
  - rewrite (three_split_search_no_center T distance sort_inplace
               index_query _ query range qp s e Hs He Ec).
    split; [reflexivity|]. apply fenwick_tree_search_carries.
Qed.

(** C9 (amended).  A query whose range lies entirely below the first or
    entirely above the last stored filter value prints the diagnostic,
    raises nothing and returns an empty result under each strategy (the
    index is a value the search only reads); for [k] from 0 up to
    2^31 - 1, the values the [int] counter of the output loop reaches,
    [batch_search] then fills all [k] output slots of the row with id 0 and
    distance [FLT_MAX], the largest finite float. *)
Theorem outside_range_query (query : Point T) (lo hi : FilterType)
    (qp : QueryParams) (query_method : String.string)
    (front back : FilterType) :
  hd_error (_filter_values T index) = Some front ->
  last_error (_filter_values T index) = Some back ->
  (hi < front \/ back < lo)%Q ->
  0 <= k qp < 2 ^ 31 ->
  let diagnostic := [EvOutsideRange front back (lo, hi)] in
  let knn := sz (k qp) in
  fenwick_tree_search T distance sort_inplace index_query index query
    (lo, hi) qp = (diagnostic, Ok []) /\
  optimized_postfiltering_search T distance sort_inplace index_query index
    query (lo, hi) qp = (diagnostic, Ok []) /\
  three_split_search T distance sort_inplace index_query index query
    (lo, hi) qp = (diagnostic, Ok []) /\
  batch_search T distance sort_inplace index_query index [query] [(lo, hi)]
    1 query_method qp
  = (diagnostic,
     Ok ([map (fun _ => 0) (zrange 0 knn)],
         [map (fun _ => FLT_MAX) (zrange 0 knn)])).
Proof.
  intros Hfront Hback Hout Hk. cbv zeta.
  pose proof index_built as Hb. pose proof input_size as Hn.
  pose proof input_cutoff as Hc.
  destruct (outside_range_searches T distance sort_inplace index_query
              sort_ok _ _ _ Hb Hn query (lo, hi) qp front back
              Hfront Hback Hout) as [Hfen [Hopt Hthree]].
  split; [exact Hfen|]. split; [exact Hopt|]. split; [exact Hthree|].
  unfold batch_search. change (zrange 0 1) with [0]. cbn [mapM].
  change (idx [query] 0) with (ret query).
  change (idx [(lo, hi)] 0) with (ret (lo, hi)).
  rewrite !bind_ret.
  assert (Hres :
    (if String.eqb query_method "optimized_postfilter"
     then optimized_postfiltering_search T distance sort_inplace index_query
            index query (lo, hi) qp
     else if String.eqb query_method "three_split"
     then three_split_search T distance sort_inplace index_query index query
            (lo, hi) qp
     else fenwick_tree_search T distance sort_inplace index_query index query
            (lo, hi) qp)
    = ([EvOutsideRange front back (lo, hi)], Ok [])).
  { destruct (String.eqb query_method "optimized_postfilter"); [exact Hopt|].
    destruct (String.eqb query_method "three_split"); assumption. }
  rewrite Hres, bind_pair, output_row_empty
    by (rewrite sz_small by (rewrite two64_eq; lia); lia).
  cbn [trace outcome fst snd].
  rewrite bind_pair, bind_ret. cbn [ret trace outcome fst snd].
  rewrite bind_pair. cbn [ret trace outcome fst snd app map].
  rewrite !map_map. reflexivity.
Qed.

End Strategies.

(** ** Scenarios are valid inputs *)

Module ScenarioFacts.
Import Scenarios.

Lemma valid_scenario (rows : list (list Q)) (values : list Q) (cutoff : Z) :
  size (concat rows) = size rows * size (hd [] rows) ->
  size values = size rows ->
  1 <= size rows < 2 ^ 31 -> 1 <= size (hd [] rows) < 2 ^ 31 ->
  1 <= cutoff < 2 ^ 31 ->
  valid_input Q (points_of rows) (filter_of values) cutoff.
Proof.
  intros H1 H2 H3 H4 H5. unfold valid_input, points_of, filter_of.
  cbn [ndim shape data nth]. repeat split; try assumption; lia.
Qed.

End ScenarioFacts.

(** ** The spans planned by [fenwick_tree_search] *)

Section Coverage.

Variables c m n s e : Z.
Hypothesis c_pos : 1 <= c.
Hypothesis n_small : n < 2 ^ 31.
Hypothesis s_range : 0 <= s <= n.
Hypothesis e_range : 0 <= e <= n.
Hypothesis widths_small : forall j, 0 <= j < m -> width c j < 2 * n.

Lemma width_pos (j : Z) : 0 <= j -> 1 <= width c j.
Proof.
  intros Hj. unfold width.
  assert (0 < 2 ^ j) by (apply Z.pow_pos_nonneg; lia). nia.
Qed.

Lemma width_succ (j : Z) : 0 <= j -> width c (j + 1) = 2 * width c j.
Proof.
  intros Hj. unfold width. rewrite Z.pow_add_r by lia. simpl (2 ^ 1). lia.
Qed.

Lemma unset_false_of_snd (a b : Z) : 1 <= b -> unset (a, b) = false.
Proof.
  intros H. unfold unset. cbn [fst snd].
  destruct (Z.eqb_spec b 0); [lia|]. apply andb_false_r.
Qed.

Lemma unset_false_of_fst (a b : Z) : 1 <= a -> unset (a, b) = false.
Proof.
  intros H. unfold unset. cbn [fst snd].
  destruct (Z.eqb_spec a 0); [lia|]. reflexivity.
Qed.

Lemma seed_level_covering (j : Z) (p : Plan) :
  0 <= j < m -> last_range p = (0, 0) -> indices_to_search p = [] ->
  covering c m s e (width c j) (seed_level s e j (width c j) p).
Proof.
  intros Hj Hlr Hidx. pose proof (width_pos j ltac:(lia)) as Hw.
  pose proof (widths_small j Hj) as Hw2.
  set (w := width c j) in *.
  unfold seed_level. apply fold_left_invariant.
  { split; [rewrite Hidx; constructor|left; auto]. }
  intros p' b Hb [Hall Hcase]. apply zrange_In in Hb.
  assert (Hb0 : 0 <= b).
  { assert (0 <= s / w) by (apply Z.div_pos; lia). lia. }
  assert (Hbe : b * w + w <= e).
  { pose proof (Z.mul_div_le e w ltac:(lia)). nia. }
  rewrite (sz_small (b * w)) by (rewrite two64_eq; nia).
  rewrite (sz_small (b * w + w)) by (rewrite two64_eq; nia).
  destruct ((s <=? b * w) && (b * w + w <=? e)) eqn:C; [|split; assumption].
  apply andb_prop in C as [C1 C2]. apply Z.leb_le in C1, C2.
  rewrite Z.div_mul by lia.
  split; cbn [last_range indices_to_search fst snd].
  - apply Forall_app. split; [exact Hall|]. constructor; [|constructor].
    cbn [fst snd]. fold w. lia.
  - right. split; [apply unset_false_of_snd; lia|].
    repeat (split; [lia|]).
    split; [exists b; reflexivity|]. split; [exists (b + 1); lia|].
    intros i Hi. apply Exists_app. right. constructor.
    unfold span_in. cbn [fst snd]. fold w. lia.
Qed.

Lemma plan_level_covering (j wd : Z) (p : Plan) :
  0 <= j < m -> (width c j | wd) ->
  covering c m s e wd p ->
  covering c m s e (width c j) (plan_level s e p (j, width c j)).
Proof.
  intros Hj Hdiv Hp. pose proof (width_pos j ltac:(lia)) as Hw.
  pose proof (widths_small j Hj) as Hw2.
  unfold plan_level.
  set (w := width c j) in *.
  set (p1 := if unset (last_range p) then seed_level s e j w p else p).
  assert (Hp1 : covering c m s e w p1).
  { subst p1. destruct Hp as [Hall [[Hlr Hidx]|Hset]].
    - rewrite Hlr. change (unset (0, 0)) with true.
      apply seed_level_covering; assumption.
    - destruct Hset as (Hu & H1 & H2 & H3 & D1 & D2 & Hcov).
      rewrite Hu. split; [exact Hall|]. right.
      repeat (split; [assumption|]).
      split; [eapply Z.divide_trans; eassumption|].
      split; [eapply Z.divide_trans; eassumption|exact Hcov]. }
  clearbody p1. destruct (unset (last_range p1)) eqn:U; [exact Hp1|].
  destruct Hp1 as [Hall [[Hlr _]|Hset]].
  { rewrite Hlr in U. discriminate. }
  destruct Hset as (_ & H1 & H2 & H3 & [k1 D1] & [k2 D2] & Hcov).
  destruct (last_range p1) as [first second] eqn:Elr. cbn [fst snd] in *.
  rewrite (sz_small (first - s)) by (rewrite two64_eq; lia).
  rewrite (sz_small (e - second)) by (rewrite two64_eq; lia).
  set (p2 := if w <? first - s then _ else p1).
  assert (Hp2 : exists first',
            last_range p2 = (first', second) /\ s <= first' <= second /\
            unset (first', second) = false /\ (w | first') /\
            Forall (fun b => 0 <= fst b < m /\ s <= snd b * width c (fst b) /\
                      snd b * width c (fst b) + width c (fst b) <= e)
                   (indices_to_search p2) /\
            forall i, first' <= i < second ->
              Exists (fun b => span_in c b i) (indices_to_search p2)).
  { subst p2. destruct (Z.ltb_spec w (first - s)) as [Hl|Hl].
    - rewrite (sz_small (first - w)) by (rewrite two64_eq; lia).
      exists (first - w). cbn [last_range indices_to_search fst snd].
      assert (Hq : (first - w) / w = k1 - 1).
      { rewrite D1. replace (k1 * w - w) with ((k1 - 1) * w) by lia.
        apply Z.div_mul. lia. }
      rewrite Hq.
      split; [reflexivity|]. split; [lia|].
      split; [apply unset_false_of_fst; lia|].
      split; [exists (k1 - 1); lia|]. split.
      + apply Forall_app. split; [exact Hall|]. constructor; [|constructor].
        cbn [fst snd]. fold w. nia.
      + intros i Hi. apply Exists_app.
        destruct (Z_lt_le_dec i first) as [Hlt|Hge].
        * right. constructor. unfold span_in. cbn [fst snd]. fold w. nia.
        * left. apply Hcov. lia.
    - exists first. rewrite Elr. split; [reflexivity|]. split; [lia|].
      split; [exact U|].
      split; [exists k1; exact D1|]. split; [exact Hall|exact Hcov]. }
  clearbody p2. destruct Hp2 as [first' [Elr2 [Hr2 [U2 [Dv [Hall2 Hcov2]]]]]].
  rewrite Elr2. cbn [fst snd].
  destruct (Z.ltb_spec w (e - second)) as [Hr|Hr].
  - rewrite (sz_small (second + w)) by (rewrite two64_eq; lia).
    assert (Hq : second / w = k2).
    { rewrite D2. apply Z.div_mul. lia. }
    rewrite Hq.
    split; cbn [last_range indices_to_search fst snd].
    + apply Forall_app. split; [exact Hall2|]. constructor; [|constructor].
      cbn [fst snd]. fold w. nia.
    + right. split; [apply unset_false_of_snd; lia|].
      repeat (split; [lia|]). split; [exact Dv|].
      split; [exists (k2 + 1); lia|].
      intros i Hi. apply Exists_app.
      destruct (Z_lt_le_dec i second) as [Hlt|Hge].
      * left. apply Hcov2. lia.
      * right. constructor. unfold span_in. cbn [fst snd]. fold w. nia.
  - split; [exact Hall2|]. right. rewrite Elr2. cbn [fst snd].
    split; [exact U2|]. repeat (split; [lia|]). split; [exact Dv|].
    split; [exists k2; exact D2|exact Hcov2].
Qed.

Lemma indexed_snoc {A} (l : list A) (x : A) :
  indexed (l ++ [x]) = indexed l ++ [(size l, x)].
Proof.
  unfold indexed. rewrite size_app. change (size [x]) with 1.
  rewrite zrange_snoc by apply size_nonneg.
  assert (Hlen : length (zrange 0 (size l)) = length l).
  { rewrite zrange_length. unfold size. lia. }
  revert Hlen. generalize (zrange 0 (size l)) as ks. generalize (size l) as k.
  induction l as [|y l IH]; intros k ks Hlen.
  - destruct ks; [reflexivity|discriminate].
  - destruct ks as [|k0 ks]; [discriminate|]. simpl.
    f_equal. apply IH. simpl in Hlen. lia.
Qed.

Lemma widths_succ (k : nat) :
  widths c (S k) = widths c k ++ [width c (Z.of_nat k)].
Proof.
  unfold widths. rewrite Nat2Z.inj_succ. unfold Z.succ.
  rewrite zrange_snoc by lia. rewrite map_app. reflexivity.
Qed.

Lemma widths_size (k : nat) : size (widths c k) = Z.of_nat k.
Proof. unfold widths. rewrite size_map, zrange_size; lia. Qed.

Lemma fenwick_plan_covering (k : nat) :
  Z.of_nat k <= m ->
  forall p wd,
    (width c (Z.of_nat k) | wd) -> covering c m s e wd p ->
    exists wd',
      covering c m s e wd'
        (fold_left (plan_level s e) (rev (indexed (widths c k))) p).
Proof.
  induction k as [|k IH]; intros Hk p wd Hdiv Hp.
  - exists wd. exact Hp.
  - rewrite widths_succ, indexed_snoc, rev_app_distr, widths_size.
    cbn [rev app fold_left].
    apply (IH ltac:(lia) _ (width c (Z.of_nat k))).
    + apply Z.divide_refl.
    + apply (plan_level_covering (Z.of_nat k) wd); [lia| |exact Hp].
      eapply Z.divide_trans; [|exact Hdiv].
      rewrite Nat2Z.inj_succ. unfold Z.succ. rewrite width_succ by lia.
      exists 2. lia.
Qed.

(** The spans planned by [fenwick_tree_search] cover the window and nothing
    else. *)
Lemma fenwick_plan_union (k : nat) (i : Z) :
  Z.of_nat k = m ->
  let p := fenwick_plan (widths c k) s e in
  Exists (fun r => covers r i = true) (planned_spans (widths c k) n p s e)
  <-> s <= i < e.
Proof.
  intros Hk p.
  destruct (fenwick_plan_covering k ltac:(lia) (mkPlan (0, 0) []) 0)
    as [wd [Hall Hcase]].
  { apply Z.divide_0_r. }
  { split; [constructor|left; auto]. }
  fold (fenwick_plan (widths c k) s e) in Hall, Hcase. fold p in Hall, Hcase.
  assert (Hspan : forall b, 0 <= fst b < m ->
            s <= snd b * width c (fst b) ->
            snd b * width c (fst b) + width c (fst b) <= e ->
            bucket_span (widths c k) n b
            = (snd b * width c (fst b),
               snd b * width c (fst b) + width c (fst b))).
  { intros b Hb Hlo Hhi. unfold bucket_span.
    assert (Hw : nth (Z.to_nat (fst b)) (widths c k) 0 = width c (fst b)).
    { unfold widths.
      rewrite (nth_indep _ 0 (width c 0))
        by (rewrite length_map, zrange_length; lia).
      rewrite map_nth. f_equal. unfold zrange.
      rewrite (nth_indep _ 0 (0 + Z.of_nat 0))
        by (rewrite length_map, length_seq; lia).
      rewrite (map_nth (fun i0 => 0 + Z.of_nat i0)).
      rewrite seq_nth by lia. lia. }
    cbv zeta. unfold size_t in *. rewrite Hw. f_equal. apply Z.min_l. lia. }
  unfold planned_spans. rewrite Exists_app, Exists_map.
  unfold size_t in *. split.
  - intros [Hb|Hr].
    + rewrite Exists_exists in Hb. destruct Hb as [b [Hin Hc]].
      rewrite Forall_forall in Hall. destruct (Hall b Hin) as [Hj [Hlo Hhi]].
      rewrite (Hspan b Hj Hlo Hhi) in Hc. unfold covers in Hc. cbn [fst snd] in Hc.
      apply andb_prop in Hc as [C1 C2].
      apply Z.leb_le in C1. apply Z.ltb_lt in C2. unfold size_t in *. lia.
    + unfold residue_ranges in Hr.
      destruct Hcase as [[Hlr _]|(Hu & H1 & H2 & H3 & _)].
      * rewrite Hlr in Hr. change (unset (0, 0)) with true in Hr.
        apply Exists_cons in Hr as [Hc|Hc]; [|inversion Hc].
        unfold covers in Hc. cbn [fst snd] in Hc.
        apply andb_prop in Hc as [C1 C2].
        apply Z.leb_le in C1. apply Z.ltb_lt in C2. unfold size_t in *. lia.
      * rewrite Hu in Hr.
        apply Exists_cons in Hr as [Hc|Hr].
        { unfold covers in Hc. cbn [fst snd] in Hc.
          apply andb_prop in Hc as [C1 C2].
          apply Z.leb_le in C1. apply Z.ltb_lt in C2. unfold size_t in *. lia. }
        apply Exists_cons in Hr as [Hc|Hc]; [|inversion Hc].
        unfold covers in Hc. cbn [fst snd] in Hc.
        apply andb_prop in Hc as [C1 C2].
        apply Z.leb_le in C1. apply Z.ltb_lt in C2. unfold size_t in *. lia.
  - intros Hi. unfold residue_ranges.
    destruct Hcase as [[Hlr _]|(Hu & H1 & H2 & H3 & _ & _ & Hcov)].
    + right. rewrite Hlr. change (unset (0, 0)) with true.
      constructor. unfold covers. cbn [fst snd].
      apply andb_true_intro.
        split; [apply Z.leb_le|apply Z.ltb_lt]; unfold size_t in *; lia.
    + rewrite Hu.
      destruct (Z_lt_le_dec i (fst (last_range p))) as [Hlt|Hge].
      { right. constructor. unfold covers. cbn [fst snd].
        apply andb_true_intro.
        split; [apply Z.leb_le|apply Z.ltb_lt]; unfold size_t in *; lia. }
      destruct (Z_lt_le_dec i (snd (last_range p))) as [Hlt2|Hge2].
      * left. unfold size_t in *. specialize (Hcov i ltac:(lia)).
        rewrite Exists_exists in Hcov. destruct Hcov as [b [Hin Hsp]].
        rewrite Exists_exists. exists b. split; [exact Hin|].
        rewrite Forall_forall in Hall. destruct (Hall b Hin) as [Hj [Hlo Hhi]].
        rewrite (Hspan b Hj Hlo Hhi). unfold covers, span_in in *.
        cbn [fst snd].
        apply andb_true_intro.
        split; [apply Z.leb_le|apply Z.ltb_lt]; unfold size_t in *; lia.
      * right. apply Exists_cons_tl. constructor. unfold covers. cbn [fst snd].
        apply andb_true_intro.
        split; [apply Z.leb_le|apply Z.ltb_lt]; unfold size_t in *; lia.
Qed.

End Coverage.

(** The bucket sizes of a built index are the widths [cutoff * 2^j] below
    [2n]. *)
Lemma built_widths (T : Type)
    (sort_inplace : forall A : Type, (A -> A -> bool) -> list A -> list A)
    (fv : list FilterType) (cutoff : Z) (index : RangeFilterTreeIndex T) :
  built T sort_inplace fv cutoff index ->
  exists k,
    _bucket_sizes T index = widths cutoff k /\
    forall j, 0 <= j < Z.of_nat k -> width cutoff j < 2 * size fv.
Proof.
  intros Hb.
  destruct (built_levels _ _ _ _ _ Hb) as [levels [[Hgeo [Hall _]] [Hsz _]]].
  exists (length levels). split.
  - rewrite Hsz. unfold widths.
    replace (Z.of_nat (length levels)) with (size (map fst levels))
      by (unfold size; rewrite length_map; reflexivity).
    apply lookup_tabulate. exact Hgeo.
  - intros j Hj.
    destruct (lookup_in_range levels j Hj) as [lv Hlv].
    assert (Hfst : lookup (map fst levels) j = Some (fst lv)).
    { exact (eq_trans (lookup_map fst levels j)
                      (f_equal (option_map fst) Hlv)). }
    unfold width. rewrite <- (Hgeo _ _ Hfst).
    rewrite Forall_forall in Hall.
    apply (Hall lv (lookup_In _ _ _ Hlv)).
Qed.

(** On a built index the buckets planned by [fenwick_tree_search] and its
    residue ranges together cover exactly the positions of the window
    [s, e). *)
Lemma fenwick_plan_covers_window (T : Type)
    (sort_inplace : forall A : Type, (A -> A -> bool) -> list A -> list A)
    (fv : list FilterType) (cutoff : Z) (index : RangeFilterTreeIndex T)
    (s e i : Z) :
  built T sort_inplace fv cutoff index ->
  1 <= size fv < 2 ^ 31 -> 1 <= cutoff ->
  0 <= s <= size fv -> 0 <= e <= size fv ->
  let sizes := _bucket_sizes T index in
  Exists (fun r => covers r i = true)
    (planned_spans sizes (size fv) (fenwick_plan sizes s e) s e)
  <-> s <= i < e.
Proof.
  intros Hb Hn Hc Hs He. cbv zeta.
  destruct (built_widths T sort_inplace fv cutoff index Hb) as [k [Hk Hw]].
  rewrite Hk.
  apply (fenwick_plan_union cutoff (Z.of_nat k) (size fv) s e); auto; lia.
Qed.

(** ** The scenarios, evaluated *)

Module Checks.
Import Instance InstanceFacts Scenarios ScenarioFacts.

Ltac evaluate := vm_compute; first [reflexivity | discriminate].

Ltac scenario_is_valid :=
  apply valid_scenario; repeat split; evaluate.

Ltac each_strategy :=
  let m := fresh "m" in
  intros m [<-|[<-|[<-|[]]]]; vm_compute; reflexivity.

(** C1.  The plan of [fenwick_tree_search] for eight points with filter
    values 0..7, cutoff 1 and the range [1, 6] (window [2, 6)): both
    width-2 buckets inside the window are planned, a width-1 bucket is then
    added inside the first of them and the residue starts at 2 again, so
    the planned spans do cover the window but positions 2 and 3 are covered
    twice, and the result holds sorted id 3 and sorted id 2 twice. *)
Theorem fenwick_plan_covers_twice :
  build insertion_sort line_rows line_filter 1 = ([], Ok line_index_1) /\
  first_greater_than (_filter_values Q line_index_1) 1%Q = Some 2 /\
  first_greater_than_or_equal_to (_filter_values Q line_index_1) 6%Q
  = Some 6 /\
  let sizes := _bucket_sizes Q line_index_1 in
  let p := fenwick_plan sizes 2 6 in
  let spans := planned_spans sizes 8 p 2 6 in
  indices_to_search p = [(1, 1); (1, 2); (0, 3)] /\
  residue_ranges p 2 6 = [(2, 3); (6, 6)] /\
  spans = [(2, 4); (4, 6); (3, 4); (2, 3); (6, 6)] /\
  map (cover_count spans) [0; 1; 2; 3; 4; 5; 6; 7]
  = [0; 0; 2; 2; 1; 1; 0; 0]%nat /\
  outcome (fenwick_tree_search Q distance insertion_sort index_query
             line_index_1 [3]%Q (1, 6)%Q (qp_of_k 10))
  = Ok [(3, FFinite 0); (3, FFinite 0); (2, FFinite 1); (4, FFinite 1);
        (2, FFinite 1); (5, FFinite 4)].
Proof. repeat split; vm_compute; reflexivity. Qed.

(** C2.  Both boundary helpers return 1, not 0, when the value at sorted
    index 0 already satisfies their test: on the one-element sequence
    [1/2] and on [1, 2, 2, 3]. *)
Theorem boundary_helpers_skip_front :
  (first_greater_than [1 # 2] 0%Q = Some 1 /\ Qltb 0 (1 # 2) = true) /\
  (first_greater_than_or_equal_to [1 # 2] (1 # 2) = Some 1 /\
   Qle_bool (1 # 2) (1 # 2) = true) /\
  (first_greater_than [1; 2; 2; 3]%Q (1 # 2) = Some 1 /\
   Qltb (1 # 2) 1 = true) /\
  (first_greater_than_or_equal_to [1; 2; 2; 3]%Q 1%Q = Some 1 /\
   Qle_bool 1 1 = true).
Proof. repeat split; vm_compute; reflexivity. Qed.

(** C3, refuted as stated: for n = 8 and cutoff = 2 the built widths are
    2, 4, 8, and the largest, 8, is below 2n = 16. *)
Lemma pyramid_top_below_2n :
  build insertion_sort line_rows line_filter 2 = ([], Ok line_index_2) /\
  _bucket_sizes Q line_index_2 = [2; 4; 8] /\
  ~ (2 * 8 <= last (_bucket_sizes Q line_index_2) 0).
Proof.
  split; [evaluate|]. split; [evaluate|].
  change (last (_bucket_sizes Q line_index_2) 0) with 8. lia.
Qed.

Lemma pyramid_shape_witness :
  valid_input Q (points_of line_rows) (filter_of line_filter) 2 /\
  exists index m,
    build insertion_sort line_rows line_filter 2 = ([], Ok index) /\
    0 <= m /\
    _bucket_sizes Q index = map (fun j => 2 * 2 ^ j) (zrange 0 m) /\
    (forall j, 0 <= j < m -> 2 * 2 ^ j < 2 * 8) /\
    2 * 8 <= 2 * 2 ^ m /\
    (1 <= m -> 8 <= 2 * 2 ^ (m - 1) < 2 * 8).
Proof.
  assert (Hv : valid_input Q (points_of line_rows) (filter_of line_filter) 2)
    by scenario_is_valid.
  split; [exact Hv|].
  exact (pyramid_shape Q insertion_sort insertion_sort_contract _ _ _ Hv).
Defined.

(** C4.  One point [1, 0] with filter value 1/2, cutoff 1, query [1, 0],
    range [0, 1], k = 1: the window is [1, 1), hence empty, and under each
    strategy the row is the padding, id 0 with distance [FLT_MAX]; the
    point itself, at distance 0, is not returned. *)
Theorem single_point_scenario :
  build insertion_sort single_rows single_filter 1 = ([], Ok single_index) /\
  first_greater_than (_filter_values Q single_index) 0%Q = Some 1 /\
  first_greater_than_or_equal_to (_filter_values Q single_index) 1%Q
  = Some 1 /\
  (forall m, In m strategies ->
     search insertion_sort single_index [1; 0]%Q (0, 1)%Q m 1
     = ([], Ok ([[0]], [[FLT_MAX]]))) /\
  FLT_MAX <> FFinite 0.
Proof.
  split; [evaluate|]. split; [evaluate|]. split; [evaluate|].
  split; [each_strategy|discriminate].
Qed.

Lemma build_monotone_and_bijective_witness :
  valid_input Q (points_of mixed_rows) (filter_of mixed_filter) 1 /\
  exists index,
    build insertion_sort mixed_rows mixed_filter 1 = ([], Ok index) /\
    StronglySorted Qle (_filter_values Q index) /\
    let original_id := _sorted_index_to_original_point_id Q index in
    Permutation (zrange 0 4) original_id /\
    (forall i, 0 <= i < 4 ->
       exists o, lookup original_id i = Some o /\ 0 <= o < 4) /\
    (forall i j o,
       lookup original_id i = Some o -> lookup original_id j = Some o ->
       i = j) /\
    (forall o, 0 <= o < 4 ->
       exists i, 0 <= i < 4 /\ lookup original_id i = Some o).
Proof.
  assert (Hv : valid_input Q (points_of mixed_rows) (filter_of mixed_filter) 1)
    by scenario_is_valid.
  split; [exact Hv|].
  exact (build_monotone_and_bijective Q insertion_sort insertion_sort_contract
           _ _ _ Hv).
Defined.

(** C6, refuted as stated: input points 1 and 2 are equally far from the
    query and come back as ids 2, 1 under every strategy; with the sort
    that reverses ties the same happens on the input whose filter values
    are already in order. *)
Lemma ties_not_by_original_id :
  build insertion_sort tie_rows tie_filter 1000 = ([], Ok tie_index) /\
  (forall m, In m strategies ->
     search insertion_sort tie_index [0]%Q (0, 5)%Q m 2
     = ([], Ok ([[2; 1]], [[FFinite 1; FFinite 1]]))) /\
  build reversing_sort tie_rows tie_filter' 1000 = ([], Ok tie_index') /\
  (forall m, In m strategies ->
     search reversing_sort tie_index' [0]%Q (0, 5)%Q m 2
     = ([], Ok ([[2; 1]], [[FFinite 1; FFinite 1]]))) /\
  ~ ties_by_original_id [2; 1] [FFinite 1; FFinite 1].
Proof.
  split; [evaluate|]. split; [each_strategy|].
  split; [evaluate|]. split; [each_strategy|].
  intros H.
  specialize (H 0 1 2 1 (FFinite 1) ltac:(lia) eq_refl eq_refl eq_refl eq_refl).
  lia.
Qed.

Lemma results_sorted_by_distance_witness :
  sort_contract insertion_sort /\
  valid_input Q (points_of line_rows) (filter_of line_filter) 1 /\
  build insertion_sort line_rows line_filter 1 = ([], Ok line_index_1) /\
  (exists r,
     outcome (fenwick_tree_search Q distance insertion_sort index_query
                line_index_1 [3]%Q (1, 6)%Q (qp_of_k 10)) = Ok r /\
     StronglySorted by_distance r) /\
  (exists r,
     outcome (three_split_search Q distance insertion_sort index_query
                line_index_1 [3]%Q (1, 6)%Q (qp_of_k 10)) = Ok r /\
     StronglySorted by_distance r) /\
  (index_sorted Q index_query ->
   forall r,
     outcome (optimized_postfiltering_search Q distance insertion_sort
                index_query line_index_1 [3]%Q (1, 6)%Q (qp_of_k 10)) = Ok r ->
     StronglySorted by_distance r).
Proof.
  assert (Hv : valid_input Q (points_of line_rows) (filter_of line_filter) 1)
    by scenario_is_valid.
  assert (Hi : build insertion_sort line_rows line_filter 1
               = ([], Ok line_index_1)) by evaluate.
  split; [exact insertion_sort_contract|]. split; [exact Hv|].
  split; [exact Hi|].
  exact (results_sorted_by_distance Q distance insertion_sort index_query
           insertion_sort_contract _ _ _ _ Hv Hi [3]%Q (1, 6)%Q (qp_of_k 10)).
Defined.

(** The contract of [parlay::sort_inplace] leaves the order of equal
    filter values open.  On two points with the same filter value the build
    with insertion sort keeps the input order, and the build with a sort
    that meets the same contract and reverses ties puts input point 1
    before input point 0. *)
Lemma tie_order_is_left_to_the_sort :
  sort_contract insertion_sort /\ sort_contract reversing_sort /\
  _sorted_index_to_original_point_id Q
    (the_index (build insertion_sort twin_rows twin_filter 1)) = [0; 1] /\
  build reversing_sort twin_rows twin_filter 1 = ([], Ok twin_index) /\
  _sorted_index_to_original_point_id Q twin_index = [1; 0] /\
  ~ stable_layout twin_filter [1; 0].
Proof.
  split; [exact insertion_sort_contract|].
  split; [exact reversing_sort_contract|]. split; [evaluate|].
  split; [evaluate|]. split; [evaluate|]. intros H.
  specialize (H 0 1 1 0 ltac:(lia) ltac:(reflexivity) eq_refl eq_refl). lia.
Qed.

(** The order by filter value on four points, two of them with equal
    filter values. *)
Lemma build_orders_by_filter_on_mixed :
  valid_input Q (points_of mixed_rows) (filter_of mixed_filter) 1 /\
  exists index,
    build insertion_sort mixed_rows mixed_filter 1 = ([], Ok index) /\
    forall pi pj i j,
      lookup (_sorted_index_to_original_point_id Q index) pi = Some i ->
      lookup (_sorted_index_to_original_point_id Q index) pj = Some j ->
      (get0 mixed_filter i < get0 mixed_filter j)%Q ->
      pi < pj.
Proof.
  assert (Hv : valid_input Q (points_of mixed_rows) (filter_of mixed_filter) 1)
    by scenario_is_valid.
  split; [exact Hv|].
  exact (build_orders_by_filter Q insertion_sort insertion_sort_contract
           _ _ _ Hv).
Qed.

Lemma three_split_center_params_witness :
  sort_contract insertion_sort /\
  valid_input Q (points_of line_rows) (filter_of line_filter) 1 /\
  build insertion_sort line_rows line_filter 1 = ([], Ok line_index_1) /\
  let qp := wide_params in
  let range := (0, 7)%Q in
  let qp_copy := center_params qp in
  let run :=
    three_split_search Q distance insertion_sort index_query line_index_1
      [3]%Q range qp in
  let fvs := _filter_values Q line_index_1 in
  (final_beam_multiply qp_copy = 1%Q /\
   k qp_copy = k qp /\ beamSize qp_copy = beamSize qp /\
   cut qp_copy = cut qp /\ limit qp_copy = limit qp /\
   degree_limit qp_copy = degree_limit qp /\
   postfiltering_max_beam qp_copy = postfiltering_max_beam qp /\
   min_query_to_bucket_ratio qp_copy = min_query_to_bucket_ratio qp) /\
  exists s e,
    first_greater_than fvs (fst range) = Some s /\
    first_greater_than_or_equal_to fvs (snd range) = Some e /\
    match find_center (_bucket_sizes Q line_index_1)
            (size (_points Q line_index_1)) s e
    with
    | Some (j, b) =>
        exists w,
          lookup (_bucket_sizes Q line_index_1) j = Some w /\
          let middle_start := b * w in
          let middle_end := b * w + w in
          let left_range :=
            if s <? middle_start
            then Some (fst range, get0 fvs middle_start) else None in
          let right_range :=
            if middle_end <? e
            then Some (get0 fvs middle_end, snd range) else None in
          let left :=
            recursive_call Q distance insertion_sort index_query line_index_1
              [3]%Q qp left_range in
          let right :=
            recursive_call Q distance insertion_sort index_query line_index_1
              [3]%Q qp right_range in
          trace run = EvQuery j b range qp_copy :: left ++ right /\
          Forall (carries qp) (left ++ right)
    | None =>
        run = fenwick_tree_search Q distance insertion_sort index_query
                line_index_1 [3]%Q range qp /\
        Forall (carries qp) (trace run)
    end.
Proof.
  assert (Hv : valid_input Q (points_of line_rows) (filter_of line_filter) 1)
    by scenario_is_valid.
  assert (Hi : build insertion_sort line_rows line_filter 1
               = ([], Ok line_index_1)) by evaluate.
  split; [exact insertion_sort_contract|]. split; [exact Hv|].
  split; [exact Hi|].
  exact (three_split_center_params Q distance insertion_sort index_query
           insertion_sort_contract _ _ _ _ Hv Hi [3]%Q (0, 7)%Q wide_params).
Defined.

(** On the line with cutoff 1 and the range (0, 7) the window is [1, 7)
    and the scan finds bucket 1 of level 1, of width 2.  The center query
    carries the copy with [final_beam_multiply] 1; the left call runs on
    the range (0, 2) and the right call on the range (4, 7), and the
    queries they issue carry the caller's parameters, whose
    [final_beam_multiply] is 3. *)
Lemma three_split_on_the_line :
  first_greater_than (_filter_values Q line_index_1) 0%Q = Some 1 /\
  first_greater_than_or_equal_to (_filter_values Q line_index_1) 7%Q
  = Some 7 /\
  find_center (_bucket_sizes Q line_index_1) (size (_points Q line_index_1))
    1 7 = Some (1, 1) /\
  lookup (_bucket_sizes Q line_index_1) 1 = Some 2 /\
  get0 (_filter_values Q line_index_1) 2 = 2%Q /\
  get0 (_filter_values Q line_index_1) 4 = 4%Q /\
  final_beam_multiply wide_params = 3%Q /\
  final_beam_multiply (center_params wide_params) = 1%Q /\
  trace (three_split_search Q distance insertion_sort index_query
           line_index_1 [3]%Q (0, 7)%Q wide_params)
  = [EvQuery 1 1 (0, 7)%Q (center_params wide_params);
     EvVerbose 1 2 1 1;
     EvQuery 0 1 (0, 2)%Q wide_params;
     EvVerbose 5 7 4 1;
     EvQuery 2 1 (4, 7)%Q wide_params].
Proof. repeat split; evaluate. Qed.

(** C9, refuted as stated: filter values 1, 2, 3 and the range [10, 20]
    with k = 2 give, under every strategy, the diagnostic and the row of
    ids 0, 0 with distances [FLT_MAX], [FLT_MAX]; [FLT_MAX] is a finite
    float, not positive infinity. *)
Lemma padding_is_not_infinity :
  build insertion_sort three_rows three_filter 1 = ([], Ok three_index) /\
  (forall m, In m strategies ->
     search insertion_sort three_index [0]%Q (10, 20)%Q m 2
     = ([EvOutsideRange 1%Q 3%Q (10, 20)%Q],
        Ok ([[0; 0]], [[FLT_MAX; FLT_MAX]]))) /\
  FLT_MAX <> FInfinity /\
  [[FLT_MAX; FLT_MAX]] <> [[FInfinity; FInfinity]].
Proof.
  split; [evaluate|]. split; [each_strategy|]. split; discriminate.
Qed.

Lemma outside_range_query_witness :
  sort_contract insertion_sort /\
  valid_input Q (points_of three_rows) (filter_of three_filter) 1 /\
  build insertion_sort three_rows three_filter 1 = ([], Ok three_index) /\
  hd_error (_filter_values Q three_index) = Some 1%Q /\
  last_error (_filter_values Q three_index) = Some 3%Q /\
  (20 < 1 \/ 3 < 10)%Q /\
  0 <= k (qp_of_k 2) < 2 ^ 31 /\
  let diagnostic := [EvOutsideRange 1%Q 3%Q (10, 20)%Q] in
  let knn := sz (k (qp_of_k 2)) in
  fenwick_tree_search Q distance insertion_sort index_query three_index
    [0]%Q (10, 20)%Q (qp_of_k 2) = (diagnostic, Ok []) /\
  optimized_postfiltering_search Q distance insertion_sort index_query
    three_index [0]%Q (10, 20)%Q (qp_of_k 2) = (diagnostic, Ok []) /\
  three_split_search Q distance insertion_sort index_query three_index
    [0]%Q (10, 20)%Q (qp_of_k 2) = (diagnostic, Ok []) /\
  batch_search Q distance insertion_sort index_query three_index [[0]%Q]
    [(10, 20)%Q] 1 "three_split"%string (qp_of_k 2)
  = (diagnostic,
     Ok ([map (fun _ => 0) (zrange 0 knn)],
         [map (fun _ => FLT_MAX) (zrange 0 knn)])).
Proof.
  assert (Hv : valid_input Q (points_of three_rows) (filter_of three_filter) 1)
    by scenario_is_valid.
  assert (Hi : build insertion_sort three_rows three_filter 1
               = ([], Ok three_index)) by evaluate.
  assert (Hf : hd_error (_filter_values Q three_index) = Some 1%Q)
    by reflexivity.
  assert (Hb : last_error (_filter_values Q three_index) = Some 3%Q)
    by reflexivity.
  assert (Ho : (20 < 1 \/ 3 < 10)%Q) by (right; reflexivity).
  assert (Hk : 0 <= k (qp_of_k 2) < 2 ^ 31) by (split; evaluate).
  split; [exact insertion_sort_contract|]. split; [exact Hv|].
  split; [exact Hi|]. split; [exact Hf|]. split; [exact Hb|].
  split; [exact Ho|]. split; [exact Hk|].
  exact (outside_range_query Q distance insertion_sort index_query
           insertion_sort_contract _ _ _ _ Hv Hi [0]%Q 10%Q 20%Q (qp_of_k 2)
           "three_split"%string 1%Q 3%Q Hf Hb Ho Hk).
Defined.

(** C10.  Four points with filter values 1..4 and cutoff 8: the pyramid
    has no level, the range [1, 4] passes the emptiness check with the
    window [1, 3), four times its size is not below the cutoff, the level
    scan finds nothing, and [_bucket_sizes[0]] is read from an empty
    vector. *)
Theorem optimized_postfilter_without_levels :
  build insertion_sort four_rows four_filter 8 = ([], Ok four_index) /\
  _bucket_sizes Q four_index = [] /\
  outcome (check_empty Q four_index (1, 4)%Q) = Ok false /\
  first_greater_than (_filter_values Q four_index) 1%Q = Some 1 /\
  first_greater_than_or_equal_to (_filter_values Q four_index) 4%Q
  = Some 3 /\
  containing_level (_bucket_sizes Q four_index) 1 3 = None /\
  outcome (optimized_postfiltering_search Q distance insertion_sort
             index_query four_index [3]%Q (1, 4)%Q (qp_of_k 10))
  = Err undefined_behaviour /\
  outcome (search insertion_sort four_index [3]%Q (1, 4)%Q
             "optimized_postfilter"%string 10)
  = Err undefined_behaviour.
Proof. repeat split; vm_compute; reflexivity. Qed.

End Checks.

(** * Further properties of the code *)

(** ** Lists and slices *)

Lemma Forall2_lookup {A B} (R : A -> B -> Prop) (l : list A) (l' : list B) :
  Forall2 R l l' ->
  forall i a, lookup l i = Some a -> exists b, lookup l' i = Some b /\ R a b.
Proof.
  intros H. induction H as [|x y l l' Hxy H IH]; intros i a Hi.
  - apply lookup_Some_range in Hi. unfold size in Hi. simpl in Hi. lia.
  - pose proof (lookup_Some_range _ _ _ Hi) as Hr.
    rewrite lookup_cons in Hi. rewrite lookup_cons.
    destruct (Z.eqb_spec i 0) as [->|Hne].
    + injection Hi as <-. eauto.
    + apply IH. exact Hi.
Qed.

Lemma lookup_slice {A} (l : list A) (base len d : Z) :
  0 <= base -> 0 <= d < len ->
  lookup (firstn (Z.to_nat len) (skipn (Z.to_nat base) l)) d
  = lookup l (base + d).
Proof.
  intros Hb Hd. unfold lookup.
  destruct (Z.ltb_spec d 0); [lia|]. destruct (Z.ltb_spec (base + d) 0); [lia|].
  rewrite nth_error_firstn.
  destruct (Nat.ltb_spec (Z.to_nat d) (Z.to_nat len)); [|lia].
  rewrite nth_error_skipn. f_equal. lia.
Qed.

Lemma concat_uniform_length {A} (rows : list (list A)) (dim : nat) :
  Forall (fun r => length r = dim) rows ->
  length (concat rows) = (length rows * dim)%nat.
Proof.
  induction 1 as [|r rows Hr H IH]; simpl; [reflexivity|].
  rewrite length_app, IH, Hr. reflexivity.
Qed.

Lemma concat_uniform_nth {A} (rows : list (list A)) (dim i d : nat) :
  Forall (fun r => length r = dim) rows -> (d < dim)%nat ->
  nth_error (concat rows) (i * dim + d) = nth_error (nth i rows []) d.
Proof.
  intros H Hd. revert i. induction H as [|r rows Hr H IH]; intros i.
  - destruct i; simpl; rewrite !nth_error_nil; reflexivity.
  - destruct i as [|i]; simpl.
    + apply nth_error_app1. lia.
    + rewrite nth_error_app2 by lia.
      replace (dim + i * dim + d - length r)%nat with (i * dim + d)%nat by lia.
      apply IH.
Qed.

(** ** The public constructor hands over to the private one *)

Section Reduction.

Variable T : Type.
Variable sort_inplace : forall A : Type, (A -> A -> bool) -> list A -> list A.
Hypothesis sort_ok : sort_contract sort_inplace.

(** For arrays of the right shape the public constructor gathers the rows
    and the filter values in sorted order and hands them to the private
    constructor; nothing is printed and nothing fails on the way. *)
Lemma new_reduces (points : array_t T) (filter_values : array_t FilterType)
    (cutoff : Z) :
  valid_shape T points filter_values ->
  let fv := data filter_values in
  let sigma := decoding_of sort_inplace fv in
  exists pts,
    RangeFilterTreeIndex_new T sort_inplace points filter_values cutoff
    = RangeFilterTreeIndex_private T pts (map (get0 fv) sigma) sigma cutoff /\
    size pts = size fv /\
    rows_gathered T points sigma pts.
Proof.
  intros (Hnd & Hfd & Hfn & Hdata & Hfdata & Hn & Hdim). cbv zeta.
  unfold RangeFilterTreeIndex_new.
  rewrite Hnd, Hfd, Hfn, !Z.eqb_refl. cbn [negb].
  set (n := nth 0 (shape points) 0) in *.
  set (fv := data filter_values) in *.
  assert (Hfirstn : firstn (Z.to_nat n) fv = fv).
  { apply firstn_all2. unfold size in Hfdata. lia. }
  rewrite Hfirstn.
  change (sort_inplace Z
            (fun i j : Z => Qltb (get0 fv i) (get0 fv j))
            (tabulate n (fun i : Z => i)))
    with (sort_inplace Z (filter_less fv) (tabulate n (fun i : Z => i))).
  rewrite <- Hfdata. fold (decoding_of sort_inplace fv).
  set (sigma := decoding_of sort_inplace fv).
  assert (Hsig : size sigma = size fv) by (apply decoding_size; exact sort_ok).
  unfold rows_gathered.
  set (dimension := nth 1 (shape points) 0) in *.
  match goal with
  | |- context [bind (mapM ?f (zrange 0 (size fv))) _] =>
      destruct (mapM_quiet
                  (fun sid y =>
                     snd y = nth (Z.to_nat sid) sigma 0 /\
                     size (fst y) = dimension /\
                     forall d, 0 <= d < dimension ->
                       lookup (fst y) d
                       = lookup (data points)
                           (nth (Z.to_nat sid) sigma 0 * dimension + d))
                  f (zrange 0 (size fv))) as [sorted [Hsorted Hall]]
  end.
  { intros sid Hsid. apply zrange_In in Hsid.
    rewrite (at_nth sigma sid 0) by lia.
    pose proof (decoding_nth_range sort_inplace sort_ok fv sid Hsid) as Horig.
    fold sigma in Horig. set (orig := nth (Z.to_nat sid) sigma 0) in *.
    match goal with
    | |- context [bind (mapM ?g (zrange 0 dimension)) _] =>
        destruct (mapM_quiet
                    (fun d v => lookup (data points) (orig * dimension + d)
                                = Some v)
                    g (zrange 0 dimension)) as [row [Hrow Hrows]]
    end.
    { intros d Hd. apply zrange_In in Hd.
      rewrite (bind_ok _ _ _ eq_refl).
      assert (Hpos : 0 <= orig * dimension + d < size (data points)).
      { rewrite Hdata. fold n. rewrite <- Hfdata. nia. }
      rewrite sz_small by (rewrite two64_eq; rewrite Hdata in Hpos; nia).
      destruct (idx_in_range (data points) _ Hpos) as [v [Hv Hl]].
      exists v. split; [exact Hv|exact Hl]. }
    rewrite (bind_ok _ _ row Hrow). rewrite (bind_ok _ _ _ eq_refl).
    eexists. split; [reflexivity|]. cbn [fst snd].
    split; [reflexivity|]. split.
    - rewrite (Forall2_length_size _ _ _ Hrows), zrange_size; lia.
    - intros d Hd.
      destruct (Forall2_lookup _ _ _ Hrows d d) as [v [Hv Hdv]].
      { rewrite zrange_lookup by lia; f_equal; lia. }
      rewrite Hv, Hdv. reflexivity. }
  rewrite (bind_ok _ _ sorted Hsorted).
  assert (Hdec : map snd sorted = sigma).
  { rewrite (Forall2_map_eq (fun sid => nth (Z.to_nat sid) sigma 0) snd _ _ _ Hall).
    - rewrite <- Hsig. apply map_nth_zrange.
    - intros sid y Hy. apply Hy. }
  rewrite Hdec.
  rewrite (mapM_pure _ (fun i => get0 fv (nth (Z.to_nat i) sigma 0))).
  2:{ intros i Hi. apply zrange_In in Hi.
      rewrite (at_nth sigma i 0) by lia.
      rewrite (bind_ok _ _ _ eq_refl).
      apply at_nth. apply (decoding_nth_range sort_inplace sort_ok fv i Hi). }
  rewrite (bind_ok _ _ _ eq_refl).
  assert (Hfvs : map (fun i => get0 fv (nth (Z.to_nat i) sigma 0))
                     (zrange 0 (size fv)) = map (get0 fv) sigma).
  { rewrite <- (map_map (fun i => nth (Z.to_nat i) sigma 0) (get0 fv)).
    rewrite <- Hsig. rewrite map_nth_zrange. reflexivity. }
  rewrite Hfvs.
  set (rows := map fst sorted).
  exists (PointRange_of T (concat rows) (size fv) dimension).
  split; [reflexivity|].
  split; [apply PointRange_of_size; apply size_nonneg|].
  assert (Hsz : size sorted = size fv).
  { rewrite (Forall2_length_size _ _ _ Hall), zrange_size;
      [lia|apply size_nonneg]. }
  assert (Huni : Forall (fun r => length r = Z.to_nat dimension) rows).
  { subst rows. rewrite Forall_map. rewrite Forall_forall. intros y Hy.
    destruct (In_lookup _ _ Hy) as [i Hi].
    pose proof (lookup_Some_range _ _ _ Hi) as Hr. rewrite Hsz in Hr.
    assert (Hz : lookup (zrange 0 (size fv)) i = Some i).
    { rewrite zrange_lookup by lia; f_equal; lia. }
    destruct (Forall2_lookup _ _ _ Hall i i Hz) as [y' [Hy' [_ [Hs _]]]].
    rewrite Hi in Hy'. injection Hy' as <-. unfold size in Hs. lia. }
  intros i Hi. rewrite Hsig in Hi.
  assert (Hz : lookup (zrange 0 (size fv)) i = Some i).
  { rewrite zrange_lookup by lia; f_equal; lia. }
  destruct (Forall2_lookup _ _ _ Hall i i Hz) as [y [Hy [Hsnd [Hs Hrow]]]].
  exists (firstn (Z.to_nat dimension)
            (skipn (Z.to_nat (i * dimension)) (concat rows))),
         (nth (Z.to_nat i) sigma 0).
  split.
  { unfold PointRange_of. rewrite lookup_map, Hz. reflexivity. }
  split; [apply lookup_nth; lia|].
  assert (Hrowi : nth (Z.to_nat i) rows [] = fst y).
  { subst rows. 
    assert (Hl : lookup (map fst sorted) i = Some (fst y)).
    { rewrite lookup_map, Hy. reflexivity. }
    rewrite (lookup_nth _ i []) in Hl
      by (rewrite size_map; lia).
    injection Hl as Hl. exact Hl. }
  assert (Hcat : forall d, 0 <= d < dimension ->
            lookup (concat rows) (i * dimension + d) = lookup (fst y) d).
  { intros d Hd. unfold lookup.
    destruct (Z.ltb_spec (i * dimension + d) 0); [nia|].
    destruct (Z.ltb_spec d 0); [lia|].
    rewrite Z2Nat.inj_add by nia. rewrite Z2Nat.inj_mul by lia.
    rewrite (concat_uniform_nth rows (Z.to_nat dimension))
      by (first [exact Huni | lia]).
    rewrite Hrowi. reflexivity. }
  split.
  - unfold size. rewrite length_firstn, length_skipn.
    rewrite (concat_uniform_length rows (Z.to_nat dimension) Huni).
    assert (Hlen : length rows = Z.to_nat (size fv)).
    { subst rows. rewrite length_map. unfold size in *. lia. }
    rewrite Z2Nat.inj_mul by lia.
    assert (Hle : (S (Z.to_nat i) * Z.to_nat dimension
                   <= length rows * Z.to_nat dimension)%nat).
    { apply Nat.mul_le_mono_r. lia. }
    simpl in Hle. lia.
  - intros d Hd. rewrite lookup_slice by (try lia; nia).
    rewrite Hcat by lia. apply Hrow. exact Hd.
Qed.

End Reduction.

(** ** Ranges of positions *)

Lemma lookup_ext {A} (l l' : list A) :
  size l = size l' ->
  (forall i, 0 <= i < size l -> lookup l i = lookup l' i) -> l = l'.
Proof.
  intros Hs H. apply nth_error_ext. intros k.
  destruct (Nat.ltb_spec k (length l)) as [Hlt|Hge].
  - specialize (H (Z.of_nat k)). unfold lookup, size in H.
    destruct (Z.ltb_spec (Z.of_nat k) 0); [lia|].
    rewrite Nat2Z.id in H. apply H. lia.
  - rewrite (proj2 (nth_error_None l k) Hge).
    symmetry. apply nth_error_None. unfold size in Hs. lia.
Qed.

Lemma zrange_shift (c len : Z) :
  map (fun i => i + c) (zrange 0 len) = zrange c (c + len).
Proof.
  unfold zrange. rewrite map_map.
  replace (c + len - c) with (len - 0) by lia.
  apply map_ext. intros a. lia.
Qed.

Lemma map_seq_offset (c : Z) (k s : nat) :
  map (fun i => c + Z.of_nat i) (seq s k)
  = map (fun i => c + Z.of_nat s + Z.of_nat i) (seq 0 k).
Proof.
  revert s. induction k as [|k IH]; intros s; [reflexivity|].
  cbn [seq map]. f_equal; [lia|].
  rewrite (IH (S s)), <- seq_shift, map_map.
  apply map_ext. intros a. lia.
Qed.

Lemma zrange_app (lo mid hi : Z) :
  lo <= mid <= hi -> zrange lo hi = zrange lo mid ++ zrange mid hi.
Proof.
  intros H. unfold zrange.
  replace (Z.to_nat (hi - lo))
    with (Z.to_nat (mid - lo) + Z.to_nat (hi - mid))%nat by lia.
  rewrite seq_app, map_app. f_equal.
  rewrite map_seq_offset. apply map_ext. intros a. lia.
Qed.

Lemma slice_as_map (l : list FilterType) (start len : Z) :
  0 <= start -> 0 <= len -> start + len <= size l ->
  firstn (Z.to_nat len) (skipn (Z.to_nat start) l)
  = map (get0 l) (zrange start (start + len)).
Proof.
  intros Hs Hl Hb.
  assert (Hsize : size (firstn (Z.to_nat len) (skipn (Z.to_nat start) l))
                  = len).
  { unfold size in *. rewrite length_firstn, length_skipn. lia. }
  apply lookup_ext.
  - rewrite Hsize, size_map, zrange_size; lia.
  - intros i Hi. rewrite Hsize in Hi.
    rewrite lookup_slice by lia. rewrite lookup_map, zrange_lookup by lia.
    cbn [option_map]. unfold get0. apply lookup_nth. lia.
Qed.

(** ** What the private constructor stores *)

Section Private.

Variable T : Type.

Lemma private_spec (pts : PointRange T) (fvs : list FilterType)
    (dec : list size_t) (cutoff : Z) :
  1 <= size pts < 2 ^ 62 -> 1 <= sz cutoff ->
  exists index levels,
    RangeFilterTreeIndex_private T pts fvs dec cutoff = ([], Ok index) /\
    assembled T index levels /\
    _points T index = pts /\ _filter_values T index = fvs /\
    _sorted_index_to_original_point_id T index = dec /\
    _cutoff T index = cutoff.
Proof.
  intros Hn Hc. unfold RangeFilterTreeIndex_private.
  destruct (build_levels_spec T pts fvs (size pts) Hn 64 (sz cutoff))
    as [levels [Hlevels Hshape]].
  { pose proof (sz_range cutoff). lia. }
  { change (2 ^ Z.of_nat 64) with 18446744073709551616. lia. }
  rewrite (bind_ok _ _ levels Hlevels).
  eexists. exists levels. split; [reflexivity|].
  unfold assembled. cbn. auto 10.
Qed.

(** A cutoff that is not below [2n] as a [size_t] builds no level. *)
Lemma private_no_level (pts : PointRange T) (fvs : list FilterType)
    (dec : list size_t) (cutoff : Z) :
  sz (2 * size pts) <= sz cutoff ->
  RangeFilterTreeIndex_private T pts fvs dec cutoff
  = ([], Ok (mkIndex T [] [] [] dec fvs cutoff pts)).
Proof.
  intros H. unfold RangeFilterTreeIndex_private.
  cbn [build_levels].
  destruct (Z.ltb_spec (sz cutoff) (sz (2 * size pts))); [lia|].
  reflexivity.
Qed.

(** A zero cutoff over at least one point divides by zero. *)
Lemma private_zero_cutoff (pts : PointRange T) (fvs : list FilterType)
    (dec : list size_t) (cutoff : Z) :
  1 <= size pts < 2 ^ 62 -> sz cutoff = 0 ->
  RangeFilterTreeIndex_private T pts fvs dec cutoff
  = ([], Err undefined_behaviour).
Proof.
  intros Hn H. unfold RangeFilterTreeIndex_private.
  cbn [build_levels]. rewrite H.
  rewrite (sz_small (2 * size pts)) by (rewrite two64_eq; lia).
  destruct (Z.ltb_spec 0 (2 * size pts)); [|lia]. reflexivity.
Qed.

Lemma assembled_bucket (index : RangeFilterTreeIndex T)
    (levels : list (Level T)) (j b : Z) (w : size_t) :
  assembled T index levels ->
  1 <= size (_points T index) < 2 ^ 62 ->
  size (_filter_values T index) = size (_points T index) ->
  lookup (_bucket_sizes T index) j = Some w -> 0 <= b ->
  b * w < size (_points T index) ->
  let n := size (_points T index) in
  let positions := zrange (b * w) (Z.min (b * w + w) n) in
  exists level starts,
    lookup (_spatial_indices T index) j = Some level /\
    size level = (n + w - 1) / w /\
    lookup level b
    = Some (mkSpatialIndex T (_points T index) positions
              (map (get0 (_filter_values T index)) positions)) /\
    lookup (_starts T index) j = Some starts /\
    lookup starts b = Some (b * w).
Proof.
  intros (Hsz & Hst & Hsp & _ & Hall & _) Hn Hfv Hj Hb Hbn. cbv zeta.
  set (n := size (_points T index)) in *.
  rewrite Hsz in Hj.
  pose proof (eq_trans (eq_sym (lookup_map fst levels j)) Hj) as Hl.
  unfold Level in *.
  destruct (lookup levels j) as [lv|] eqn:E; [|discriminate].
  simpl in Hl. injection Hl as Hw. subst w.
  rewrite Forall_forall in Hall.
  destruct (Hall lv (lookup_In _ _ _ E)) as [Hr Hs].
  unfold size_t in *.
  assert (Hcount : b < num_buckets_of n (fst lv)).
  { unfold num_buckets_of. apply bucket_below_count; lia. }
  assert (Hbucket : lookup (snd lv) b
            = Some (build_bucket T (_points T index) (_filter_values T index)
                      n (fst lv) b)).
  { rewrite Hs, lookup_map, zrange_lookup by lia.
    cbn [option_map]. do 2 f_equal. }
  exists (map snd (snd lv)), (map fst (snd lv)). split; [|split; [|split; [|split]]].
  - rewrite Hsp.
    exact (eq_trans (lookup_map _ levels j) (f_equal (option_map _) E)).
  - rewrite size_map. apply (f_equal size) in Hs. rewrite size_map in Hs.
    etransitivity; [exact Hs|]. unfold num_buckets_of.
    rewrite zrange_size; [apply Z.sub_0_r|]. apply Z.div_pos; lia.
  - rewrite lookup_map, Hbucket. cbn [option_map]. f_equal.
    unfold build_bucket. cbn [snd].
    rewrite (sz_small (b * fst lv)) by (rewrite two64_eq; nia).
    rewrite (sz_small (n - b * fst lv)) by (rewrite two64_eq; nia).
    unfold tabulate. rewrite zrange_shift.
    replace (b * fst lv + Z.min (fst lv) (n - b * fst lv))
      with (Z.min (b * fst lv + fst lv) n) by lia.
    f_equal.
    rewrite (slice_as_map _ (b * fst lv) (Z.min (fst lv) (n - b * fst lv)));
      [f_equal; f_equal; lia|nia|lia|].
    rewrite Hfv. fold n. lia.
  - rewrite Hst.
    exact (eq_trans (lookup_map _ levels j) (f_equal (option_map _) E)).
  - rewrite lookup_map, Hbucket. cbn [option_map]. f_equal.
    unfold build_bucket. cbn [fst]. apply sz_small. rewrite two64_eq. nia.
Qed.

End Private.

Section FullBuild.

Variable T : Type.
Variable sort_inplace : forall A : Type, (A -> A -> bool) -> list A -> list A.
Hypothesis sort_ok : sort_contract sort_inplace.

Lemma valid_input_shape (points : array_t T)
    (filter_values : array_t FilterType) (cutoff : Z) :
  valid_input T points filter_values cutoff ->
  valid_shape T points filter_values.
Proof.
  intros (H1 & H2 & H3 & H4 & H5 & H6 & H7 & _). unfold valid_shape.
  repeat split; try assumption; lia.
Qed.

(** Everything a successful build fixes about the index. *)
Lemma new_assembled (points : array_t T) (filter_values : array_t FilterType)
    (cutoff : Z) (index : RangeFilterTreeIndex T) :
  valid_input T points filter_values cutoff ->
  RangeFilterTreeIndex_new T sort_inplace points filter_values cutoff
  = ([], Ok index) ->
  let fv := data filter_values in
  let sigma := decoding_of sort_inplace fv in
  exists levels,
    assembled T index levels /\
    size (_points T index) = size fv /\
    _filter_values T index = map (get0 fv) sigma /\
    _sorted_index_to_original_point_id T index = sigma /\
    _cutoff T index = cutoff /\
    rows_gathered T points sigma (_points T index).
Proof.
  intros Hv Hnew. cbv zeta.
  destruct (new_reduces T sort_inplace sort_ok points filter_values cutoff
              (valid_input_shape _ _ _ Hv)) as [pts [Hred [Hsize Hrows]]].
  destruct Hv as (_ & _ & _ & _ & Hfdata & Hn & _ & Hc).
  destruct (private_spec T pts
              (map (get0 (data filter_values))
                   (decoding_of sort_inplace (data filter_values)))
              (decoding_of sort_inplace (data filter_values)) cutoff)
    as [index' [levels [Hpriv [Hasm [Hp [Hf [Hd Hcut]]]]]]].
  { rewrite Hsize, Hfdata. lia. }
  { rewrite sz_small by (rewrite two64_eq; lia). lia. }
  rewrite Hred, Hpriv in Hnew. injection Hnew as <-.
  exists levels. rewrite Hp, Hf, Hd, Hcut. auto 10.
Qed.

End FullBuild.

(** ** The boundary helpers on any sequence *)

Lemma boundary_empty (accept : FilterType -> bool) :
  boundary_loop 64 accept [] 0 0 = Some 0.
Proof. reflexivity. Qed.

(** X1.  On any sequence of fewer than 2^63 values, sorted or not, both
    boundary helpers return: 0 on the empty sequence and otherwise a
    position between 1 and the length.  The position returned is the
    length or holds a value that passes the helper's test, and it is at
    most 1 or the position before it holds a value that fails the test. *)
Theorem boundary_helpers_return (fv : list FilterType) (x : FilterType) :
  size fv < 2 ^ 63 ->
  exists s e,
    first_greater_than fv x = Some s /\
    first_greater_than_or_equal_to fv x = Some e /\
    (size fv = 0 -> s = 0 /\ e = 0) /\
    (1 <= size fv -> 1 <= s <= size fv /\ 1 <= e <= size fv) /\
    (s = size fv \/ exists v, lookup fv s = Some v /\ (x < v)%Q) /\
    (s <= 1 \/ exists v, lookup fv (s - 1) = Some v /\ (v <= x)%Q) /\
    (e = size fv \/ exists v, lookup fv e = Some v /\ (x <= v)%Q) /\
    (e <= 1 \/ exists v, lookup fv (e - 1) = Some v /\ (v < x)%Q).
Proof.
  intros Hn. destruct fv as [|v0 rest] eqn:E.
  - exists 0, 0. unfold first_greater_than, first_greater_than_or_equal_to.
    change (size (@nil FilterType)) with 0.
    rewrite !boundary_empty. repeat split; auto; lia.
  - rewrite <- E in *.
    assert (Hn1 : 1 <= size fv < 2 ^ 63).
    { split; [|exact Hn]. rewrite E. unfold size. cbn [length]. lia. }
    destruct (boundary_top (fun v => Qltb x v) fv Hn1)
      as [s [Hs [Hsb [Hshi Hslo]]]].
    destruct (boundary_top (fun v => Qle_bool x v) fv Hn1)
      as [e [He [Heb [Hehi Helo]]]].
    exists s, e. split; [exact Hs|]. split; [exact He|].
    split; [lia|]. split; [auto|].
    split; [|split; [|split]].
    + destruct Hshi as [->|[v [Hv Ha]]]; [left; reflexivity|right].
      exists v. split; [exact Hv|]. apply Qltb_true_iff. exact Ha.
    + destruct Hslo as [->|[v [Hv Ha]]]; [left; lia|right].
      exists v. split; [exact Hv|]. apply Qltb_false_iff. exact Ha.
    + destruct Hehi as [->|[v [Hv Ha]]]; [left; reflexivity|right].
      exists v. split; [exact Hv|]. apply Qle_bool_iff. exact Ha.
    + destruct Helo as [->|[v [Hv Ha]]]; [left; lia|right].
      exists v. split; [exact Hv|]. apply Qnot_le_lt. intros Hle.
      apply Qle_bool_iff in Hle. congruence.
Qed.

(** X2.  On a non-decreasing sequence the window from
    [first_greater_than lo] up to (not including)
    [first_greater_than_or_equal_to hi] holds, among the positions from 1
    on, exactly those whose value lies strictly between [lo] and [hi]: a
    value equal to either end of the range is left out. *)
Theorem window_is_open_interval (fv : list FilterType) (lo hi : FilterType) :
  StronglySorted Qle fv -> 1 <= size fv < 2 ^ 63 ->
  exists s e,
    first_greater_than fv lo = Some s /\
    first_greater_than_or_equal_to fv hi = Some e /\
    1 <= s <= size fv /\ 1 <= e <= size fv /\
    forall i v, 1 <= i -> lookup fv i = Some v ->
      (s <= i < e <-> (lo < v)%Q /\ (v < hi)%Q).
Proof.
  intros Hsorted Hn.
  destruct (first_greater_than_sorted fv lo Hsorted Hn)
    as [s [Hs [Hsb [Hsl Hsh]]]].
  destruct (first_greater_than_or_equal_to_sorted fv hi Hsorted Hn)
    as [e [He [Heb [Hel Heh]]]].
  exists s, e. split; [exact Hs|]. split; [exact He|].
  split; [exact Hsb|]. split; [exact Heb|].
  intros i v Hi Hv. split.
  - intros [H1 H2]. split; [apply (Hsh i v H1 Hv)|apply (Hel i v)]; auto; lia.
  - intros [H1 H2]. split.
    + destruct (Z_le_gt_dec s i) as [Hle|Hgt]; [exact Hle|].
      pose proof (Hsl i v ltac:(lia) Hv) as Hc.
      exfalso. apply (Qlt_not_le _ _ H1). exact Hc.
    + destruct (Z_lt_le_dec i e) as [Hlt|Hge]; [exact Hlt|].
      pose proof (Heh i v Hge Hv) as Hc.
      exfalso. apply (Qlt_not_le _ _ H2). exact Hc.
Qed.

(** X3.  On a non-decreasing sequence a range with [lo < hi] gives a
    window whose start is not after its end, and a range with [hi <= lo],
    a single value among them, gives an end that is not after the start:
    such a range selects no position. *)
Theorem window_orientation (fv : list FilterType) (lo hi : FilterType) :
  StronglySorted Qle fv -> 1 <= size fv < 2 ^ 63 ->
  exists s e,
    first_greater_than fv lo = Some s /\
    first_greater_than_or_equal_to fv hi = Some e /\
    ((lo < hi)%Q -> s <= e) /\
    ((hi <= lo)%Q -> e <= s).
Proof.
  intros Hsorted Hn.
  destruct (first_greater_than_sorted fv lo Hsorted Hn)
    as [s [Hs [Hsb [Hsl Hsh]]]].
  destruct (first_greater_than_or_equal_to_sorted fv hi Hsorted Hn)
    as [e [He [Heb [Hel Heh]]]].
  exists s, e. split; [exact Hs|]. split; [exact He|]. split.
  - intros Hlt. destruct (Z_le_gt_dec s e) as [Hle|Hgt]; [exact Hle|].
    destruct (lookup_in_range fv e ltac:(lia)) as [v Hv].
    pose proof (Hsl e v ltac:(lia) Hv) as H1.
    pose proof (Heh e v ltac:(lia) Hv) as H2.
    exfalso. apply (Qlt_not_le _ _ Hlt). eapply Qle_trans; eassumption.
  - intros Hle. destruct (Z_le_gt_dec e s) as [H|Hgt]; [exact H|].
    destruct (lookup_in_range fv s ltac:(lia)) as [v Hv].
    pose proof (Hsh s v ltac:(lia) Hv) as H1.
    pose proof (Hel s v ltac:(lia) Hv) as H2.
    exfalso. apply (Qlt_not_le _ _ H1).
    apply Qlt_le_weak. eapply Qlt_le_trans; eassumption.
Qed.

(** ** The layout of a built index *)

Lemma concat_spans (w n : Z) (k : nat) :
  1 <= w -> 0 <= n ->
  concat (map (fun b => zrange (b * w) (Z.min (b * w + w) n))
              (zrange 0 (Z.of_nat k)))
  = zrange 0 (Z.min (Z.of_nat k * w) n).
Proof.
  intros Hw Hn. induction k as [|k IH].
  - rewrite zrange_empty by lia.
    change (Z.of_nat 0 * w) with 0. rewrite Z.min_l by lia.
    rewrite zrange_empty by lia. reflexivity.
  - replace (Z.of_nat (S k)) with (Z.of_nat k + 1) by lia.
    rewrite zrange_snoc by lia.
    rewrite map_app, concat_app, IH. cbn [map concat]. rewrite app_nil_r.
    replace ((Z.of_nat k + 1) * w) with (Z.of_nat k * w + w) by lia.
    destruct (Z_le_gt_dec n (Z.of_nat k * w)) as [Hle|Hgt].
    + rewrite !Z.min_r by lia.
      rewrite (zrange_empty (Z.of_nat k * w)) by lia. apply app_nil_r.
    + rewrite (Z.min_l (Z.of_nat k * w)) by lia.
      symmetry. apply zrange_app; nia.
Qed.

Lemma ceil_covers (n w : Z) : 1 <= w -> 0 <= n -> n <= (n + w - 1) / w * w.
Proof.
  intros Hw Hn.
  pose proof (Z.div_mod (n + w - 1) w ltac:(lia)).
  pose proof (Z.mod_pos_bound (n + w - 1) w ltac:(lia)). lia.
Qed.

Section Layout.

Variable T : Type.
Variable sort_inplace : forall A : Type, (A -> A -> bool) -> list A -> list A.
Hypothesis sort_ok : sort_contract sort_inplace.

Variable points : array_t T.
Variable filter_values : array_t FilterType.
Variable cutoff : Z.
Variable index : RangeFilterTreeIndex T.
Hypothesis input_ok : valid_input T points filter_values cutoff.
Hypothesis index_ok :
  RangeFilterTreeIndex_new T sort_inplace points filter_values cutoff
  = ([], Ok index).

Let n : Z := nth 0 (shape points) 0.
Let dimension : Z := nth 1 (shape points) 0.

Lemma layout_sizes :
  size (data filter_values) = n /\ 1 <= n < 2 ^ 31 /\
  size (_points T index) = n /\ size (_filter_values T index) = n /\
  1 <= cutoff < 2 ^ 31 /\ _cutoff T index = cutoff.
Proof.
  destruct (new_assembled T sort_inplace sort_ok _ _ _ _ input_ok index_ok)
    as [levels [_ [Hp [Hf [_ [Hc _]]]]]].
  destruct input_ok as (_ & _ & _ & _ & Hfdata & Hn & _ & Hcut).
  fold n in Hfdata, Hn.
  split; [exact Hfdata|]. split; [exact Hn|].
  split; [lia|]. split; [|split; [exact Hcut|exact Hc]].
  rewrite Hf, size_map, (decoding_size sort_inplace sort_ok). exact Hfdata.
Qed.

Lemma layout_assembled :
  exists levels,
    _bucket_sizes T index = map fst levels /\
    _starts T index = map (fun l => map fst (snd l)) levels /\
    _spatial_indices T index = map (fun l => map snd (snd l)) levels /\
    levels_from T (_points T index) (_filter_values T index) n cutoff levels.
Proof.
  destruct (new_assembled T sort_inplace sort_ok _ _ _ _ input_ok index_ok)
    as [levels [(H1 & H2 & H3 & H4) _]].
  destruct layout_sizes as (_ & _ & Hp & _ & Hcut & Hc).
  exists levels. rewrite Hp, Hc in H4.
  rewrite sz_small in H4 by (rewrite two64_eq; lia). auto.
Qed.

Lemma layout_bucket (j b : Z) (w : size_t) :
  lookup (_bucket_sizes T index) j = Some w -> 0 <= b -> b * w < n ->
  let positions := zrange (b * w) (Z.min (b * w + w) n) in
  exists level starts,
    lookup (_spatial_indices T index) j = Some level /\
    size level = (n + w - 1) / w /\
    lookup level b
    = Some (mkSpatialIndex T (_points T index) positions
              (map (get0 (_filter_values T index)) positions)) /\
    lookup (_starts T index) j = Some starts /\
    lookup starts b = Some (b * w).
Proof.
  intros Hj Hb Hbn.
  destruct (new_assembled T sort_inplace sort_ok _ _ _ _ input_ok index_ok)
    as [levels [Hasm _]].
  destruct layout_sizes as (_ & Hn & Hp & Hf & _).
  pose proof (assembled_bucket T index levels j b w Hasm) as H.
  rewrite Hp, Hf in H. apply H; auto. lia.
Qed.

Lemma layout_width (j : Z) (w : size_t) :
  lookup (_bucket_sizes T index) j = Some w ->
  0 <= j /\ w = cutoff * 2 ^ j /\ 1 <= w < 2 * n.
Proof.
  intros Hj. destruct layout_assembled as [levels (Hs & _ & _ & Hgeo & Hall & _)].
  rewrite Hs in Hj. split; [apply lookup_Some_range in Hj; lia|].
  split; [apply (Hgeo j w Hj)|].
  apply lookup_In in Hj. apply in_map_iff in Hj as [lv [<- Hin]].
  rewrite Forall_forall in Hall. apply (Hall lv Hin).
Qed.

Lemma layout_positions (j b : Z) (w : size_t) :
  lookup (_bucket_sizes T index) j = Some w -> 0 <= b ->
  bucket_positions T index j b = zrange (b * w) (Z.min (b * w + w) n).
Proof.
  intros Hj Hb. pose proof (layout_width j w Hj) as (_ & _ & Hw).
  destruct layout_sizes as (_ & Hn & _).
  destruct (Z_lt_le_dec (b * w) n) as [Hlt|Hge].
  - destruct (layout_bucket j b w Hj Hb Hlt)
      as [level [starts [Hl [_ [Hsub _]]]]].
    unfold bucket_positions. rewrite Hl, Hsub. reflexivity.
  - rewrite zrange_empty by lia.
    destruct (layout_bucket j 0 w Hj ltac:(lia) ltac:(lia))
      as [level [starts [Hl [Hsize _]]]].
    unfold bucket_positions. rewrite Hl.
    destruct (lookup level b) as [sub|] eqn:E; [|reflexivity].
    apply lookup_Some_range in E. rewrite Hsize in E.
    assert ((n + w - 1) / w <= b); [|lia].
    apply Z.lt_succ_r. apply Z.div_lt_upper_bound; [lia|]. nia.
Qed.

(** X4.  After a build, sorted position [i] holds the input point
    [o = OriginalId[i]]: [o] is below [n], the stored filter value at [i]
    is the input filter value of [o], and the stored point at [i] is the
    row of [dimension] values that starts at [o * dimension] in the input
    buffer. *)
Theorem build_gathers_rows (i : Z) :
  0 <= i < n ->
  exists o p,
    lookup (_sorted_index_to_original_point_id T index) i = Some o /\
    0 <= o < n /\
    lookup (_filter_values T index) i = lookup (data filter_values) o /\
    lookup (_points T index) i = Some p /\ size p = dimension /\
    forall d, 0 <= d < dimension ->
      lookup p d = lookup (data points) (o * dimension + d).
Proof.
  intros Hi.
  destruct (new_assembled T sort_inplace sort_ok _ _ _ _ input_ok index_ok)
    as [levels [_ [_ [Hf [Hd [_ Hrows]]]]]].
  destruct layout_sizes as (Hfdata & Hn & _).
  pose proof (decoding_size sort_inplace sort_ok (data filter_values)) as Hsz.
  destruct (Hrows i ltac:(lia)) as [p [o [Hp [Ho [Hsize Hcoord]]]]].
  exists o, p. rewrite Hd, Hf. split; [exact Ho|].
  assert (Hrange : 0 <= o < n).
  { rewrite <- Hfdata. apply (decoding_range sort_inplace sort_ok).
    apply (lookup_In _ _ _ Ho). }
  split; [exact Hrange|]. split.
  - rewrite lookup_map, Ho. cbn [option_map]. symmetry.
    apply lookup_nth. lia.
  - split; [exact Hp|]. split; [exact Hsize|exact Hcoord].
Qed.

(** X5.  Level [j] of width [w] has [ceil(n / w)] SubIndexes, and the one
    of bucket [b] is built over the whole point range with the consecutive
    sorted positions from [b * w] up to [min(b * w + w, n)] and the stored
    filter values at these positions, at least one and at most [w] of
    them; [_starts[j][b]] is [b * w]. *)
Theorem bucket_holds_consecutive_positions (j b : Z) (w : size_t) :
  lookup (_bucket_sizes T index) j = Some w -> 0 <= b -> b * w < n ->
  let positions := zrange (b * w) (Z.min (b * w + w) n) in
  exists level starts,
    lookup (_spatial_indices T index) j = Some level /\
    size level = (n + w - 1) / w /\
    lookup level b
    = Some (mkSpatialIndex T (_points T index) positions
              (map (get0 (_filter_values T index)) positions)) /\
    lookup (_starts T index) j = Some starts /\
    lookup starts b = Some (b * w) /\
    1 <= size positions <= w.
Proof.
  intros Hj Hb Hbn. cbv zeta.
  destruct (layout_bucket j b w Hj Hb Hbn)
    as (level & starts & Hlevel & Hsize & Hsub & Hstarts & Hstart).
  pose proof (layout_width j w Hj) as (_ & _ & Hw).
  exists level, starts. repeat (split; [assumption|]).
  unfold size_t in *. rewrite zrange_size; lia.
Qed.

(** X6.  The buckets of a level, taken in order, hold the sorted positions
    [0, ..., n-1] one after the other: every position is in exactly one
    bucket of every level. *)
Theorem level_partitions_positions (j : Z) (w : size_t) :
  lookup (_bucket_sizes T index) j = Some w ->
  concat (map (bucket_positions T index j) (zrange 0 ((n + w - 1) / w)))
  = zrange 0 n.
Proof.
  intros Hj. destruct layout_sizes as (_ & Hn & _).
  pose proof (layout_width j w Hj) as (_ & _ & Hw).
  rewrite (map_ext_in _ (fun b => zrange (b * w) (Z.min (b * w + w) n))).
  2:{ intros b Hb. apply zrange_In in Hb. apply layout_positions; [exact Hj|lia]. }
  unfold size_t in *.
  assert (Hcount : 0 <= (n + w - 1) / w) by (apply Z.div_pos; lia).
  rewrite <- (Z2Nat.id _ Hcount) at 1. rewrite concat_spans by lia.
  rewrite Z2Nat.id by exact Hcount.
  rewrite Z.min_r; [reflexivity|]. apply ceil_covers; lia.
Qed.

(** X7.  The levels nest: the positions of bucket [b] of level [j + 1] are
    those of bucket [2b] of level [j] followed by those of bucket [2b + 1]
    (none where that bucket does not exist). *)
Theorem levels_nest (j b : Z) (w : size_t) :
  lookup (_bucket_sizes T index) (j + 1) = Some w -> 0 <= j -> 0 <= b ->
  bucket_positions T index (j + 1) b
  = bucket_positions T index j (2 * b)
    ++ bucket_positions T index j (2 * b + 1).
Proof.
  intros Hj1 Hj Hb. destruct layout_sizes as (_ & Hn & _).
  pose proof (layout_width _ w Hj1) as (_ & Hw1 & Hr1).
  destruct (lookup_in_range (_bucket_sizes T index) j) as [v Hv].
  { apply lookup_Some_range in Hj1. lia. }
  pose proof (layout_width _ v Hv) as (_ & Hw & Hr).
  assert (Hdouble : w = 2 * v).
  { unfold size_t in *.
    rewrite Hw1, Hw, Z.pow_add_r by lia. change (2 ^ 1) with 2. ring. }
  rewrite (layout_positions (j + 1) b w Hj1 Hb).
  rewrite (layout_positions j (2 * b) v Hv ltac:(lia)).
  rewrite (layout_positions j (2 * b + 1) v Hv ltac:(lia)).
  rewrite Hdouble. unfold size_t in *.
  destruct (Z_le_gt_dec n (2 * b * v + v)) as [Hle|Hgt].
  - rewrite (zrange_empty ((2 * b + 1) * v)) by nia. rewrite app_nil_r.
    f_equal; nia.
  - rewrite (Z.min_l (2 * b * v + v)) by lia.
    rewrite (zrange_app (b * (2 * v)) (2 * b * v + v)) by nia.
    f_equal; f_equal; nia.
Qed.

Lemma layout_top :
  cutoff < 2 * n ->
  exists m w,
    size (_bucket_sizes T index) = m /\ 1 <= m /\
    lookup (_bucket_sizes T index) (m - 1) = Some w /\ n <= w < 2 * n.
Proof.
  intros Hc. destruct layout_sizes as (_ & Hn & _ & _ & Hcut & _).
  destruct layout_assembled as [levels (Hs & _ & _ & _ & _ & Htop)].
  set (m := size (_bucket_sizes T index)).
  assert (Hm : size levels = m).
  { unfold m. rewrite Hs, size_map. reflexivity. }
  assert (Htop' : 2 * n <= cutoff * 2 ^ m) by (rewrite <- Hm; exact Htop).
  clear Htop. rename Htop' into Htop.
  assert (Hm1 : 1 <= m).
  { pose proof (size_nonneg (_bucket_sizes T index)). fold m in H.
    destruct (Z.eq_dec m 0) as [E|E]; [|lia].
    rewrite E in Htop. change (2 ^ 0) with 1 in Htop. lia. }
  destruct (lookup_in_range (_bucket_sizes T index) (m - 1)) as [w Hw];
    [fold m; lia|].
  pose proof (layout_width _ w Hw) as (_ & Hgeo & Hr).
  exists m, w. split; [reflexivity|]. split; [exact Hm1|].
  split; [exact Hw|]. split; [|lia].
  replace m with (m - 1 + 1) in Htop by lia.
  rewrite Z.pow_add_r in Htop by lia. change (2 ^ 1) with 2 in Htop. lia.
Qed.

(** X8.  When the cutoff is below [2n] the pyramid has at least one level,
    and its last level has a width of at least [n] and a single bucket that
    holds every sorted position. *)
Theorem top_level_is_one_bucket :
  cutoff < 2 * n ->
  exists m w level,
    size (_bucket_sizes T index) = m /\ 1 <= m /\
    lookup (_bucket_sizes T index) (m - 1) = Some w /\ n <= w /\
    lookup (_spatial_indices T index) (m - 1) = Some level /\
    size level = 1 /\
    bucket_positions T index (m - 1) 0 = zrange 0 n.
Proof.
  intros Hc. destruct layout_sizes as (_ & Hn & _).
  destruct (layout_top Hc) as (m & w & Hm & Hm1 & Hw & Hnw).
  destruct (layout_bucket _ 0 w Hw ltac:(lia) ltac:(lia))
    as [level [_ [Hl [Hsize _]]]].
  exists m, w, level. split; [exact Hm|]. split; [exact Hm1|].
  split; [exact Hw|]. split; [lia|]. split; [exact Hl|]. split.
  - rewrite Hsize. unfold size_t in *.
    replace (n + w - 1) with (1 * w + (n - 1)) by lia.
    rewrite Z.div_add_l by lia. rewrite Z.div_small by lia. reflexivity.
  - rewrite (layout_positions _ 0 w Hw ltac:(lia)).
    f_equal. lia.
Qed.

End Layout.

(** ** Where a failure comes from *)

Lemma outcome_bind_err {A B} (m : M A) (f : A -> M B) (e : Exn) :
  outcome (bind m f) = Err e ->
  outcome m = Err e \/ exists a, outcome m = Ok a /\ outcome (f a) = Err e.
Proof.
  destruct m as [t [a|e']]; unfold bind, outcome; cbn [snd].
  - destruct (f a) as [t' r] eqn:E. cbn [snd]. intros ->. right.
    exists a. split; [reflexivity|]. rewrite E. reflexivity.
  - intros H. left. injection H as ->. reflexivity.
Qed.

Lemma mapM_outcome_err {A B} (f : A -> M B) (l : list A) (e : Exn) :
  outcome (mapM f l) = Err e -> exists x, In x l /\ outcome (f x) = Err e.
Proof.
  induction l as [|x l IH]; cbn [mapM]; intros H.
  - discriminate.
  - apply outcome_bind_err in H as [H|[y [Hy H]]].
    + exists x. split; [left; reflexivity|exact H].
    + apply outcome_bind_err in H as [H|[ys [Hys H]]].
      * destruct (IH H) as [x' [Hin Hx']]. exists x'. split; [right|]; auto.
      * discriminate.
Qed.

Lemma lift_err {A} (e' e : Exn) (o : option A) :
  outcome (lift e' o) = Err e -> e = e'.
Proof. destruct o; cbn; intros H; [discriminate|congruence]. Qed.

Lemma build_levels_err (T : Type) (fuel : nat) (points : PointRange T)
    (fvs : list FilterType) (n w : size_t) (e : Exn) :
  outcome (build_levels T fuel points fvs n w) = Err e ->
  e = no_termination \/ e = undefined_behaviour.
Proof.
  revert w. induction fuel as [|fuel IH]; intros w; cbn [build_levels].
  - destruct (w <? sz (2 * n)); cbn; intros H; [left; congruence|discriminate].
  - destruct (w <? sz (2 * n)); [|discriminate].
    destruct (w =? 0); [cbn; intros H; right; congruence|].
    intros H. apply outcome_bind_err in H as [H|[a [_ H]]].
    + apply (IH _ H).
    + discriminate.
Qed.

(** ** Builds that fail or store no level *)

Section BuildEdges.

Variable T : Type.
Variable sort_inplace : forall A : Type, (A -> A -> bool) -> list A -> list A.
Hypothesis sort_ok : sort_contract sort_inplace.

(** X9.  The constructor throws [std::runtime_error] exactly when one of
    its three shape checks fails, with the message of the first check that
    fails: the rank of the points, then the rank of the filter values, then
    the two lengths.  No later step of a build raises this error. *)
Theorem build_shape_errors (points : array_t T)
    (filter_values : array_t FilterType) (cutoff : Z) (msg : String.string) :
  outcome (RangeFilterTreeIndex_new T sort_inplace points filter_values cutoff)
  = Err (runtime_error msg)
  <-> (ndim points <> 2 /\ msg = points_message) \/
      (ndim points = 2 /\ ndim filter_values <> 1 /\ msg = filter_message) \/
      (ndim points = 2 /\ ndim filter_values = 1 /\
       nth 0 (shape filter_values) 0 <> nth 0 (shape points) 0 /\
       msg = length_message).
Proof.
  unfold RangeFilterTreeIndex_new.
  destruct (Z.eqb_spec (ndim points) 2) as [Hp|Hp]; cbn [negb].
  2:{ split.
      - intros H. left. split; [exact Hp|]. injection H as <-. reflexivity.
      - intros [[_ ->]|[[H _]|[H _]]]; [reflexivity|contradiction|contradiction]. }
  destruct (Z.eqb_spec (ndim filter_values) 1) as [Hf|Hf]; cbn [negb].
  2:{ split.
      - intros H. right. left. split; [exact Hp|]. split; [exact Hf|].
        injection H as <-. reflexivity.
      - intros [[H _]|[[_ [_ ->]]|[_ [H _]]]];
          [contradiction|reflexivity|contradiction]. }
  destruct (Z.eqb_spec (nth 0 (shape filter_values) 0) (nth 0 (shape points) 0))
    as [Hs|Hs]; cbn [negb].
  2:{ split.
      - intros H. right. right. split; [exact Hp|]. split; [exact Hf|].
        split; [exact Hs|]. injection H as <-. reflexivity.
      - intros [[H _]|[[_ [H _]]|[_ [_ [_ ->]]]]];
          [contradiction|contradiction|reflexivity]. }
  split.
  - intros H. exfalso.
    apply outcome_bind_err in H as [H|[sorted [_ H]]].
    { apply mapM_outcome_err in H as [i [_ H]].
      apply outcome_bind_err in H as [H|[row [_ H]]].
      - apply mapM_outcome_err in H as [d [_ H]].
        apply outcome_bind_err in H as [H|[o [_ H]]];
          apply lift_err in H; discriminate.
      - apply outcome_bind_err in H as [H|[o [_ H]]];
          [apply lift_err in H|]; discriminate. }
    apply outcome_bind_err in H as [H|[fvs [_ H]]].
    { apply mapM_outcome_err in H as [i [_ H]].
      apply outcome_bind_err in H as [H|[o [_ H]]];
        apply lift_err in H; discriminate. }
    unfold RangeFilterTreeIndex_private in H.
    apply outcome_bind_err in H as [H|[levels [_ H]]]; [|discriminate].
    apply build_levels_err in H as [H|H]; discriminate.
  - intros [[H _]|[[_ [H _]]|[_ [_ [H _]]]]]; contradiction.
Qed.

(** X10.  A build with cutoff 0 over at least one point divides by zero
    when it counts the buckets of the first level: its behaviour is
    undefined. *)
Theorem build_zero_cutoff (points : array_t T)
    (filter_values : array_t FilterType) :
  valid_shape T points filter_values -> 1 <= nth 0 (shape points) 0 ->
  RangeFilterTreeIndex_new T sort_inplace points filter_values 0
  = ([], Err undefined_behaviour).
Proof.
  intros Hv Hn.
  destruct (new_reduces T sort_inplace sort_ok points filter_values 0 Hv)
    as [pts [Hred [Hsize _]]].
  rewrite Hred. apply private_zero_cutoff; [|reflexivity].
  destruct Hv as (_ & _ & _ & _ & Hfdata & Hr & _).
  rewrite Hsize, Hfdata. lia.
Qed.

(** X11.  A build whose cutoff is negative, or at least [2n], succeeds
    and stores no level at all: [_bucket_sizes], [_starts] and
    [_spatial_indices] are empty (a negative cutoff becomes a [size_t]
    above every [2n]). *)
Theorem build_without_levels (points : array_t T)
    (filter_values : array_t FilterType) (cutoff : Z) :
  valid_shape T points filter_values ->
  - 2 ^ 31 <= cutoff < 2 ^ 31 ->
  cutoff < 0 \/ 2 * nth 0 (shape points) 0 <= cutoff ->
  exists index,
    RangeFilterTreeIndex_new T sort_inplace points filter_values cutoff
    = ([], Ok index) /\
    _bucket_sizes T index = [] /\ _starts T index = [] /\
    _spatial_indices T index = [] /\
    size (_points T index) = nth 0 (shape points) 0 /\
    _sorted_index_to_original_point_id T index
    = decoding_of sort_inplace (data filter_values) /\
    _cutoff T index = cutoff.
Proof.
  intros Hv Hc Hcase.
  destruct (new_reduces T sort_inplace sort_ok points filter_values cutoff Hv)
    as [pts [Hred [Hsize _]]].
  destruct Hv as (_ & _ & _ & _ & Hfdata & Hr & _).
  rewrite Hred, private_no_level.
  - eexists. split; [reflexivity|]. cbn. rewrite Hsize, Hfdata. auto 10.
  - rewrite Hsize, Hfdata.
    rewrite (sz_small (2 * _)) by (rewrite two64_eq; lia).
    destruct Hcase as [Hneg|Hbig].
    + unfold sz. rewrite two64_eq.
      replace cutoff with (cutoff + 18446744073709551616
                           + (-1) * 18446744073709551616) by lia.
      rewrite Z.mod_add by lia. rewrite Z.mod_small by lia. lia.
    + rewrite sz_small by (rewrite two64_eq; lia). exact Hbig.
Qed.

End BuildEdges.

(** ** Windows narrower than every bucket *)

Lemma seed_level_no_fit (s e : size_t) (j : Z) (w : size_t) (p : Plan) :
  1 <= w -> 0 <= s -> 0 <= e < 2 ^ 62 -> e - s < w ->
  seed_level s e j w p = p.
Proof.
  intros Hw Hs He Hfit. unfold seed_level.
  apply (fold_left_invariant (fun q => q = p)); [reflexivity|].
  intros q b Hb ->. apply zrange_In in Hb.
  assert (Hb0 : 0 <= b).
  { assert (0 <= s / w) by (apply Z.div_pos; lia). lia. }
  assert (Hbe : b * w + w <= e).
  { pose proof (Z.mul_div_le e w ltac:(lia)). nia. }
  rewrite (sz_small (b * w)) by (rewrite two64_eq; nia).
  rewrite (sz_small (b * w + w)) by (rewrite two64_eq; nia).
  destruct (Z.leb_spec s (b * w)); [|reflexivity].
  destruct (Z.leb_spec (b * w + w) e); [lia|reflexivity].
Qed.

Lemma fenwick_plan_no_fit (sizes : list size_t) (s e : size_t) :
  (forall j w, lookup sizes j = Some w -> 1 <= w /\ e - s < w) ->
  0 <= s -> 0 <= e < 2 ^ 62 ->
  fenwick_plan sizes s e = mkPlan (0, 0) [].
Proof.
  intros Hall Hs He. unfold fenwick_plan.
  apply (fold_left_invariant (fun q => q = mkPlan (0, 0) []));
    [reflexivity|].
  intros q [j w] Hin ->. apply in_rev in Hin. apply indexed_In in Hin.
  destruct (Hall j w Hin) as [Hw Hfit].
  unfold plan_level. cbn [last_range unset fst snd Z.eqb andb].
  rewrite seed_level_no_fit by assumption. reflexivity.
Qed.

Lemma sort_nil
    (sort_inplace : forall A : Type, (A -> A -> bool) -> list A -> list A)
    (A : Type) (less : A -> A -> bool) :
  sort_contract sort_inplace -> sort_inplace A less [] = [].
Proof.
  intros Hsort. apply Permutation_nil. apply (proj1 (Hsort A less [])).
Qed.

Section SmallWindow.

Variable T : Type.
Variable distance : Point T -> Point T -> float32.
Variable sort_inplace : forall A : Type, (A -> A -> bool) -> list A -> list A.
Variable index_query :
  SpatialIndex T -> Point T -> FilterRange -> QueryParams -> list pid.
Hypothesis sort_ok : sort_contract sort_inplace.

Variable points : array_t T.
Variable filter_values : array_t FilterType.
Variable cutoff : Z.
Variable index : RangeFilterTreeIndex T.
Hypothesis input_ok : valid_input T points filter_values cutoff.
Hypothesis index_ok :
  RangeFilterTreeIndex_new T sort_inplace points filter_values cutoff
  = ([], Ok index).

Let n : Z := nth 0 (shape points) 0.

Lemma brute_force_exact (query : Point T) (lo hi : size_t) :
  0 <= lo -> hi <= n ->
  brute_force T distance index query lo hi
  = ([], Ok (map (fun i => (i, distance (nth (Z.to_nat i) (_points T index) [])
                                 query))
                 (zrange lo hi))).
Proof.
  intros Hlo Hhi. unfold brute_force. apply mapM_pure.
  intros i Hi. apply zrange_In in Hi.
  destruct (layout_sizes T sort_inplace sort_ok _ _ _ _ input_ok index_ok)
    as (_ & _ & Hp & _).
  rewrite (idx_nth (_points T index) i []) by (rewrite Hp; fold n; lia).
  reflexivity.
Qed.

Lemma small_window_fenwick (query : Point T) (range : FilterRange)
    (qp : QueryParams) (s e : size_t) :
  first_greater_than (_filter_values T index) (fst range) = Some s ->
  first_greater_than_or_equal_to (_filter_values T index) (snd range)
  = Some e ->
  e - s < cutoff ->
  fenwick_tree_search T distance sort_inplace index_query index query range qp
  = (trace (check_empty T index range),
     Ok (window_scan T distance sort_inplace index query s e (sz (k qp)))).
Proof.
  intros Hs He Hfit.
  pose proof (index_built T sort_inplace sort_ok _ _ _ _ input_ok index_ok)
    as Hb.
  pose proof (input_size T _ _ _ input_ok) as Hn.
  pose proof (input_cutoff T _ _ _ input_ok) as Hc.
  destruct (layout_sizes T sort_inplace sort_ok _ _ _ _ input_ok index_ok)
    as (Hfdata & Hn' & Hp & Hf & _).
  fold n in Hn'.
  destruct (first_greater_than_ok T sort_inplace sort_ok _ _ _ Hb Hn
              (fst range)) as [s' [Hs' Hsr]].
  destruct (first_greater_than_or_equal_to_ok T sort_inplace sort_ok _ _ _
              Hb Hn (snd range)) as [e' [He' Her]].
  rewrite Hs in Hs'. injection Hs' as <-.
  rewrite He in He'. injection He' as <-.
  rewrite Hfdata in Hsr, Her.
  destruct (check_empty_ok T sort_inplace sort_ok _ _ _ Hb Hn range)
    as [front [back [Hfront [Hback Hce]]]].
  unfold fenwick_tree_search. rewrite Hce. unfold trace. cbn [fst].
  destruct (Qltb (snd range) front || Qltb back (fst range)) eqn:Hempty.
  - rewrite bind_pair. cbn [trace outcome ret fst snd]. rewrite app_nil_r.
    do 2 f_equal. unfold window_scan, sort_and_cut.
    assert (Hout : (snd range < front \/ back < fst range)%Q).
    { apply orb_true_iff in Hempty as [H|H]; [left|right];
        apply Qltb_true_iff; exact H. }
    destruct (outside_window T sort_inplace sort_ok _ _ _ Hb Hn range front
                back Hfront Hback Hout)
      as [s' [e' [Hs' [He' [_ [_ Hcase]]]]]].
    rewrite Hs in Hs'. injection Hs' as <-.
    rewrite He in He'. injection He' as <-.
    rewrite Hfdata in Hcase.
    rewrite zrange_empty by lia. cbn [map].
    rewrite sort_nil by exact sort_ok. symmetry. apply firstn_nil.
  - rewrite bind_pair. cbn [app]. rewrite Hs, He. cbn [lift].
    rewrite !bind_ret.
    rewrite fenwick_plan_no_fit; [| |lia|lia].
    2:{ intros j w Hj.
        destruct (layout_width T sort_inplace sort_ok _ _ _ _ input_ok
                    index_ok j w Hj) as (Hj0 & Hw & Hr).
        split; [lia|]. unfold size_t in *. subst w.
        assert (1 <= 2 ^ j) by (apply Z.pow_pos_nonneg with (a := 2) in Hj0; lia).
        nia. }
    cbn [indices_to_search mapM]. rewrite bind_ret.
    unfold residue_ranges. cbn [last_range unset fst snd Z.eqb andb mapM].
    rewrite brute_force_exact by lia.
    rewrite (bind_ok _ _ _ eq_refl). rewrite !bind_ret.
    cbn [concat app trace outcome ret fst snd]. rewrite app_nil_r.
    reflexivity.
Qed.

(** X12.  When the window [s, e) of a query is narrower than the cutoff,
    [fenwick_tree_search] and [three_split_search] query no SubIndex: they
    print at most the diagnostic of [check_empty] and return the
    brute-force scan of the window, each position of [s, e) with its
    distance to the query, sorted by distance and cut to [k].
    [optimized_postfiltering_search] does the same when four times the
    width of a window with [s <= e] is below the cutoff. *)
Theorem small_window_is_scanned (query : Point T) (range : FilterRange)
    (qp : QueryParams) (s e : size_t) :
  first_greater_than (_filter_values T index) (fst range) = Some s ->
  first_greater_than_or_equal_to (_filter_values T index) (snd range)
  = Some e ->
  e - s < cutoff ->
  let scanned :=
    (trace (check_empty T index range),
     Ok (window_scan T distance sort_inplace index query s e (sz (k qp)))) in
  fenwick_tree_search T distance sort_inplace index_query index query range qp
  = scanned /\
  three_split_search T distance sort_inplace index_query index query range qp
  = scanned /\
  (s <= e -> 4 * (e - s) < cutoff ->
   optimized_postfiltering_search T distance sort_inplace index_query index
     query range qp = scanned).
Proof.
  intros Hs He Hfit. cbv zeta.
  pose proof (small_window_fenwick query range qp s e Hs He Hfit) as Hfen.
  pose proof (index_built T sort_inplace sort_ok _ _ _ _ input_ok index_ok)
    as Hb.
  pose proof (input_size T _ _ _ input_ok) as Hn.
  pose proof (input_cutoff T _ _ _ input_ok) as Hc.
  destruct (layout_sizes T sort_inplace sort_ok _ _ _ _ input_ok index_ok)
    as (Hfdata & Hn' & Hp & Hf & _ & Hcut).
  fold n in Hn'.
  destruct (first_greater_than_ok T sort_inplace sort_ok _ _ _ Hb Hn
              (fst range)) as [s' [Hs' Hsr]].
  destruct (first_greater_than_or_equal_to_ok T sort_inplace sort_ok _ _ _
              Hb Hn (snd range)) as [e' [He' Her]].
  rewrite Hs in Hs'. injection Hs' as <-.
  rewrite He in He'. injection He' as <-.
  rewrite Hfdata in Hsr, Her.
  split; [exact Hfen|]. split.
  - unfold three_split_search. rewrite Hs, He. cbn [lift]. rewrite !bind_ret.
    rewrite Hp. fold n.
    destruct (find_center (_bucket_sizes T index) n s e) as [[j b]|] eqn:Ec;
      [|exact Hfen].
    exfalso.
    unfold n in *. rewrite <- Hfdata in Ec, Hsr, Her.
    destruct (find_center_spec T sort_inplace _ _ _ Hb Hn s e j b
                ltac:(lia) ltac:(lia) Ec) as [w [Hj [Hb0 [Hlo Hhi]]]].
    destruct (layout_width T sort_inplace sort_ok _ _ _ _ input_ok
                index_ok j w Hj) as (Hj0 & Hw & Hr).
    unfold size_t in *. subst w.
    assert (1 <= 2 ^ j) by (apply Z.pow_pos_nonneg with (a := 2) in Hj0; lia).
    nia.
  - intros Hse Hquarter.
    destruct (check_empty_ok T sort_inplace sort_ok _ _ _ Hb Hn range)
      as [front [back [Hfront [Hback Hce]]]].
    unfold optimized_postfiltering_search.
    destruct (Qltb (snd range) front || Qltb back (fst range)) eqn:Hempty.
    + rewrite Hfen. unfold fenwick_tree_search in Hfen.
      rewrite Hce in *. rewrite bind_pair in *.
      cbn [trace outcome ret fst snd] in *. exact Hfen.
    + rewrite Hce. rewrite bind_pair. cbn [app]. rewrite Hs, He. cbn [lift].
      rewrite !bind_ret. rewrite Hcut.
      rewrite (sz_small (e - s)) by (rewrite two64_eq; lia).
      rewrite (sz_small (4 * (e - s))) by (rewrite two64_eq; lia).
      rewrite (sz_small cutoff) by (rewrite two64_eq; lia).
      destruct (Z.ltb_spec (4 * (e - s)) cutoff); [|lia].
      rewrite Hfen. rewrite Hce. reflexivity.
Qed.

End SmallWindow.

(** ** The buckets planned by [fenwick_tree_search] *)

Lemma widths_lookup (c : Z) (k : nat) (j : Z) :
  0 <= j < Z.of_nat k -> lookup (widths c k) j = Some (width c j).
Proof.
  intros Hj. unfold widths. rewrite lookup_map, zrange_lookup by lia.
  reflexivity.
Qed.

Section PlannedBuckets.

Variable T : Type.
Variable sort_inplace : forall A : Type, (A -> A -> bool) -> list A -> list A.
Hypothesis sort_ok : sort_contract sort_inplace.

Variable points : array_t T.
Variable filter_values : array_t FilterType.
Variable cutoff : Z.
Variable index : RangeFilterTreeIndex T.
Hypothesis input_ok : valid_input T points filter_values cutoff.
Hypothesis index_ok :
  RangeFilterTreeIndex_new T sort_inplace points filter_values cutoff
  = ([], Ok index).

Let n : Z := nth 0 (shape points) 0.

(** X13.  For every range, each bucket planned by [fenwick_tree_search]
    exists and lies inside the window [s, e) as a full bucket, each residue
    range lies inside the window, and a sorted position is covered by a
    planned bucket or a residue range exactly when it is in the window. *)
Theorem fenwick_plan_covers_the_window (range : FilterRange) :
  exists s e,
    first_greater_than (_filter_values T index) (fst range) = Some s /\
    first_greater_than_or_equal_to (_filter_values T index) (snd range)
    = Some e /\
    let sizes := _bucket_sizes T index in
    let p := fenwick_plan sizes s e in
    Forall (fun b => exists w,
              lookup sizes (fst b) = Some w /\ 0 <= snd b /\
              s <= snd b * w /\ snd b * w + w <= e)
           (indices_to_search p) /\
    Forall (fun r => s <= fst r /\ snd r <= e) (residue_ranges p s e) /\
    forall i,
      Exists (fun r => covers r i = true) (planned_spans sizes n p s e)
      <-> s <= i < e.
Proof.
  pose proof (index_built T sort_inplace sort_ok _ _ _ _ input_ok index_ok)
    as Hb.
  pose proof (input_size T _ _ _ input_ok) as Hn.
  pose proof (input_cutoff T _ _ _ input_ok) as Hc.
  destruct (layout_sizes T sort_inplace sort_ok _ _ _ _ input_ok index_ok)
    as (Hfdata & _).
  fold n in Hfdata.
  destruct (first_greater_than_ok T sort_inplace sort_ok _ _ _ Hb Hn
              (fst range)) as [s [Hs Hsr]].
  destruct (first_greater_than_or_equal_to_ok T sort_inplace sort_ok _ _ _
              Hb Hn (snd range)) as [e [He Her]].
  exists s, e. split; [exact Hs|]. split; [exact He|]. cbv zeta.
  pose proof Hn as Hn0. rewrite Hfdata in Hsr, Her, Hn.
  destruct (built_widths T sort_inplace _ _ _ Hb) as [k [Hk Hw]].
  rewrite Hfdata in Hw.
  split; [|split].
  - rewrite Hk.
    destruct (fenwick_plan_covering cutoff (Z.of_nat k) n s e
                ltac:(lia) ltac:(lia) ltac:(lia) ltac:(lia) Hw k
                ltac:(lia) (mkPlan (0, 0) []) 0)
      as [wd [Hall _]].
    { apply Z.divide_0_r. }
    { split; [constructor|left; auto]. }
    fold (fenwick_plan (widths cutoff k) s e) in Hall.
    eapply Forall_impl; [|exact Hall].
    intros b [Hj [Hlo Hhi]]. exists (width cutoff (fst b)).
    split; [apply widths_lookup; exact Hj|].
    assert (1 <= width cutoff (fst b)).
    { unfold width.
      assert (0 < 2 ^ fst b) by (apply Z.pow_pos_nonneg; lia). nia. }
    split; [|split; assumption]. unfold size_t in *. nia.
  - pose proof (fenwick_plan_ok T sort_inplace _ _ _ Hb Hn0 s e) as Hp.
    rewrite Hfdata in Hp. destruct (Hp ltac:(lia) ltac:(lia)) as [Hlr _].
    unfold residue_ranges.
    destruct (unset (last_range _)) eqn:U.
    + constructor; [cbn [fst snd]; lia|constructor].
    + destruct Hlr as [Hu|Hlr]; [congruence|].
      constructor; [cbn [fst snd]; lia|].
      constructor; [cbn [fst snd]; lia|constructor].
  - intros i.
    pose proof (fenwick_plan_covers_window T sort_inplace _ _ _ s e i Hb Hn0)
      as Hcov.
    rewrite Hfdata in Hcov. apply Hcov; lia.
Qed.

End PlannedBuckets.

(** ** The first match of a level scan *)

Lemma find_combine_first {A} (f : Z * A -> bool) (l : list A) :
  forall (k j : Z) (w : A),
    find f (combine (zrange k (k + size l)) l) = Some (j, w) ->
    k <= j /\ lookup l (j - k) = Some w /\ f (j, w) = true /\
    forall j' w', k <= j' < j -> lookup l (j' - k) = Some w' ->
      f (j', w') = false.
Proof.
  induction l as [|x l IH]; intros k j w.
  { rewrite combine_nil. discriminate. }
  rewrite size_cons.
  rewrite zrange_cons by (pose proof (size_nonneg l); lia).
  cbn [combine find]. destruct (f (k, x)) eqn:E.
  - intros H. injection H as <- <-. rewrite Z.sub_diag.
    split; [lia|]. split; [reflexivity|]. split; [exact E|]. intros; lia.
  - replace (k + (size l + 1)) with (k + 1 + size l) by lia. intros H.
    destruct (IH (k + 1) j w H) as (Hk & Hl & Hf & Hfirst).
    split; [lia|]. split.
    + rewrite lookup_cons. destruct (Z.eqb_spec (j - k) 0); [lia|].
      replace (j - k - 1) with (j - (k + 1)) by lia. exact Hl.
    + split; [exact Hf|]. intros j' w' Hj' Hl'.
      rewrite lookup_cons in Hl'.
      destruct (Z.eqb_spec (j' - k) 0) as [E0|E0].
      * injection Hl' as <-. replace j' with k by lia. exact E.
      * apply Hfirst; [lia|].
        replace (j' - (k + 1)) with (j' - k - 1) by lia. exact Hl'.
Qed.

Lemma find_combine_some {A} (f : Z * A -> bool) (l : list A) :
  forall (k j : Z) (w : A),
    k <= j -> lookup l (j - k) = Some w -> f (j, w) = true ->
    exists r, find f (combine (zrange k (k + size l)) l) = Some r.
Proof.
  induction l as [|x l IH]; intros k j w Hk Hl Hf.
  { unfold lookup in Hl. destruct (j - k <? 0); [discriminate|].
    rewrite nth_error_nil in Hl. discriminate. }
  rewrite size_cons.
  rewrite zrange_cons by (pose proof (size_nonneg l); lia).
  cbn [combine find]. destruct (f (k, x)) eqn:E; [eauto|].
  replace (k + (size l + 1)) with (k + 1 + size l) by lia.
  rewrite lookup_cons in Hl.
  destruct (Z.eqb_spec (j - k) 0) as [E0|E0].
  - injection Hl as <-. replace j with k in Hf by lia. congruence.
  - pose proof (lookup_Some_range _ _ _ Hl).
    apply (IH (k + 1) j w); [lia| |exact Hf].
    replace (j - (k + 1)) with (j - k - 1) by lia. exact Hl.
Qed.

(** ** At most [k] results *)

Lemma sort_and_cut_size
    (sort_inplace : forall A : Type, (A -> A -> bool) -> list A -> list A)
    (frontier : list pid) (knn : size_t) :
  0 <= knn -> size (sort_and_cut sort_inplace frontier knn) <= knn.
Proof.
  intros Hk. unfold sort_and_cut, size.
  pose proof (firstn_le_length (Z.to_nat knn)
                (sort_inplace pid (fun a b => float_ltb (snd a) (snd b))
                   frontier)).
  lia.
Qed.

Section Bounded.

Variable T : Type.
Variable distance : Point T -> Point T -> float32.
Variable sort_inplace : forall A : Type, (A -> A -> bool) -> list A -> list A.
Variable index_query :
  SpatialIndex T -> Point T -> FilterRange -> QueryParams -> list pid.

Lemma fenwick_tree_search_size (index : RangeFilterTreeIndex T)
    (query : Point T) (range : FilterRange) (qp : QueryParams)
    (r : list pid) :
  outcome (fenwick_tree_search T distance sort_inplace index_query index
             query range qp) = Ok r ->
  size r <= sz (k qp).
Proof.
  pose proof (sz_range (k qp)) as Hk.
  unfold fenwick_tree_search. intros H.
  apply outcome_bind_inv in H as [empty [_ H]].
  destruct empty.
  { injection H as <-. change (size (@nil pid)) with 0. lia. }
  apply outcome_bind_inv in H as [s [_ H]].
  apply outcome_bind_inv in H as [e [_ H]].
  apply outcome_bind_inv in H as [searched [_ H]].
  apply outcome_bind_inv in H as [residues [_ H]].
  injection H as <-. apply sort_and_cut_size. lia.
Qed.

(** X14.  Whatever the index holds, a result returned by
    [fenwick_tree_search] or by [three_split_search] has at most [k]
    entries. *)
Theorem results_bounded_by_k (index : RangeFilterTreeIndex T)
    (query : Point T) (range : FilterRange) (qp : QueryParams)
    (r : list pid) :
  outcome (fenwick_tree_search T distance sort_inplace index_query index
             query range qp) = Ok r \/
  outcome (three_split_search T distance sort_inplace index_query index
             query range qp) = Ok r ->
  size r <= sz (k qp).
Proof.
  intros [H|H]; [apply (fenwick_tree_search_size _ _ _ _ _ H)|].
  pose proof (sz_range (k qp)) as Hk.
  revert H. unfold three_split_search. intros H.
  apply outcome_bind_inv in H as [s [_ H]].
  apply outcome_bind_inv in H as [e [_ H]].
  destruct (find_center _ _ _ _) as [[j b]|];
    [|apply (fenwick_tree_search_size _ _ _ _ _ H)].
  apply outcome_bind_inv in H as [center [_ H]].
  apply outcome_bind_inv in H as [bucket_size [_ H]].
  apply outcome_bind_inv in H as [left [_ H]].
  apply outcome_bind_inv in H as [right [_ H]].
  injection H as <-. apply sort_and_cut_size. lia.
Qed.

End Bounded.

Lemma find_indexed_first {A} (f : Z * A -> bool) (l : list A) (j : Z) (w : A) :
  find f (indexed l) = Some (j, w) ->
  lookup l j = Some w /\ f (j, w) = true /\
  forall j' w', j' < j -> lookup l j' = Some w' -> f (j', w') = false.
Proof.
  unfold indexed. intros H.
  destruct (find_combine_first f l 0 j w H) as (_ & Hl & Hf & Hfirst).
  rewrite Z.sub_0_r in Hl. split; [exact Hl|]. split; [exact Hf|].
  intros j' w' Hj' Hl'. pose proof (lookup_Some_range _ _ _ Hl').
  apply Hfirst; [lia|]. rewrite Z.sub_0_r. exact Hl'.
Qed.

Lemma find_indexed_some {A} (f : Z * A -> bool) (l : list A) (j : Z) (w : A) :
  lookup l j = Some w -> f (j, w) = true ->
  exists r, find f (indexed l) = Some r.
Proof.
  intros Hl Hf. pose proof (lookup_Some_range _ _ _ Hl).
  apply (find_combine_some f l 0 j w); [lia| |exact Hf].
  rewrite Z.sub_0_r. exact Hl.
Qed.

Lemma bind_emit {B} (ev : Event) (f : unit -> M B) :
  bind (emit ev) f = (ev :: trace (f tt), outcome (f tt)).
Proof. unfold emit. rewrite bind_pair. reflexivity. Qed.

Lemma pair_trace_outcome {A} (m : M A) : (trace m, outcome m) = m.
Proof. destruct m. reflexivity. Qed.

Lemma bind_assoc {A B C} (m : M A) (f : A -> M B) (g : B -> M C) :
  bind (bind m f) g = bind m (fun x => bind (f x) g).
Proof.
  destruct m as [t [a|err]]; [|reflexivity]. cbn [bind].
  destruct (f a) as [t' [b|err]]; cbn [bind].
  - destruct (g b) as [t'' r]. rewrite app_assoc. reflexivity.
  - reflexivity.
Qed.

(** ** The bucket queried by [optimized_postfiltering_search] *)

Section OneBucket.

Variable T : Type.
Variable distance : Point T -> Point T -> float32.
Variable sort_inplace : forall A : Type, (A -> A -> bool) -> list A -> list A.
Variable index_query :
  SpatialIndex T -> Point T -> FilterRange -> QueryParams -> list pid.
Hypothesis sort_ok : sort_contract sort_inplace.

Variable points : array_t T.
Variable filter_values : array_t FilterType.
Variable cutoff : Z.
Variable index : RangeFilterTreeIndex T.
Hypothesis input_ok : valid_input T points filter_values cutoff.
Hypothesis index_ok :
  RangeFilterTreeIndex_new T sort_inplace points filter_values cutoff
  = ([], Ok index).

Let n : Z := nth 0 (shape points) 0.

(** X15.  On an index with at least one level and for a non-empty window
    [s, e), the level scan of [optimized_postfiltering_search] finds the
    smallest level one of whose buckets holds the whole window.  The search
    is [fenwick_tree_search] when four times the width of the window is
    below the cutoff; otherwise it announces the bucket when verbose and
    then either runs [fenwick_tree_search], when bucket width over window
    width, both converted to [float] and divided in [float], exceeds
    [min_query_to_bucket_ratio], or queries that one bucket and returns its
    answer as it is. *)
Theorem optimized_postfilter_queries_one_bucket (query : Point T)
    (range : FilterRange) (qp : QueryParams) (s e : size_t) :
  first_greater_than (_filter_values T index) (fst range) = Some s ->
  first_greater_than_or_equal_to (_filter_values T index) (snd range)
  = Some e ->
  s < e -> cutoff < 2 * n ->
  exists j w,
    containing_level (_bucket_sizes T index) s e = Some (j, w) /\
    lookup (_bucket_sizes T index) j = Some w /\
    (forall i, s <= i < e -> s / w * w <= i < s / w * w + w) /\
    (forall j' w', j' < j -> lookup (_bucket_sizes T index) j' = Some w' ->
       s / w' <> (e - 1) / w') /\
    let b := s / w in
    let positions := zrange (b * w) (Z.min (b * w + w) n) in
    let sub :=
      mkSpatialIndex T (_points T index) positions
        (map (get0 (_filter_values T index)) positions) in
    let announce := if verbose qp then [EvVerbose s e w b] else [] in
    let fenwick :=
      fenwick_tree_search T distance sort_inplace index_query index query
        range qp in
    optimized_postfiltering_search T distance sort_inplace index_query index
      query range qp
    = if 4 * (e - s) <? cutoff then fenwick
      else if match min_query_to_bucket_ratio qp with
              | Some ratio =>
                  float_gtb
                    (float_div (float_of_size_t w) (float_of_size_t (e - s)))
                    ratio
              | None => false
              end
           then (announce ++ trace fenwick, outcome fenwick)
           else (announce ++ [EvQuery j b range qp],
                 Ok (index_query sub query range qp)).
Proof.
  intros Hs He Hse Hlevels.
  pose proof (index_built T sort_inplace sort_ok _ _ _ _ input_ok index_ok)
    as Hb.
  pose proof (input_size T _ _ _ input_ok) as Hn0.
  pose proof (input_cutoff T _ _ _ input_ok) as Hc.
  destruct (layout_sizes T sort_inplace sort_ok _ _ _ _ input_ok index_ok)
    as (Hfdata & Hn & Hp & Hf & _ & Hcut).
  fold n in Hfdata, Hn, Hp, Hf.
  destruct (first_greater_than_ok T sort_inplace sort_ok _ _ _ Hb Hn0
              (fst range)) as [s' [Hs' Hsr]].
  destruct (first_greater_than_or_equal_to_ok T sort_inplace sort_ok _ _ _
              Hb Hn0 (snd range)) as [e' [He' Her]].
  rewrite Hs in Hs'. injection Hs' as <-.
  rewrite He in He'. injection He' as <-.
  rewrite Hfdata in Hsr, Her.
  (* the window is not empty, so the range is not outside the index *)
  destruct (check_empty_ok T sort_inplace sort_ok _ _ _ Hb Hn0 range)
    as [front [back [Hfront [Hback Hce]]]].
  assert (Hinside : Qltb (snd range) front || Qltb back (fst range) = false).
  { destruct (Qltb (snd range) front || Qltb back (fst range)) eqn:Hempty;
      [|reflexivity].
    assert (Hout : (snd range < front \/ back < fst range)%Q).
    { apply orb_true_iff in Hempty as [H|H]; [left|right];
        apply Qltb_true_iff; exact H. }
    destruct (outside_window T sort_inplace sort_ok _ _ _ Hb Hn0 range front
                back Hfront Hback Hout)
      as [s' [e' [Hs' [He' [_ [_ Hcase]]]]]].
    rewrite Hs in Hs'. injection Hs' as <-.
    rewrite He in He'. injection He' as <-.
    rewrite Hfdata in Hcase. lia. }
  rewrite Hinside in Hce.
  (* the top level holds the window in its only bucket *)
  destruct (layout_top T sort_inplace sort_ok _ _ _ _ input_ok index_ok
              Hlevels) as (m & wt & Hm & Hm1 & Hwt & Hnwt).
  fold n in Hnwt.
  destruct (find_indexed_some
              (fun level : Z * size_t =>
                 s / snd level =? sz (e - 1) / snd level)
              (_bucket_sizes T index) (m - 1) wt Hwt) as [[j w] Hfind].
  { cbn [snd]. rewrite (sz_small (e - 1)) by (rewrite two64_eq; lia).
    unfold size_t in *.
    rewrite (Z.div_small s) by lia. rewrite (Z.div_small (e - 1)) by lia.
    reflexivity. }
  destruct (find_indexed_first _ _ _ _ Hfind) as (Hj & Hpred & Hfirst).
  cbn [snd] in Hpred. apply Z.eqb_eq in Hpred.
  rewrite (sz_small (e - 1)) in Hpred by (rewrite two64_eq; lia).
  destruct (layout_width T sort_inplace sort_ok _ _ _ _ input_ok index_ok
              j w Hj) as (Hj0 & _ & Hw).
  fold n in Hw.
  assert (Hlow : s / w * w <= s).
  { unfold size_t in *. pose proof (Z.mul_div_le s w). lia. }
  assert (Hhigh : e - 1 < s / w * w + w).
  { unfold size_t in *. rewrite Hpred.
    pose proof (Z.div_mod (e - 1) w ltac:(lia)).
    pose proof (Z.mod_pos_bound (e - 1) w ltac:(lia)). lia. }
  assert (Hb0 : 0 <= s / w).
  { unfold size_t in *. apply Z.div_pos; lia. }
  exists j, w. split; [exact Hfind|]. split; [exact Hj|].
  split; [intros i Hi; unfold size_t in *; lia|]. split.
  { intros j' w' Hj' Hl'. specialize (Hfirst j' w' Hj' Hl').
    cbn [snd] in Hfirst. apply Z.eqb_neq in Hfirst.
    rewrite (sz_small (e - 1)) in Hfirst by (rewrite two64_eq; lia).
    exact Hfirst. }
  cbv zeta.
  destruct (layout_bucket T sort_inplace sort_ok _ _ _ _ input_ok index_ok
              j (s / w) w Hj Hb0 ltac:(fold n; unfold size_t in *; lia))
    as [level [starts [Hlevel [_ [Hsub _]]]]].
  fold n in Hsub.
  assert (Hquery :
    query_bucket T index_query index j (s / w) query range qp
    = ([EvQuery j (s / w) range qp],
       Ok (index_query
             (mkSpatialIndex T (_points T index)
                (zrange (s / w * w) (Z.min (s / w * w + w) n))
                (map (get0 (_filter_values T index))
                   (zrange (s / w * w) (Z.min (s / w * w + w) n))))
             query range qp))).
  { unfold query_bucket, at_. rewrite Hlevel. cbn [lift]. rewrite bind_ret.
    rewrite Hsub. cbn [lift]. rewrite bind_ret. rewrite bind_emit.
    reflexivity. }
  assert (Hcl : containing_level (_bucket_sizes T index) s e = Some (j, w))
    by exact Hfind.
  unfold optimized_postfiltering_search.
  rewrite (bind_ok _ _ _ Hce). rewrite Hs, He. cbn [lift].
  rewrite !bind_ret. rewrite Hcut.
  rewrite (sz_small (e - s)) by (rewrite two64_eq; lia).
  rewrite (sz_small (4 * (e - s))) by (rewrite two64_eq; lia).
  rewrite (sz_small cutoff) by (rewrite two64_eq; lia).
  destruct (4 * (e - s) <? cutoff); [reflexivity|].
  rewrite Hcl.
  set (fen := fenwick_tree_search T distance sort_inplace index_query index
                query range qp).
  rewrite bind_assoc.
  destruct (verbose qp).
  - rewrite bind_emit, bind_ret. cbn [fst snd].
    unfold idx. rewrite Hj. cbn [lift]. rewrite bind_ret.
    destruct (min_query_to_bucket_ratio qp) as [ratio|].
    + destruct (float_gtb _ ratio); [reflexivity|].
      rewrite Hquery. reflexivity.
    + rewrite Hquery. reflexivity.
  - rewrite !bind_ret. cbn [fst snd].
    unfold idx. rewrite Hj. cbn [lift]. rewrite bind_ret.
    destruct (min_query_to_bucket_ratio qp) as [ratio|].
    + destruct (float_gtb _ ratio); [symmetry; apply pair_trace_outcome|].
      rewrite Hquery. reflexivity.
    + rewrite Hquery. reflexivity.
Qed.

End OneBucket.

(** ** Translating and padding a row *)

Lemma firstn_as_map {A} (l : list A) (d : A) (k : Z) :
  k <= size l ->
  map (fun i => nth (Z.to_nat i) l d) (zrange 0 k) = firstn (Z.to_nat k) l.
Proof.
  intros Hk. destruct (Z_le_gt_dec k 0) as [Hle|Hgt].
  { rewrite zrange_empty by lia. replace (Z.to_nat k) with 0%nat by lia.
    reflexivity. }
  assert (Hsize : size (firstn (Z.to_nat k) l) = k).
  { unfold size in *. rewrite length_firstn. lia. }
  apply lookup_ext.
  - rewrite size_map, zrange_size, Hsize; lia.
  - intros i Hi. rewrite size_map, zrange_size in Hi by lia.
    rewrite lookup_map, zrange_lookup by lia. cbn [option_map].
    change (firstn (Z.to_nat k) l)
      with (firstn (Z.to_nat k) (skipn (Z.to_nat 0) l)).
    rewrite lookup_slice by lia. symmetry. apply lookup_nth. lia.
Qed.

Lemma map_constant {A B} (c : B) (l : list A) :
  map (fun _ => c) l = repeat c (length l).
Proof. induction l as [|x l IH]; [reflexivity|]. cbn. f_equal. exact IH. Qed.

Lemma translate_then_pad {A B} (tr : A -> B) (pad : B) (d : A) (l : list A)
    (knn : Z) :
  map (fun j => if j <? size l then tr (nth (Z.to_nat j) l d) else pad)
      (zrange 0 knn)
  = map tr (firstn (Z.to_nat knn) l)
    ++ repeat pad (Z.to_nat (knn - size l)).
Proof.
  pose proof (size_nonneg l) as Hl.
  destruct (Z_le_gt_dec knn (size l)) as [Hle|Hgt].
  - replace (Z.to_nat (knn - size l)) with 0%nat by lia.
    cbn [repeat]. rewrite app_nil_r.
    rewrite <- (firstn_as_map l d knn Hle), map_map.
    apply map_ext_in. intros j Hj. apply zrange_In in Hj.
    destruct (Z.ltb_spec j (size l)); [reflexivity|lia].
  - rewrite (zrange_app 0 (size l) knn) by lia. rewrite map_app. f_equal.
    + rewrite firstn_all2 by (unfold size in *; lia).
      transitivity (map tr (map (fun i => nth (Z.to_nat i) l d)
                              (zrange 0 (size l))));
        [|rewrite map_nth_zrange; reflexivity].
      rewrite map_map.
      apply map_ext_in. intros j Hj. apply zrange_In in Hj.
      destruct (Z.ltb_spec j (size l)); [reflexivity|lia].
    + rewrite <- (zrange_length (size l) knn), <- map_constant.
      apply map_ext_in. intros j Hj. apply zrange_In in Hj.
      destruct (Z.ltb_spec j (size l)); [lia|reflexivity].
Qed.

Section Output.

Variable T : Type.
Variable sort_inplace : forall A : Type, (A -> A -> bool) -> list A -> list A.
Hypothesis sort_ok : sort_contract sort_inplace.

Variable points : array_t T.
Variable filter_values : array_t FilterType.
Variable cutoff : Z.
Variable index : RangeFilterTreeIndex T.
Hypothesis input_ok : valid_input T points filter_values cutoff.
Hypothesis index_ok :
  RangeFilterTreeIndex_new T sort_inplace points filter_values cutoff
  = ([], Ok index).

Let n : Z := nth 0 (shape points) 0.

Lemma output_row_spec (results : list pid) (knn : size_t) :
  0 <= knn < 2 ^ 31 -> Forall (fun r => 0 <= fst r < n) results ->
  let original_id := _sorted_index_to_original_point_id T index in
  let row :=
    map (fun r => (nth (Z.to_nat (fst r)) original_id 0, snd r))
        (firstn (Z.to_nat knn) results)
    ++ repeat (0, FLT_MAX) (Z.to_nat (knn - size results)) in
  output_row T index results knn = ([], Ok row) /\
  size row = knn /\
  Forall (fun c => 0 <= fst c < n) row.
Proof.
  intros Hk Hids. cbv zeta.
  pose proof (index_built T sort_inplace sort_ok _ _ _ _ input_ok index_ok)
    as Hb.
  destruct (layout_sizes T sort_inplace sort_ok _ _ _ _ input_ok index_ok)
    as (Hfdata & Hn & _).
  fold n in Hfdata, Hn.
  pose proof (built_decoding _ _ _ _ _ Hb) as Hdec.
  pose proof (decoding_size sort_inplace sort_ok (data filter_values)) as Hsz.
  rewrite <- Hdec, Hfdata in Hsz.
  assert (Hid : forall i, 0 <= i < n ->
            0 <= nth (Z.to_nat i)
                   (_sorted_index_to_original_point_id T index) 0 < n).
  { intros i Hi. rewrite Hdec, <- Hfdata.
    apply (decoding_nth_range sort_inplace sort_ok). lia. }
  rewrite Forall_forall in Hids.
  split; [|split].
  - pose proof (translate_then_pad
                  (fun r : pid =>
                     (nth (Z.to_nat (fst r))
                        (_sorted_index_to_original_point_id T index) 0,
                      snd r))
                  (0, FLT_MAX) (0, FLT_MAX) results knn) as Heq.
    etransitivity;
      [|exact (f_equal (fun row => (@nil Event, Ok row)) Heq)].
    rewrite output_row_in_range by lia.
    apply mapM_pure. intros j Hj. apply zrange_In in Hj.
    destruct (Z.ltb_spec j (size results)) as [Hlt|Hge]; [|reflexivity].
    rewrite (bind_ok _ _ _ (idx_nth results j (0, FLT_MAX) ltac:(lia))).
    assert (Hr : 0 <= fst (nth (Z.to_nat j) results (0, FLT_MAX)) < n).
    { apply Hids. apply nth_In. unfold size in Hlt. lia. }
    rewrite (sz_small (fst _)) by (rewrite two64_eq; lia).
    rewrite (bind_ok _ _ _ (at_nth _ _ 0 ltac:(rewrite Hsz; exact Hr))).
    unfold ret. do 3 f_equal.
    unfold u32. apply Z.mod_small.
    pose proof (Hid _ Hr). lia.
  - rewrite size_app, size_map. unfold size.
    rewrite length_firstn, repeat_length. lia.
  - apply Forall_app. split.
    + apply Forall_forall. intros c Hc. apply in_map_iff in Hc as [r [<- Hr]].
      cbn [fst]. apply Hid. apply Hids.
      rewrite <- (firstn_skipn (Z.to_nat knn) results).
      apply in_or_app. left. exact Hr.
    + apply Forall_forall. intros c Hc. apply repeat_spec in Hc. subst c.
      cbn [fst]. lia.
Qed.

(** X16.  For [knn] from 0 up to 2^31 - 1, the values the [int] counter of
    the output loop reaches, and for results whose ids are sorted positions
    of the index, the row written by [batch_search] is the first [knn]
    results with each id replaced by its original id, followed by entries of
    id 0 and distance [FLT_MAX] up to [knn] entries; writing it never fails
    and every id in it is below [n]. *)
Theorem output_row_translates (results : list pid) (knn : size_t) :
  0 <= knn < 2 ^ 31 -> Forall (fun r => 0 <= fst r < n) results ->
  let original_id := _sorted_index_to_original_point_id T index in
  let row :=
    map (fun r => (nth (Z.to_nat (fst r)) original_id 0, snd r))
        (firstn (Z.to_nat knn) results)
    ++ repeat (0, FLT_MAX) (Z.to_nat (knn - size results)) in
  output_row T index results knn = ([], Ok row) /\
  size row = knn /\
  Forall (fun c => 0 <= fst c < n) row.
Proof. exact (output_row_spec results knn). Qed.

End Output.

(** ** An index over no point *)

Lemma size_zero_nil {A} (l : list A) : size l = 0 -> l = [].
Proof.
  destruct l; [reflexivity|]. rewrite size_cons.
  pose proof (size_nonneg l). lia.
Qed.

Section EmptyInput.

Variable T : Type.
Variable distance : Point T -> Point T -> float32.
Variable sort_inplace : forall A : Type, (A -> A -> bool) -> list A -> list A.
Variable index_query :
  SpatialIndex T -> Point T -> FilterRange -> QueryParams -> list pid.
Hypothesis sort_ok : sort_contract sort_inplace.

(** X17.  A build over arrays without a row succeeds for every cutoff and
    gives an index without points and levels; each of the three searches on
    it has undefined behaviour, since it reads the front of the empty
    sequence of filter values. *)
Theorem empty_input_search_undefined (points : array_t T)
    (filter_values : array_t FilterType) (cutoff : Z) :
  valid_shape T points filter_values -> nth 0 (shape points) 0 = 0 ->
  let index := mkIndex T [] [] [] [] [] cutoff [] in
  RangeFilterTreeIndex_new T sort_inplace points filter_values cutoff
  = ([], Ok index) /\
  forall query range qp,
    fenwick_tree_search T distance sort_inplace index_query index query
      range qp = ([], Err undefined_behaviour) /\
    optimized_postfiltering_search T distance sort_inplace index_query index
      query range qp = ([], Err undefined_behaviour) /\
    three_split_search T distance sort_inplace index_query index query
      range qp = ([], Err undefined_behaviour).
Proof.
  intros Hv Hn. cbv zeta. split.
  - destruct (new_reduces T sort_inplace sort_ok points filter_values cutoff
                Hv) as [pts [Hred [Hsize _]]].
    destruct Hv as (_ & _ & _ & _ & Hfdata & _).
    rewrite Hn in Hfdata. rewrite Hfdata in Hsize.
    pose proof (decoding_size sort_inplace sort_ok (data filter_values))
      as Hsz.
    rewrite Hfdata in Hsz.
    apply size_zero_nil in Hsize, Hsz. rewrite Hsize, Hsz in Hred.
    rewrite Hred. apply private_no_level.
    change (size (@nil (Point T))) with 0. cbn. apply sz_range.
  - intros query range qp. repeat split.
Qed.

End EmptyInput.

(** ** The first hit of a scan *)

Lemma find_zrange_first (f : Z -> bool) (k : nat) :
  forall lo hi b,
    Z.to_nat (hi - lo) = k -> find f (zrange lo hi) = Some b ->
    lo <= b < hi /\ f b = true /\ forall b', lo <= b' < b -> f b' = false.
Proof.
  induction k as [|k IH]; intros lo hi b Hk.
  - rewrite zrange_empty by lia. discriminate.
  - rewrite zrange_cons by lia. cbn [find]. destruct (f lo) eqn:E.
    + intros H. injection H as <-. split; [lia|]. split; [exact E|].
      intros; lia.
    + intros H. destruct (IH (lo + 1) hi b ltac:(lia) H) as (Hr & Hf & Hfirst).
      split; [lia|]. split; [exact Hf|]. intros b' Hb'.
      destruct (Z.eq_dec b' lo) as [->|Hne]; [exact E|]. apply Hfirst. lia.
Qed.

Lemma find_zrange_none (f : Z -> bool) (lo hi b : Z) :
  find f (zrange lo hi) = None -> lo <= b < hi -> f b = false.
Proof.
  intros H Hb. apply (find_none f _ H). apply zrange_In. exact Hb.
Qed.

Lemma lookup_app {A} (l l' : list A) (i : Z) :
  lookup (l ++ l') i
  = if i <? size l then lookup l i else lookup l' (i - size l).
Proof.
  unfold lookup, size. destruct (Z.ltb_spec i 0) as [Hneg|Hpos].
  - destruct (Z.ltb_spec i (Z.of_nat (length l))); [reflexivity|lia].
  - destruct (Z.ltb_spec i (Z.of_nat (length l))) as [Hlt|Hge].
    + apply nth_error_app1. lia.
    + destruct (Z.ltb_spec (i - Z.of_nat (length l)) 0); [lia|].
      rewrite nth_error_app2 by lia. f_equal. lia.
Qed.

Lemma first_some_none {A B} (f : A -> option B) (l : list A) (x : A) :
  first_some f l = None -> In x l -> f x = None.
Proof.
  induction l as [|y l IH]; [intros _ []|].
  cbn [first_some]. destruct (f y) eqn:E; [discriminate|].
  intros H [<-|Hin]; [exact E|]. apply IH; assumption.
Qed.

Lemma first_some_top {A B} (f : Z * A -> option B) (l : list A) (r : B) :
  first_some f (rev (indexed l)) = Some r ->
  exists j w, lookup l j = Some w /\ f (j, w) = Some r /\
    forall j' w', j < j' -> lookup l j' = Some w' -> f (j', w') = None.
Proof.
  induction l as [|x l IH] using rev_ind; [discriminate|].
  rewrite indexed_snoc, rev_app_distr. cbn [rev app first_some].
  destruct (f (size l, x)) as [r'|] eqn:E.
  - intros H. injection H as <-. exists (size l), x.
    split; [rewrite lookup_app, Z.ltb_irrefl, Z.sub_diag; reflexivity|].
    split; [exact E|]. intros j' w' Hj' Hl'.
    apply lookup_Some_range in Hl'. rewrite size_app in Hl'.
    change (size [x]) with 1 in Hl'. lia.
  - intros H. destruct (IH H) as (j & w & Hl & Hf & Htop).
    pose proof (lookup_Some_range _ _ _ Hl) as Hr.
    exists j, w. split.
    + rewrite lookup_app. destruct (Z.ltb_spec j (size l)); [exact Hl|lia].
    + split; [exact Hf|]. intros j' w' Hj' Hl'. rewrite lookup_app in Hl'.
      destruct (Z.ltb_spec j' (size l)) as [Hlt|Hge]; [eauto|].
      pose proof (lookup_Some_range _ _ _ Hl') as Hr'.
      change (size [x]) with 1 in Hr'.
      replace j' with (size l) in * by lia.
      rewrite Z.sub_diag in Hl'. injection Hl' as <-. exact E.
Qed.

Lemma indexed_lookup_In {A} (l : list A) (j : Z) (w : A) :
  lookup l j = Some w -> In (j, w) (indexed l).
Proof.
  induction l as [|x l IH] using rev_ind; intros H.
  - apply lookup_Some_range in H. change (size (@nil A)) with 0 in H. lia.
  - rewrite indexed_snoc. apply in_or_app. rewrite lookup_app in H.
    destruct (Z.ltb_spec j (size l)) as [Hlt|Hge]; [left; auto|right].
    pose proof (lookup_Some_range _ _ _ H) as Hr.
    change (size [x]) with 1 in Hr.
    replace j with (size l) in * by lia.
    rewrite Z.sub_diag in H. injection H as <-. left. reflexivity.
Qed.

(** ** The center bucket of [three_split_search] *)

Section Center.

Variables n s e : Z.
Hypothesis n_small : n < 2 ^ 31.
Hypothesis s_range : 0 <= s <= n.
Hypothesis e_range : 0 <= e <= n.

(** Among the buckets a level scan looks at, the test accepts exactly the
    full buckets inside the window; no other bucket of the level is one. *)
Lemma center_test (w b : Z) :
  1 <= w -> s / w <= b < e / w ->
  ((s <=? sz (b * w)) && (Z.min (sz (sz (b * w) + w)) n <=? e) = true
   <-> full_bucket_inside s e w b).
Proof.
  intros Hw Hb.
  assert (Hb0 : 0 <= b).
  { assert (0 <= s / w) by (apply Z.div_pos; lia). lia. }
  assert (Hbe : b * w + w <= e).
  { pose proof (Z.mul_div_le e w ltac:(lia)). nia. }
  rewrite (sz_small (b * w)) by (rewrite two64_eq; nia).
  rewrite (sz_small (b * w + w)) by (rewrite two64_eq; nia).
  rewrite Z.min_l by lia. unfold full_bucket_inside.
  rewrite andb_true_iff, Z.leb_le, Z.leb_le. tauto.
Qed.

Lemma full_bucket_scanned (w b : Z) :
  1 <= w -> full_bucket_inside s e w b -> s / w <= b < e / w.
Proof.
  intros Hw (Hb0 & Hlo & Hhi). split.
  - apply Z.div_le_upper_bound; lia.
  - assert (b + 1 <= e / w); [|lia]. apply Z.div_le_lower_bound; lia.
Qed.

Lemma center_in_level_some (j w : Z) (r : Z * size_t) :
  1 <= w -> center_in_level n s e (j, w) = Some r ->
  r = (j, snd r) /\ full_bucket_inside s e w (snd r) /\
  forall b', full_bucket_inside s e w b' -> snd r <= b'.
Proof.
  intros Hw. unfold center_in_level.
  destruct (find _ (zrange (s / w) (e / w))) as [c|] eqn:E; [|discriminate].
  intros H. injection H as <-. cbn [snd].
  destruct (find_zrange_first _ _ _ _ _ eq_refl E) as (Hr & Hf & Hfirst).
  split; [reflexivity|]. split; [apply (center_test w c Hw Hr); exact Hf|].
  intros b' Hb'. pose proof (full_bucket_scanned w b' Hw Hb') as Hr'.
  destruct (Z_le_gt_dec c b') as [Hle|Hgt]; [exact Hle|].
  specialize (Hfirst b' ltac:(lia)).
  apply (center_test w b' Hw Hr') in Hb'. congruence.
Qed.

Lemma center_in_level_none (j w b : Z) :
  1 <= w -> center_in_level n s e (j, w) = None ->
  ~ full_bucket_inside s e w b.
Proof.
  intros Hw. unfold center_in_level.
  destruct (find _ (zrange (s / w) (e / w))) as [c|] eqn:E; [discriminate|].
  intros _ Hb. pose proof (full_bucket_scanned w b Hw Hb) as Hr.
  pose proof (find_zrange_none _ _ _ b E Hr) as Hf.
  apply (center_test w b Hw Hr) in Hb. congruence.
Qed.

Lemma find_center_choice (sizes : list size_t) :
  (forall j w, lookup sizes j = Some w -> 1 <= w) ->
  match find_center sizes n s e with
  | Some (j, b) =>
      exists w, lookup sizes j = Some w /\ full_bucket_inside s e w b /\
        (forall b', full_bucket_inside s e w b' -> b <= b') /\
        (forall j' w' b', j < j' -> lookup sizes j' = Some w' ->
           ~ full_bucket_inside s e w' b')
  | None =>
      forall j w b, lookup sizes j = Some w -> ~ full_bucket_inside s e w b
  end.
Proof.
  intros Hpos. unfold find_center.
  destruct (first_some _ (rev (indexed sizes))) as [[j b]|] eqn:E.
  - destruct (first_some_top _ _ _ E) as (j0 & w & Hl & Hf & Htop).
    destruct (center_in_level_some j0 w (j, b) (Hpos _ _ Hl) Hf)
      as (Hj & Hin & Hfirst).
    cbn [snd] in *. injection Hj as ->.
    exists w. split; [exact Hl|]. split; [exact Hin|].
    split; [exact Hfirst|]. intros j' w' b' Hj' Hl'.
    apply (center_in_level_none j' w' b' (Hpos _ _ Hl')).
    apply (Htop j' w' Hj' Hl').
  - intros j w b Hl.
    apply (center_in_level_none j w b (Hpos _ _ Hl)).
    apply (first_some_none _ _ (j, w) E).
    apply in_rev. rewrite rev_involutive. apply indexed_lookup_In. exact Hl.
Qed.

End Center.

Section CenterChoice.

Variable T : Type.
Variable sort_inplace : forall A : Type, (A -> A -> bool) -> list A -> list A.
Hypothesis sort_ok : sort_contract sort_inplace.

Variable points : array_t T.
Variable filter_values : array_t FilterType.
Variable cutoff : Z.
Variable index : RangeFilterTreeIndex T.
Hypothesis input_ok : valid_input T points filter_values cutoff.
Hypothesis index_ok :
  RangeFilterTreeIndex_new T sort_inplace points filter_values cutoff
  = ([], Ok index).

(** X19.  The center that [three_split_search] picks for a range is, at
    the largest level that has a full bucket inside the window, the first
    such bucket; no level above it has one.  When no center is found, no
    level has a full bucket inside the window. *)
Theorem three_split_center_choice (range : FilterRange) :
  exists s e,
    first_greater_than (_filter_values T index) (fst range) = Some s /\
    first_greater_than_or_equal_to (_filter_values T index) (snd range)
    = Some e /\
    let sizes := _bucket_sizes T index in
    match find_center sizes (size (_points T index)) s e with
    | Some (j, b) =>
        exists w, lookup sizes j = Some w /\ full_bucket_inside s e w b /\
          (forall b', full_bucket_inside s e w b' -> b <= b') /\
          (forall j' w' b', j < j' -> lookup sizes j' = Some w' ->
             ~ full_bucket_inside s e w' b')
    | None =>
        forall j w b, lookup sizes j = Some w -> ~ full_bucket_inside s e w b
    end.
Proof.
  pose proof (index_built T sort_inplace sort_ok _ _ _ _ input_ok index_ok)
    as Hb.
  pose proof (input_size T _ _ _ input_ok) as Hn.
  destruct (first_greater_than_ok T sort_inplace sort_ok _ _ _ Hb Hn
              (fst range)) as [s [Hs Hsr]].
  destruct (first_greater_than_or_equal_to_ok T sort_inplace sort_ok _ _ _
              Hb Hn (snd range)) as [e [He Her]].
  exists s, e. split; [exact Hs|]. split; [exact He|]. cbv zeta.
  rewrite (built_points _ _ _ _ _ Hb).
  apply find_center_choice; try lia.
  intros j w Hj. apply (sizes_range T sort_inplace _ _ _ Hb j w Hj).
Qed.

End CenterChoice.

(** ** Recursive calls and a pyramid without levels *)

Lemma sz_negative (d : Z) : - two64 <= d < 0 -> sz d = d + two64.
Proof.
  intros H. unfold sz. symmetry.
  apply (Z.mod_unique_pos d two64 (-1)); lia.
Qed.

Section Recursion.

Variable T : Type.
Variable distance : Point T -> Point T -> float32.
Variable sort_inplace : forall A : Type, (A -> A -> bool) -> list A -> list A.
Variable index_query :
  SpatialIndex T -> Point T -> FilterRange -> QueryParams -> list pid.
Hypothesis sort_ok : sort_contract sort_inplace.

Variable points : array_t T.
Variable filter_values : array_t FilterType.
Variable cutoff : Z.
Variable index : RangeFilterTreeIndex T.
Hypothesis input_ok : valid_input T points filter_values cutoff.
Hypothesis index_ok :
  RangeFilterTreeIndex_new T sort_inplace points filter_values cutoff
  = ([], Ok index).

(** X20.  When [three_split_search] has a center bucket with positions
    from [middle_start] up to [middle_end], the window of its left
    recursive call, for the range from [lo] to the filter value at
    [middle_start], ends at or before [middle_start], and the window of its
    right recursive call, for the range from the filter value at
    [middle_end] to [hi], starts after [middle_end]: the sorted position
    [middle_end] itself is in neither, nor in the center bucket. *)
Theorem three_split_recursion_windows (range : FilterRange) (s e : size_t)
    (j : Z) (b : size_t) :
  first_greater_than (_filter_values T index) (fst range) = Some s ->
  first_greater_than_or_equal_to (_filter_values T index) (snd range)
  = Some e ->
  find_center (_bucket_sizes T index) (size (_points T index)) s e
  = Some (j, b) ->
  exists w,
    lookup (_bucket_sizes T index) j = Some w /\
    let middle_start := b * w in
    let middle_end := b * w + w in
    s <= middle_start /\ middle_end <= e /\
    (s < middle_start ->
     exists v e',
       lookup (_filter_values T index) middle_start = Some v /\
       first_greater_than_or_equal_to (_filter_values T index) v = Some e' /\
       e' <= middle_start) /\
    (middle_end < e ->
     exists v s',
       lookup (_filter_values T index) middle_end = Some v /\
       first_greater_than (_filter_values T index) v = Some s' /\
       middle_end < s').
Proof.
  intros Hs He Hcenter.
  pose proof (index_built T sort_inplace sort_ok _ _ _ _ input_ok index_ok)
    as Hb.
  pose proof (input_size T _ _ _ input_ok) as Hn.
  pose proof (built_filter_sorted T sort_inplace sort_ok _ _ _ Hb) as Hsorted.
  pose proof (fvs_size T sort_inplace sort_ok _ _ _ Hb) as Hsize.
  destruct (first_greater_than_ok T sort_inplace sort_ok _ _ _ Hb Hn
              (fst range)) as [s' [Hs' Hsr]].
  destruct (first_greater_than_or_equal_to_ok T sort_inplace sort_ok _ _ _
              Hb Hn (snd range)) as [e' [He' Her]].
  rewrite Hs in Hs'. injection Hs' as <-.
  rewrite He in He'. injection He' as <-.
  rewrite (built_points _ _ _ _ _ Hb) in Hcenter.
  destruct (find_center_spec T sort_inplace _ _ _ Hb Hn s e j b
              ltac:(lia) ltac:(lia) Hcenter) as [w [Hj [Hb0 [Hlo Hhi]]]].
  pose proof (sizes_range T sort_inplace _ _ _ Hb j w Hj) as Hw.
  exists w. split; [exact Hj|]. cbv zeta.
  split; [exact Hlo|]. split; [exact Hhi|].
  assert (Hn63 : 1 <= size (_filter_values T index) < 2 ^ 63)
    by (rewrite Hsize; lia).
  unfold size_t in *. split.
  - intros Hleft.
    destruct (lookup_in_range (_filter_values T index) (b * w)) as [v Hv];
      [rewrite Hsize; lia|].
    destruct (first_greater_than_or_equal_to_sorted _ v Hsorted Hn63)
      as [r [Hr [Hrb [Hbelow _]]]].
    exists v, r. split; [exact Hv|]. split; [exact Hr|].
    destruct (Z_le_gt_dec r (b * w)) as [Hle|Hgt]; [exact Hle|].
    exfalso. apply (Qlt_irrefl v). apply (Hbelow (b * w) v); [lia|exact Hv].
  - intros Hright.
    destruct (lookup_in_range (_filter_values T index) (b * w + w)) as [v Hv];
      [rewrite Hsize; lia|].
    destruct (first_greater_than_sorted _ v Hsorted Hn63)
      as [r [Hr [Hrb [_ Habove]]]].
    exists v, r. split; [exact Hv|]. split; [exact Hr|].
    destruct (Z_lt_le_dec (b * w + w) r) as [Hlt|Hge]; [exact Hlt|].
    exfalso. apply (Qlt_irrefl v). apply (Habove (b * w + w) v Hge Hv).
Qed.

(** X21.  When the cutoff is at least [2n] the pyramid of a built index
    has no level, and for a range that passes [check_empty]
    [optimized_postfiltering_search] is [fenwick_tree_search] if the window
    has [inclusive_start <= exclusive_end] and four times its width is
    below the cutoff; in every other case it reads [_bucket_sizes[0]] of
    the empty vector, which is undefined. *)
Theorem optimized_postfilter_on_empty_pyramid (query : Point T)
    (range : FilterRange) (qp : QueryParams) (s e : size_t) :
  2 * nth 0 (shape points) 0 <= cutoff ->
  first_greater_than (_filter_values T index) (fst range) = Some s ->
  first_greater_than_or_equal_to (_filter_values T index) (snd range)
  = Some e ->
  check_empty T index range = ([], Ok false) ->
  _bucket_sizes T index = [] /\
  optimized_postfiltering_search T distance sort_inplace index_query index
    query range qp
  = if (s <=? e) && (4 * (e - s) <? cutoff)
    then fenwick_tree_search T distance sort_inplace index_query index query
           range qp
    else ([], Err undefined_behaviour).
Proof.
  intros Hbig Hs He Hce.
  pose proof (index_built T sort_inplace sort_ok _ _ _ _ input_ok index_ok)
    as Hb.
  pose proof (input_size T _ _ _ input_ok) as Hn.
  pose proof (input_cutoff T _ _ _ input_ok) as Hc.
  destruct input_ok as (_ & _ & _ & _ & Hfdata & _).
  destruct (first_greater_than_ok T sort_inplace sort_ok _ _ _ Hb Hn
              (fst range)) as [s' [Hs' Hsr]].
  destruct (first_greater_than_or_equal_to_ok T sort_inplace sort_ok _ _ _
              Hb Hn (snd range)) as [e' [He' Her]].
  rewrite Hs in Hs'. injection Hs' as <-.
  rewrite He in He'. injection He' as <-.
  assert (Hnone : _bucket_sizes T index = []).
  { destruct (_bucket_sizes T index) as [|w0 rest] eqn:E; [reflexivity|].
    exfalso.
    assert (H0 : lookup (_bucket_sizes T index) 0 = Some w0)
      by (rewrite E; reflexivity).
    pose proof (sizes_range T sort_inplace _ _ _ Hb 0 w0 H0) as Hw.
    destruct (built_levels _ _ _ _ _ Hb) as [levels [[Hgeo _] [Hsz _]]].
    rewrite Hsz in H0. specialize (Hgeo 0 w0 H0).
    change (2 ^ 0) with 1 in Hgeo. unfold size_t in *. lia. }
  split; [exact Hnone|].
  unfold optimized_postfiltering_search.
  rewrite (bind_ok _ _ _ Hce). rewrite Hs, He. cbn [lift]. rewrite !bind_ret.
  rewrite (built_cutoff _ _ _ _ _ Hb).
  rewrite (sz_small cutoff) by (rewrite two64_eq; lia).
  rewrite Hnone.
  assert (Htail :
    forall (fen : M (list pid)) (width : float32),
      (index_key <-
         match containing_level [] s e with
         | Some (bucket_id, bucket_size) =>
             (if verbose qp
              then emit (EvVerbose s e bucket_size (s / bucket_size))
              else ret tt) ;;;
             ret (bucket_id, s / bucket_size)
         | None => ret (0, 0)
         end ;;
       bucket_size <- idx (@nil size_t) (fst index_key) ;;
       match min_query_to_bucket_ratio qp with
       | Some ratio =>
           if float_gtb (float_div (float_of_size_t bucket_size) width)
                ratio
           then fen
           else query_bucket T index_query index (fst index_key)
                  (snd index_key) query range qp
       | None => query_bucket T index_query index (fst index_key)
                   (snd index_key) query range qp
       end)
      = ([], Err undefined_behaviour)) by reflexivity.
  unfold size_t in *.
  destruct (Z.leb_spec s e) as [Hle|Hgt]; cbn [andb].
  - rewrite (sz_small (e - s)) by (rewrite two64_eq; lia).
    rewrite (sz_small (4 * (e - s))) by (rewrite two64_eq; lia).
    destruct (4 * (e - s) <? cutoff); [reflexivity|].
    apply Htail.
  - rewrite (sz_negative (e - s)) by (rewrite two64_eq; lia).
    replace (4 * (e - s + two64)) with (4 * (e - s) + 4 * two64) by lia.
    unfold sz at 1. rewrite Z.mod_add by (rewrite two64_eq; lia).
    fold (sz (4 * (e - s))).
    rewrite (sz_negative (4 * (e - s))) by (rewrite two64_eq; lia).
    destruct (Z.ltb_spec (4 * (e - s) + two64) cutoff) as [Hlt|Hge];
      [rewrite two64_eq in Hlt; lia|].
    apply Htail.
Qed.

End Recursion.

(** ** The ids a search returns *)

Lemma mapM_outcome_with {A B} (P : A -> B -> Prop) (f : A -> M B)
    (l : list A) :
  (forall x, In x l -> exists y, outcome (f x) = Ok y /\ P x y) ->
  exists ys, outcome (mapM f l) = Ok ys /\ Forall2 P l ys.
Proof.
  induction l as [|x l IH]; intros H.
  - exists []. split; [reflexivity|constructor].
  - destruct (H x (or_introl eq_refl)) as [y [Hy Hp]].
    destruct IH as [ys [Hys Hall]].
    { intros x' Hx'. apply H. right. exact Hx'. }
    exists (y :: ys). split; [|constructor; assumption].
    cbn [mapM]. rewrite (outcome_bind_ok _ _ _ Hy).
    rewrite (outcome_bind_ok _ _ _ Hys). reflexivity.
Qed.

Lemma Forall2_Forall_r {A B} (P : A -> B -> Prop) (Q : B -> Prop)
    (l : list A) (l' : list B) :
  Forall2 P l l' -> (forall x y, P x y -> Q y) -> Forall Q l'.
Proof.
  intros H Himp. induction H; constructor; eauto.
Qed.

Lemma ids_below_concat (n : Z) (ls : list (list pid)) :
  Forall (ids_below n) ls -> ids_below n (concat ls).
Proof.
  unfold ids_below. induction 1 as [|l ls Hl _ IH]; [constructor|].
  cbn [concat]. apply Forall_app. split; assumption.
Qed.

Lemma ids_below_sort_and_cut
    (sort_inplace : forall A : Type, (A -> A -> bool) -> list A -> list A)
    (n : Z) (frontier : list pid) (knn : size_t) :
  sort_contract sort_inplace -> ids_below n frontier ->
  ids_below n (sort_and_cut sort_inplace frontier knn).
Proof.
  intros Hsort H. unfold ids_below, sort_and_cut in *.
  rewrite Forall_forall in *. intros p Hp. apply H.
  set (less := fun a b : pid => float_ltb (snd a) (snd b)) in *.
  apply (Permutation_in p (Permutation_sym (proj1 (Hsort pid less frontier)))).
  rewrite <- (firstn_skipn (Z.to_nat knn) (sort_inplace pid less frontier)).
  apply in_or_app. left. exact Hp.
Qed.

Lemma lift_ok {A} (e : Exn) (o : option A) (a : A) :
  outcome (lift e o) = Ok a -> o = Some a.
Proof. destruct o; cbn; intros H; [congruence|discriminate]. Qed.

Section Ids.

Variable T : Type.
Variable distance : Point T -> Point T -> float32.
Variable sort_inplace : forall A : Type, (A -> A -> bool) -> list A -> list A.
Variable index_query :
  SpatialIndex T -> Point T -> FilterRange -> QueryParams -> list pid.
Hypothesis sort_ok : sort_contract sort_inplace.
Hypothesis answers_ok : answers_in_subset T index_query.

Variable points : array_t T.
Variable filter_values : array_t FilterType.
Variable cutoff : Z.
Variable index : RangeFilterTreeIndex T.
Hypothesis input_ok : valid_input T points filter_values cutoff.
Hypothesis index_ok :
  RangeFilterTreeIndex_new T sort_inplace points filter_values cutoff
  = ([], Ok index).

Let n : Z := nth 0 (shape points) 0.

Lemma query_bucket_ids (j b : Z) (query : Point T) (range : FilterRange)
    (qp : QueryParams) (r : list pid) :
  outcome (query_bucket T index_query index j b query range qp) = Ok r ->
  ids_below n r.
Proof.
  unfold query_bucket, at_. intros H.
  apply outcome_bind_inv in H as [level [Hlevel H]].
  apply outcome_bind_inv in H as [sub [Hsub H]].
  apply outcome_bind_inv in H as [u [_ H]].
  injection H as <-.
  apply lift_ok in Hlevel, Hsub.
  destruct (layout_sizes T sort_inplace sort_ok _ _ _ _ input_ok index_ok)
    as (_ & Hn & _).
  destruct (layout_assembled T sort_inplace sort_ok _ _ _ _ input_ok index_ok)
    as [levels (Hs & _ & Hsp & _)].
  destruct (lookup_in_range (_bucket_sizes T index) j) as [w Hw].
  { pose proof (lookup_Some_range _ _ _ Hlevel) as Hr.
    rewrite Hsp, size_map in Hr. rewrite Hs, size_map. exact Hr. }
  pose proof (lookup_Some_range _ _ _ Hsub) as Hb.
  pose proof (layout_positions T sort_inplace sort_ok _ _ _ _ input_ok
                index_ok j b w Hw ltac:(lia)) as Hpos.
  unfold bucket_positions in Hpos. rewrite Hlevel, Hsub in Hpos.
  pose proof (layout_width T sort_inplace sort_ok _ _ _ _ input_ok index_ok
                j w Hw) as (_ & _ & Hwr).
  unfold ids_below. eapply Forall_impl; [|apply (answers_ok sub)].
  intros p Hp. cbv beta in Hp. rewrite Hpos in Hp. apply zrange_In in Hp.
  fold n in Hp, Hn. unfold size_t in *. nia.
Qed.

Lemma brute_force_ids (query : Point T) (lo hi : size_t) (r : list pid) :
  0 <= lo -> hi <= n ->
  outcome (brute_force T distance index query lo hi) = Ok r ->
  ids_below n r.
Proof.
  intros Hlo Hhi H.
  rewrite (brute_force_exact T distance sort_inplace sort_ok _ _ _ _ input_ok
             index_ok query lo hi Hlo Hhi) in H.
  injection H as <-. unfold ids_below. rewrite Forall_map.
  apply Forall_forall. intros i Hi. apply zrange_In in Hi. cbn [fst]. lia.
Qed.

Lemma fenwick_tree_search_ids (query : Point T) (range : FilterRange)
    (qp : QueryParams) (r : list pid) :
  outcome (fenwick_tree_search T distance sort_inplace index_query index
             query range qp) = Ok r ->
  ids_below n r.
Proof.
  pose proof (index_built T sort_inplace sort_ok _ _ _ _ input_ok index_ok)
    as Hb.
  pose proof (input_size T _ _ _ input_ok) as Hn.
  destruct (layout_sizes T sort_inplace sort_ok _ _ _ _ input_ok index_ok)
    as (Hfdata & _).
  fold n in Hfdata.
  destruct (first_greater_than_ok T sort_inplace sort_ok _ _ _ Hb Hn
              (fst range)) as [s [Hs Hsr]].
  destruct (first_greater_than_or_equal_to_ok T sort_inplace sort_ok _ _ _
              Hb Hn (snd range)) as [e [He Her]].
  pose proof (fenwick_plan_ok T sort_inplace _ _ _ Hb Hn s e ltac:(lia)
                ltac:(lia)) as [Hlr _].
  rewrite Hfdata in Hsr, Her.
  unfold fenwick_tree_search. intros H.
  apply outcome_bind_inv in H as [empty [_ H]].
  destruct empty; [injection H as <-; constructor|].
  rewrite Hs, He in H. cbn [lift] in H. rewrite !bind_ret in H.
  apply outcome_bind_inv in H as [searched [Hsearched H]].
  apply outcome_bind_inv in H as [residues [Hresidues H]].
  injection H as <-.
  apply (ids_below_sort_and_cut sort_inplace n _ _ sort_ok).
  unfold ids_below. apply Forall_app. split; apply ids_below_concat.
  - apply mapM_outcome_inv in Hsearched.
    apply (Forall2_Forall_r _ _ _ _ Hsearched).
    intros bucket y Hy. apply (query_bucket_ids _ _ _ _ _ _ Hy).
  - apply mapM_outcome_inv in Hresidues.
    assert (Hin : Forall (fun rr : size_t * size_t => 0 <= fst rr /\ snd rr <= n)
                    (residue_ranges (fenwick_plan (_bucket_sizes T index) s e)
                       s e)).
    { unfold residue_ranges.
      destruct (unset (last_range _)) eqn:U.
      - constructor; [cbn [fst snd]; lia|constructor].
      - destruct Hlr as [Hu|Hlr]; [congruence|].
        constructor; [cbn [fst snd]; lia|].
        constructor; [cbn [fst snd]; lia|constructor]. }
    revert Hin. induction Hresidues as [|rr y rs ys Hy _ IH];
      intros Hin; [constructor|].
    inversion Hin as [|? ? [H1 H2] Hrest]; subst.
    constructor; [|apply IH; exact Hrest].
    apply (brute_force_ids query (fst rr) (snd rr) y H1 H2 Hy).
Qed.

Lemma optimized_postfiltering_search_ids (query : Point T)
    (range : FilterRange) (qp : QueryParams) (r : list pid) :
  outcome (optimized_postfiltering_search T distance sort_inplace index_query
             index query range qp) = Ok r ->
  ids_below n r.
Proof.
  unfold optimized_postfiltering_search. intros H.
  apply outcome_bind_inv in H as [empty [_ H]].
  destruct empty; [injection H as <-; constructor|].
  apply outcome_bind_inv in H as [s [_ H]].
  apply outcome_bind_inv in H as [e [_ H]].
  destruct (_ <? _); [apply (fenwick_tree_search_ids _ _ _ _ H)|].
  apply outcome_bind_inv in H as [key [_ H]].
  apply outcome_bind_inv in H as [bucket_size [_ H]].
  destruct (min_query_to_bucket_ratio qp) as [ratio|].
  - destruct (float_gtb _ ratio); [apply (fenwick_tree_search_ids _ _ _ _ H)|].
    apply (query_bucket_ids _ _ _ _ _ _ H).
  - apply (query_bucket_ids _ _ _ _ _ _ H).
Qed.

Lemma three_split_search_ids (query : Point T) (range : FilterRange)
    (qp : QueryParams) (r : list pid) :
  outcome (three_split_search T distance sort_inplace index_query index
             query range qp) = Ok r ->
  ids_below n r.
Proof.
  unfold three_split_search. intros H.
  apply outcome_bind_inv in H as [s [_ H]].
  apply outcome_bind_inv in H as [e [_ H]].
  destruct (find_center _ _ _ _) as [[j b]|];
    [|apply (fenwick_tree_search_ids _ _ _ _ H)].
  apply outcome_bind_inv in H as [center [Hcenter H]].
  apply outcome_bind_inv in H as [bucket_size [_ H]].
  apply outcome_bind_inv in H as [left [Hleft H]].
  apply outcome_bind_inv in H as [right [Hright H]].
  injection H as <-.
  apply (ids_below_sort_and_cut sort_inplace n _ _ sort_ok).
  unfold ids_below. rewrite !Forall_app. split; [|split].
  - apply (query_bucket_ids _ _ _ _ _ _ Hcenter).
  - match type of Hleft with
    | outcome (if ?c then _ else _) = _ => destruct c
    end; [|injection Hleft as <-; constructor].
    apply outcome_bind_inv in Hleft as [v [_ Hleft]].
    apply (optimized_postfiltering_search_ids _ _ _ _ Hleft).
  - match type of Hright with
    | outcome (if ?c then _ else _) = _ => destruct c
    end; [|injection Hright as <-; constructor].
    apply outcome_bind_inv in Hright as [v [_ Hright]].
    apply (optimized_postfiltering_search_ids _ _ _ _ Hright).
Qed.

(** X22.  If every SubIndex answers with members of its subset and [k] is
    between 0 and 2^31 - 1, the values the [int] counter of the output loop
    reaches, a [batch_search] over a built index returns for each of the
    three strategies (for [optimized_postfilter], when the cutoff is below
    [2n]): both matrices have [num_queries] rows of [k] entries, and every
    id written is an original id below [n]. *)
Theorem batch_search_returns (queries : list (Point T))
    (filters : list FilterRange) (num_queries : Z)
    (query_method : String.string) (qp : QueryParams) :
  0 <= num_queries <= size queries -> num_queries <= size filters ->
  0 <= k qp < 2 ^ 31 ->
  (query_method = "optimized_postfilter"%string -> cutoff < 2 * n) ->
  exists ids dists,
    outcome (batch_search T distance sort_inplace index_query index queries
               filters num_queries query_method qp) = Ok (ids, dists) /\
    size ids = num_queries /\ size dists = num_queries /\
    Forall (fun row => size row = k qp /\
                       Forall (fun id => 0 <= id < n) row) ids /\
    Forall (fun row => size row = k qp) dists.
Proof.
  intros Hq Hf Hknn Hmethod.
  assert (Hsz : sz (k qp) = k qp) by (apply sz_small; rewrite two64_eq; lia).
  rewrite <- Hsz.
  pose proof (index_built T sort_inplace sort_ok _ _ _ _ input_ok index_ok)
    as Hb.
  pose proof (input_size T _ _ _ input_ok) as Hn.
  pose proof (input_cutoff T _ _ _ input_ok) as Hc.
  assert (Hk : 0 <= sz (k qp) < 2 ^ 31) by (rewrite Hsz; exact Hknn).
  unfold batch_search.
  match goal with
  | |- context [bind (mapM ?f (zrange 0 num_queries)) _] =>
      destruct (mapM_outcome_with
                  (fun (_ : Z) (row : list (Z * float32)) =>
                     size row = sz (k qp) /\
                     Forall (fun c => 0 <= fst c < n) row)
                  f (zrange 0 num_queries)) as [rows [Hrows Hall]]
  end.
  { intros i Hi. apply zrange_In in Hi.
    rewrite (bind_ok _ _ _ (idx_nth queries i [] ltac:(lia))).
    rewrite (bind_ok _ _ _ (idx_nth filters i (0%Q, 0%Q) ltac:(lia))).
    set (q := nth (Z.to_nat i) queries []).
    set (filter := nth (Z.to_nat i) filters (0%Q, 0%Q)).
    assert (Hresults : exists results,
              outcome
                (if String.eqb query_method "optimized_postfilter"
                 then optimized_postfiltering_search T distance sort_inplace
                        index_query index q filter qp
                 else if String.eqb query_method "three_split"
                 then three_split_search T distance sort_inplace index_query
                        index q filter qp
                 else fenwick_tree_search T distance sort_inplace index_query
                        index q filter qp) = Ok results /\
              ids_below n results).
    { destruct (String.eqb_spec query_method "optimized_postfilter")
        as [Hopt|_].
      - destruct (layout_top T sort_inplace sort_ok _ _ _ _ input_ok
                    index_ok (Hmethod Hopt)) as (m & w & Hm & Hm1 & _).
        destruct (optimized_postfiltering_search_ok T distance sort_inplace
                    index_query sort_ok _ _ _ Hb Hn Hc q filter qp)
          as [results Hr].
        { intros Hnil. rewrite Hnil in Hm.
          change (size (@nil size_t)) with 0 in Hm. lia. }
        exists results. split; [exact Hr|].
        apply (optimized_postfiltering_search_ids _ _ _ _ Hr).
      - destruct (String.eqb query_method "three_split").
        + destruct (three_split_search_ok T distance sort_inplace
                      index_query sort_ok _ _ _ Hb Hn Hc q filter qp)
            as [results [Hr _]].
          exists results. split; [exact Hr|].
          apply (three_split_search_ids _ _ _ _ Hr).
        + destruct (fenwick_tree_search_ok T distance sort_inplace
                      index_query sort_ok _ _ _ Hb Hn q filter qp)
            as [results [Hr _]].
          exists results. split; [exact Hr|].
          apply (fenwick_tree_search_ids _ _ _ _ Hr). }
    destruct Hresults as [results [Hr Hids]].
    rewrite (outcome_bind_ok _ _ _ Hr).
    destruct (output_row_spec T sort_inplace sort_ok _ _ _ _ input_ok
                index_ok results (sz (k qp)) Hk Hids)
      as (Hrow & Hsize & Hbelow).
    eexists. split; [rewrite Hrow; reflexivity|]. split; assumption. }
  rewrite (outcome_bind_ok _ _ _ Hrows).
  exists (map (map fst) rows), (map (map snd) rows).
  split; [reflexivity|].
  pose proof (Forall2_length_size _ _ _ Hall) as Hsize.
  rewrite zrange_size in Hsize by lia.
  rewrite !size_map. split; [lia|]. split; [lia|]. split.
  - rewrite Forall_map.
    apply (Forall2_Forall_r _ _ _ _ Hall). intros _ row [Hs Hbelow].
    rewrite size_map. split; [exact Hs|]. rewrite Forall_map. exact Hbelow.
  - rewrite Forall_map.
    apply (Forall2_Forall_r _ _ _ _ Hall). intros _ row [Hs _].
    rewrite size_map. exact Hs.
Qed.

End Ids.

(** ** The further properties on the scenarios *)

Module MoreInstanceFacts.
Import Instance InstanceFacts.

(** The instance of the SubIndex answers with members of its subset. *)
Lemma index_query_in_subset : answers_in_subset Q index_query.
Proof.
  intros sub query range qp. apply Forall_forall. intros p Hp.
  unfold index_query in Hp.
  match type of Hp with
  | In p (firstn ?c (insertion_sort pid ?less ?scored)) =>
      assert (Hin : In p scored);
        [apply (Permutation_in p
                  (Permutation_sym
                     (proj1 (insertion_sort_contract pid less scored))));
         rewrite <- (firstn_skipn c (insertion_sort pid less scored));
         apply in_or_app; left; exact Hp|]
  end.
  apply in_map_iff in Hin as [m [<- Hm]]. cbn [fst].
  apply filter_In in Hm as [Hm _]. destruct m as [i v].
  apply (in_combine_l _ _ _ _ Hm).
Qed.

End MoreInstanceFacts.

Module MoreChecks.
Import Instance InstanceFacts Scenarios ScenarioFacts Checks.
Import MoreInstanceFacts.

Ltac sorted_by_evaluation :=
  repeat first [apply SSorted_nil | apply SSorted_cons
               | apply Forall_nil | apply Forall_cons | evaluate].

Lemma boundary_helpers_return_witness :
  size [3; 1; 2]%Q < 2 ^ 63 /\
  exists s e,
    first_greater_than [3; 1; 2]%Q 2%Q = Some s /\
    first_greater_than_or_equal_to [3; 1; 2]%Q 2%Q = Some e /\
    (size [3; 1; 2]%Q = 0 -> s = 0 /\ e = 0) /\
    (1 <= size [3; 1; 2]%Q ->
     1 <= s <= size [3; 1; 2]%Q /\ 1 <= e <= size [3; 1; 2]%Q) /\
    (s = size [3; 1; 2]%Q \/
     exists v, lookup [3; 1; 2]%Q s = Some v /\ (2 < v)%Q) /\
    (s <= 1 \/ exists v, lookup [3; 1; 2]%Q (s - 1) = Some v /\ (v <= 2)%Q) /\
    (e = size [3; 1; 2]%Q \/
     exists v, lookup [3; 1; 2]%Q e = Some v /\ (2 <= v)%Q) /\
    (e <= 1 \/ exists v, lookup [3; 1; 2]%Q (e - 1) = Some v /\ (v < 2)%Q).
Proof.
  assert (Hn : size [3; 1; 2]%Q < 2 ^ 63) by reflexivity.
  split; [exact Hn|].
  exact (boundary_helpers_return [3; 1; 2]%Q 2%Q Hn).
Defined.

Lemma window_is_open_interval_witness :
  StronglySorted Qle line_filter /\ 1 <= size line_filter < 2 ^ 63 /\
  exists s e,
    first_greater_than line_filter 1%Q = Some s /\
    first_greater_than_or_equal_to line_filter 6%Q = Some e /\
    1 <= s <= size line_filter /\ 1 <= e <= size line_filter /\
    forall i v, 1 <= i -> lookup line_filter i = Some v ->
      (s <= i < e <-> (1 < v)%Q /\ (v < 6)%Q).
Proof.
  assert (Hs : StronglySorted Qle line_filter) by sorted_by_evaluation.
  assert (Hn : 1 <= size line_filter < 2 ^ 63) by (split; evaluate).
  split; [exact Hs|]. split; [exact Hn|].
  exact (window_is_open_interval line_filter 1%Q 6%Q Hs Hn).
Defined.

Lemma window_orientation_witness :
  StronglySorted Qle three_filter /\ 1 <= size three_filter < 2 ^ 63 /\
  exists s e,
    first_greater_than three_filter 2%Q = Some s /\
    first_greater_than_or_equal_to three_filter 2%Q = Some e /\
    ((2 < 2)%Q -> s <= e) /\ ((2 <= 2)%Q -> e <= s).
Proof.
  assert (Hs : StronglySorted Qle three_filter) by sorted_by_evaluation.
  assert (Hn : 1 <= size three_filter < 2 ^ 63) by (split; evaluate).
  split; [exact Hs|]. split; [exact Hn|].
  exact (window_orientation three_filter 2%Q 2%Q Hs Hn).
Defined.

Lemma build_gathers_rows_witness :
  sort_contract insertion_sort /\
  valid_input Q (points_of mixed_rows) (filter_of mixed_filter) 1 /\
  build insertion_sort mixed_rows mixed_filter 1 = ([], Ok mixed_index) /\
  0 <= 2 < 4 /\
  exists o p,
    lookup (_sorted_index_to_original_point_id Q mixed_index) 2 = Some o /\
    0 <= o < 4 /\
    lookup (_filter_values Q mixed_index) 2 = lookup mixed_filter o /\
    lookup (_points Q mixed_index) 2 = Some p /\ size p = 1 /\
    forall d, 0 <= d < 1 ->
      lookup p d = lookup (concat mixed_rows) (o * 1 + d).
Proof.
  assert (Hv : valid_input Q (points_of mixed_rows) (filter_of mixed_filter) 1)
    by scenario_is_valid.
  assert (Hi : build insertion_sort mixed_rows mixed_filter 1
               = ([], Ok mixed_index)) by evaluate.
  assert (Hr : 0 <= 2 < 4) by lia.
  split; [exact insertion_sort_contract|]. split; [exact Hv|].
  split; [exact Hi|]. split; [exact Hr|].
  exact (build_gathers_rows Q insertion_sort insertion_sort_contract _ _ _ _
           Hv Hi 2 Hr).
Defined.

Lemma bucket_holds_consecutive_positions_witness :
  sort_contract insertion_sort /\
  valid_input Q (points_of three_rows) (filter_of three_filter) 1 /\
  build insertion_sort three_rows three_filter 1 = ([], Ok three_index) /\
  lookup (_bucket_sizes Q three_index) 1 = Some 2 /\ 0 <= 1 /\ 1 * 2 < 3 /\
  exists level starts,
    lookup (_spatial_indices Q three_index) 1 = Some level /\
    size level = (3 + 2 - 1) / 2 /\
    lookup level 1
    = Some (mkSpatialIndex Q (_points Q three_index) (zrange (1 * 2) (Z.min (1 * 2 + 2) 3))
              (map (get0 (_filter_values Q three_index))
                 (zrange (1 * 2) (Z.min (1 * 2 + 2) 3)))) /\
    lookup (_starts Q three_index) 1 = Some starts /\
    lookup starts 1 = Some (1 * 2) /\
    1 <= size (zrange (1 * 2) (Z.min (1 * 2 + 2) 3)) <= 2.
Proof.
  assert (Hv : valid_input Q (points_of three_rows) (filter_of three_filter) 1)
    by scenario_is_valid.
  assert (Hi : build insertion_sort three_rows three_filter 1
               = ([], Ok three_index)) by evaluate.
  assert (Hj : lookup (_bucket_sizes Q three_index) 1 = Some 2) by evaluate.
  assert (Hb : 0 <= 1) by lia.
  assert (Hbn : 1 * 2 < 3) by lia.
  split; [exact insertion_sort_contract|]. split; [exact Hv|].
  split; [exact Hi|]. split; [exact Hj|]. split; [exact Hb|].
  split; [exact Hbn|].
  exact (bucket_holds_consecutive_positions Q insertion_sort
           insertion_sort_contract _ _ _ _ Hv Hi 1 1 2 Hj Hb Hbn).
Defined.

Lemma level_partitions_positions_witness :
  sort_contract insertion_sort /\
  valid_input Q (points_of three_rows) (filter_of three_filter) 1 /\
  build insertion_sort three_rows three_filter 1 = ([], Ok three_index) /\
  lookup (_bucket_sizes Q three_index) 1 = Some 2 /\
  concat (map (bucket_positions Q three_index 1)
            (zrange 0 ((3 + 2 - 1) / 2)))
  = zrange 0 3.
Proof.
  assert (Hv : valid_input Q (points_of three_rows) (filter_of three_filter) 1)
    by scenario_is_valid.
  assert (Hi : build insertion_sort three_rows three_filter 1
               = ([], Ok three_index)) by evaluate.
  assert (Hj : lookup (_bucket_sizes Q three_index) 1 = Some 2) by evaluate.
  split; [exact insertion_sort_contract|]. split; [exact Hv|].
  split; [exact Hi|]. split; [exact Hj|].
  exact (level_partitions_positions Q insertion_sort insertion_sort_contract
           _ _ _ _ Hv Hi 1 2 Hj).
Defined.

Lemma levels_nest_witness :
  sort_contract insertion_sort /\
  valid_input Q (points_of three_rows) (filter_of three_filter) 1 /\
  build insertion_sort three_rows three_filter 1 = ([], Ok three_index) /\
  lookup (_bucket_sizes Q three_index) (0 + 1) = Some 2 /\
  0 <= 0 /\ 0 <= 1 /\
  bucket_positions Q three_index (0 + 1) 1
  = bucket_positions Q three_index 0 (2 * 1)
    ++ bucket_positions Q three_index 0 (2 * 1 + 1).
Proof.
  assert (Hv : valid_input Q (points_of three_rows) (filter_of three_filter) 1)
    by scenario_is_valid.
  assert (Hi : build insertion_sort three_rows three_filter 1
               = ([], Ok three_index)) by evaluate.
  assert (Hj : lookup (_bucket_sizes Q three_index) (0 + 1) = Some 2)
    by evaluate.
  assert (H0 : 0 <= 0) by lia.
  assert (H1 : 0 <= 1) by lia.
  split; [exact insertion_sort_contract|]. split; [exact Hv|].
  split; [exact Hi|]. split; [exact Hj|]. split; [exact H0|].
  split; [exact H1|].
  exact (levels_nest Q insertion_sort insertion_sort_contract _ _ _ _ Hv Hi
           0 1 2 Hj H0 H1).
Defined.

Lemma top_level_is_one_bucket_witness :
  sort_contract insertion_sort /\
  valid_input Q (points_of three_rows) (filter_of three_filter) 1 /\
  build insertion_sort three_rows three_filter 1 = ([], Ok three_index) /\
  1 < 2 * 3 /\
  exists m w level,
    size (_bucket_sizes Q three_index) = m /\ 1 <= m /\
    lookup (_bucket_sizes Q three_index) (m - 1) = Some w /\ 3 <= w /\
    lookup (_spatial_indices Q three_index) (m - 1) = Some level /\
    size level = 1 /\
    bucket_positions Q three_index (m - 1) 0 = zrange 0 3.
Proof.
  assert (Hv : valid_input Q (points_of three_rows) (filter_of three_filter) 1)
    by scenario_is_valid.
  assert (Hi : build insertion_sort three_rows three_filter 1
               = ([], Ok three_index)) by evaluate.
  assert (Hc : 1 < 2 * 3) by lia.
  split; [exact insertion_sort_contract|]. split; [exact Hv|].
  split; [exact Hi|]. split; [exact Hc|].
  exact (top_level_is_one_bucket Q insertion_sort insertion_sort_contract
           _ _ _ _ Hv Hi Hc).
Defined.

Lemma build_zero_cutoff_witness :
  sort_contract insertion_sort /\
  valid_shape Q (points_of three_rows) (filter_of three_filter) /\
  1 <= 3 /\
  build insertion_sort three_rows three_filter 0
  = ([], Err undefined_behaviour).
Proof.
  assert (Hv : valid_shape Q (points_of three_rows) (filter_of three_filter))
    by (repeat split; evaluate).
  assert (Hn : 1 <= 3) by lia.
  split; [exact insertion_sort_contract|]. split; [exact Hv|].
  split; [exact Hn|].
  exact (build_zero_cutoff Q insertion_sort insertion_sort_contract _ _ Hv Hn).
Defined.

Lemma build_without_levels_witness :
  sort_contract insertion_sort /\
  valid_shape Q (points_of four_rows) (filter_of four_filter) /\
  - 2 ^ 31 <= 8 < 2 ^ 31 /\ (8 < 0 \/ 2 * 4 <= 8) /\
  exists index,
    build insertion_sort four_rows four_filter 8 = ([], Ok index) /\
    _bucket_sizes Q index = [] /\ _starts Q index = [] /\
    _spatial_indices Q index = [] /\
    size (_points Q index) = 4 /\
    _sorted_index_to_original_point_id Q index
    = decoding_of insertion_sort four_filter /\
    _cutoff Q index = 8.
Proof.
  assert (Hv : valid_shape Q (points_of four_rows) (filter_of four_filter))
    by (repeat split; evaluate).
  assert (Hc : - 2 ^ 31 <= 8 < 2 ^ 31) by lia.
  assert (Hcase : 8 < 0 \/ 2 * 4 <= 8) by (right; lia).
  split; [exact insertion_sort_contract|]. split; [exact Hv|].
  split; [exact Hc|]. split; [exact Hcase|].
  exact (build_without_levels Q insertion_sort insertion_sort_contract _ _ 8
           Hv Hc Hcase).
Defined.

Lemma small_window_is_scanned_witness :
  sort_contract insertion_sort /\
  valid_input Q (points_of line_rows) (filter_of line_filter) 2 /\
  build insertion_sort line_rows line_filter 2 = ([], Ok line_index_2) /\
  first_greater_than (_filter_values Q line_index_2) 1%Q = Some 2 /\
  first_greater_than_or_equal_to (_filter_values Q line_index_2) 3%Q
  = Some 3 /\
  3 - 2 < 2 /\
  let scanned :=
    (trace (check_empty Q line_index_2 (1, 3)%Q),
     Ok (window_scan Q distance insertion_sort line_index_2 [3]%Q 2 3
           (sz (k (qp_of_k 2))))) in
  fenwick_tree_search Q distance insertion_sort index_query line_index_2
    [3]%Q (1, 3)%Q (qp_of_k 2) = scanned /\
  three_split_search Q distance insertion_sort index_query line_index_2
    [3]%Q (1, 3)%Q (qp_of_k 2) = scanned /\
  (2 <= 3 -> 4 * (3 - 2) < 2 ->
   optimized_postfiltering_search Q distance insertion_sort index_query
     line_index_2 [3]%Q (1, 3)%Q (qp_of_k 2) = scanned).
Proof.
  assert (Hv : valid_input Q (points_of line_rows) (filter_of line_filter) 2)
    by scenario_is_valid.
  assert (Hi : build insertion_sort line_rows line_filter 2
               = ([], Ok line_index_2)) by evaluate.
  assert (Hs : first_greater_than (_filter_values Q line_index_2) 1%Q
               = Some 2) by evaluate.
  assert (He : first_greater_than_or_equal_to (_filter_values Q line_index_2)
                 3%Q = Some 3) by evaluate.
  assert (Hfit : 3 - 2 < 2) by lia.
  split; [exact insertion_sort_contract|]. split; [exact Hv|].
  split; [exact Hi|]. split; [exact Hs|]. split; [exact He|].
  split; [exact Hfit|].
  exact (small_window_is_scanned Q distance insertion_sort index_query
           insertion_sort_contract _ _ _ _ Hv Hi [3]%Q (1, 3)%Q (qp_of_k 2)
           2 3 Hs He Hfit).
Defined.

Lemma results_bounded_by_k_witness :
  (outcome (fenwick_tree_search Q distance insertion_sort index_query
              line_index_1 [3]%Q (1, 6)%Q (qp_of_k 2)) = Ok line_answer \/
   outcome (three_split_search Q distance insertion_sort index_query
              line_index_1 [3]%Q (1, 6)%Q (qp_of_k 2)) = Ok line_answer) /\
  size line_answer <= sz (k (qp_of_k 2)).
Proof.
  assert (H : outcome (fenwick_tree_search Q distance insertion_sort
                         index_query line_index_1 [3]%Q (1, 6)%Q (qp_of_k 2))
              = Ok line_answer \/
              outcome (three_split_search Q distance insertion_sort
                         index_query line_index_1 [3]%Q (1, 6)%Q (qp_of_k 2))
              = Ok line_answer) by (left; evaluate).
  split; [exact H|].
  exact (results_bounded_by_k Q distance insertion_sort index_query
           line_index_1 [3]%Q (1, 6)%Q (qp_of_k 2) line_answer H).
Defined.

Lemma fenwick_plan_covers_the_window_witness :
  sort_contract insertion_sort /\
  valid_input Q (points_of line_rows) (filter_of line_filter) 1 /\
  build insertion_sort line_rows line_filter 1 = ([], Ok line_index_1) /\
  exists s e,
    first_greater_than (_filter_values Q line_index_1) 1%Q = Some s /\
    first_greater_than_or_equal_to (_filter_values Q line_index_1) 6%Q
    = Some e /\
    let sizes := _bucket_sizes Q line_index_1 in
    let p := fenwick_plan sizes s e in
    Forall (fun b => exists w,
              lookup sizes (fst b) = Some w /\ 0 <= snd b /\
              s <= snd b * w /\ snd b * w + w <= e)
           (indices_to_search p) /\
    Forall (fun r => s <= fst r /\ snd r <= e) (residue_ranges p s e) /\
    forall i,
      Exists (fun r => covers r i = true) (planned_spans sizes 8 p s e)
      <-> s <= i < e.
Proof.
  assert (Hv : valid_input Q (points_of line_rows) (filter_of line_filter) 1)
    by scenario_is_valid.
  assert (Hi : build insertion_sort line_rows line_filter 1
               = ([], Ok line_index_1)) by evaluate.
  split; [exact insertion_sort_contract|]. split; [exact Hv|].
  split; [exact Hi|].
  exact (fenwick_plan_covers_the_window Q insertion_sort
           insertion_sort_contract _ _ _ _ Hv Hi (1, 6)%Q).
Defined.

Lemma optimized_postfilter_queries_one_bucket_witness :
  sort_contract insertion_sort /\
  valid_input Q (points_of line_rows) (filter_of line_filter) 5 /\
  build insertion_sort line_rows line_filter 5 = ([], Ok line_index_5) /\
  first_greater_than (_filter_values Q line_index_5) 0%Q = Some 1 /\
  first_greater_than_or_equal_to (_filter_values Q line_index_5) 4%Q
  = Some 4 /\
  1 < 4 /\ 5 < 2 * 8 /\
  exists j w,
    containing_level (_bucket_sizes Q line_index_5) 1 4 = Some (j, w) /\
    lookup (_bucket_sizes Q line_index_5) j = Some w /\
    (forall i, 1 <= i < 4 -> 1 / w * w <= i < 1 / w * w + w) /\
    (forall j' w', j' < j ->
       lookup (_bucket_sizes Q line_index_5) j' = Some w' ->
       1 / w' <> (4 - 1) / w') /\
    let b := 1 / w in
    let positions := zrange (b * w) (Z.min (b * w + w) 8) in
    let sub :=
      mkSpatialIndex Q (_points Q line_index_5) positions
        (map (get0 (_filter_values Q line_index_5)) positions) in
    let announce := if verbose ratio_params then [EvVerbose 1 4 w b] else [] in
    let fenwick :=
      fenwick_tree_search Q distance insertion_sort index_query line_index_5
        [3]%Q (0, 4)%Q ratio_params in
    optimized_postfiltering_search Q distance insertion_sort index_query
      line_index_5 [3]%Q (0, 4)%Q ratio_params
    = if 4 * (4 - 1) <? 5 then fenwick
      else if match min_query_to_bucket_ratio ratio_params with
              | Some ratio =>
                  float_gtb
                    (float_div (float_of_size_t w) (float_of_size_t (4 - 1)))
                    ratio
              | None => false
              end
           then (announce ++ trace fenwick, outcome fenwick)
           else (announce ++ [EvQuery j b (0, 4)%Q ratio_params],
                 Ok (index_query sub [3]%Q (0, 4)%Q ratio_params)).
Proof.
  assert (Hv : valid_input Q (points_of line_rows) (filter_of line_filter) 5)
    by scenario_is_valid.
  assert (Hi : build insertion_sort line_rows line_filter 5
               = ([], Ok line_index_5)) by evaluate.
  assert (Hs : first_greater_than (_filter_values Q line_index_5) 0%Q
               = Some 1) by evaluate.
  assert (He : first_greater_than_or_equal_to (_filter_values Q line_index_5)
                 4%Q = Some 4) by evaluate.
  assert (Hse : 1 < 4) by lia.
  assert (Hc : 5 < 2 * 8) by lia.
  split; [exact insertion_sort_contract|]. split; [exact Hv|].
  split; [exact Hi|]. split; [exact Hs|]. split; [exact He|].
  split; [exact Hse|]. split; [exact Hc|].
  exact (optimized_postfilter_queries_one_bucket Q distance insertion_sort
           index_query insertion_sort_contract _ _ _ _ Hv Hi [3]%Q (0, 4)%Q
           ratio_params 1 4 Hs He Hse Hc).
Defined.

(** On the line with cutoff 5, the window [1, 4) and the ratio at the
    [float] nearest to 5/3, the quotient of the [float]s 5 and 3 rounds to
    the ratio itself and does not exceed it: the search queries bucket 0 of
    level 0 and does not fall back to [fenwick_tree_search], although the
    quotient 5/3 of the widths as numbers is above the ratio. *)
Lemma float_quotient_rounds_to_ratio :
  float_div (float_of_size_t 5) (float_of_size_t 3)
  = Some (FFinite (13981013 # 8388608)) /\
  (13981013 # 8388608 < 5 # 3)%Q /\
  trace (optimized_postfiltering_search Q distance insertion_sort index_query
           line_index_5 [3]%Q (0, 4)%Q ratio_params)
  = [EvQuery 0 0 (0, 4)%Q ratio_params].
Proof. repeat split; evaluate. Qed.

Lemma output_row_translates_witness :
  sort_contract insertion_sort /\
  valid_input Q (points_of mixed_rows) (filter_of mixed_filter) 1 /\
  build insertion_sort mixed_rows mixed_filter 1 = ([], Ok mixed_index) /\
  0 <= 3 < 2 ^ 31 /\
  Forall (fun r : pid => 0 <= fst r < 4) [(2, FFinite 0); (0, FFinite 1)] /\
  let original_id := _sorted_index_to_original_point_id Q mixed_index in
  let row :=
    map (fun r : pid => (nth (Z.to_nat (fst r)) original_id 0, snd r))
        (firstn (Z.to_nat 3) [(2, FFinite 0); (0, FFinite 1)])
    ++ repeat (0, FLT_MAX)
         (Z.to_nat (3 - size [(2, FFinite 0); (0, FFinite 1)])) in
  output_row Q mixed_index [(2, FFinite 0); (0, FFinite 1)] 3
  = ([], Ok row) /\
  size row = 3 /\
  Forall (fun c => 0 <= fst c < 4) row.
Proof.
  assert (Hv : valid_input Q (points_of mixed_rows) (filter_of mixed_filter) 1)
    by scenario_is_valid.
  assert (Hi : build insertion_sort mixed_rows mixed_filter 1
               = ([], Ok mixed_index)) by evaluate.
  assert (Hk : 0 <= 3 < 2 ^ 31) by lia.
  assert (Hids : Forall (fun r : pid => 0 <= fst r < 4)
                   [(2, FFinite 0); (0, FFinite 1)])
    by (repeat constructor; evaluate).
  split; [exact insertion_sort_contract|]. split; [exact Hv|].
  split; [exact Hi|]. split; [exact Hk|]. split; [exact Hids|].
  exact (output_row_translates Q insertion_sort insertion_sort_contract
           _ _ _ _ Hv Hi [(2, FFinite 0); (0, FFinite 1)] 3 Hk Hids).
Defined.

Lemma empty_input_search_undefined_witness :
  sort_contract insertion_sort /\
  valid_shape Q no_points no_filter /\ nth 0 (shape no_points) 0 = 0 /\
  let index := mkIndex Q [] [] [] [] [] 5 [] in
  RangeFilterTreeIndex_new Q insertion_sort no_points no_filter 5
  = ([], Ok index) /\
  forall query range qp,
    fenwick_tree_search Q distance insertion_sort index_query index query
      range qp = ([], Err undefined_behaviour) /\
    optimized_postfiltering_search Q distance insertion_sort index_query
      index query range qp = ([], Err undefined_behaviour) /\
    three_split_search Q distance insertion_sort index_query index query
      range qp = ([], Err undefined_behaviour).
Proof.
  assert (Hv : valid_shape Q no_points no_filter) by (repeat split; evaluate).
  assert (Hn : nth 0 (shape no_points) 0 = 0) by reflexivity.
  split; [exact insertion_sort_contract|]. split; [exact Hv|].
  split; [exact Hn|].
  exact (empty_input_search_undefined Q distance insertion_sort index_query
           insertion_sort_contract no_points no_filter 5 Hv Hn).
Defined.

Lemma three_split_center_choice_witness :
  sort_contract insertion_sort /\
  valid_input Q (points_of line_rows) (filter_of line_filter) 1 /\
  build insertion_sort line_rows line_filter 1 = ([], Ok line_index_1) /\
  exists s e,
    first_greater_than (_filter_values Q line_index_1) 0%Q = Some s /\
    first_greater_than_or_equal_to (_filter_values Q line_index_1) 7%Q
    = Some e /\
    let sizes := _bucket_sizes Q line_index_1 in
    match find_center sizes (size (_points Q line_index_1)) s e with
    | Some (j, b) =>
        exists w, lookup sizes j = Some w /\ full_bucket_inside s e w b /\
          (forall b', full_bucket_inside s e w b' -> b <= b') /\
          (forall j' w' b', j < j' -> lookup sizes j' = Some w' ->
             ~ full_bucket_inside s e w' b')
    | None =>
        forall j w b, lookup sizes j = Some w -> ~ full_bucket_inside s e w b
    end.
Proof.
  assert (Hv : valid_input Q (points_of line_rows) (filter_of line_filter) 1)
    by scenario_is_valid.
  assert (Hi : build insertion_sort line_rows line_filter 1
               = ([], Ok line_index_1)) by evaluate.
  split; [exact insertion_sort_contract|]. split; [exact Hv|].
  split; [exact Hi|].
  exact (three_split_center_choice Q insertion_sort insertion_sort_contract
           _ _ _ _ Hv Hi (0, 7)%Q).
Defined.

Lemma three_split_recursion_windows_witness :
  sort_contract insertion_sort /\
  valid_input Q (points_of line_rows) (filter_of line_filter) 1 /\
  build insertion_sort line_rows line_filter 1 = ([], Ok line_index_1) /\
  first_greater_than (_filter_values Q line_index_1) 0%Q = Some 1 /\
  first_greater_than_or_equal_to (_filter_values Q line_index_1) 7%Q
  = Some 7 /\
  find_center (_bucket_sizes Q line_index_1) (size (_points Q line_index_1))
    1 7 = Some (1, 1) /\
  exists w,
    lookup (_bucket_sizes Q line_index_1) 1 = Some w /\
    let middle_start := 1 * w in
    let middle_end := 1 * w + w in
    1 <= middle_start /\ middle_end <= 7 /\
    (1 < middle_start ->
     exists v e',
       lookup (_filter_values Q line_index_1) middle_start = Some v /\
       first_greater_than_or_equal_to (_filter_values Q line_index_1) v
       = Some e' /\
       e' <= middle_start) /\
    (middle_end < 7 ->
     exists v s',
       lookup (_filter_values Q line_index_1) middle_end = Some v /\
       first_greater_than (_filter_values Q line_index_1) v = Some s' /\
       middle_end < s').
Proof.
  assert (Hv : valid_input Q (points_of line_rows) (filter_of line_filter) 1)
    by scenario_is_valid.
  assert (Hi : build insertion_sort line_rows line_filter 1
               = ([], Ok line_index_1)) by evaluate.
  assert (Hs : first_greater_than (_filter_values Q line_index_1) 0%Q
               = Some 1) by evaluate.
  assert (He : first_greater_than_or_equal_to (_filter_values Q line_index_1)
                 7%Q = Some 7) by evaluate.
  assert (Hcenter : find_center (_bucket_sizes Q line_index_1)
                      (size (_points Q line_index_1)) 1 7 = Some (1, 1))
    by evaluate.
  split; [exact insertion_sort_contract|]. split; [exact Hv|].
  split; [exact Hi|]. split; [exact Hs|]. split; [exact He|].
  split; [exact Hcenter|].
  exact (three_split_recursion_windows Q insertion_sort
           insertion_sort_contract _ _ _ _ Hv Hi (0, 7)%Q 1 7 1 1 Hs He
           Hcenter).
Defined.

Lemma optimized_postfilter_on_empty_pyramid_witness :
  sort_contract insertion_sort /\
  valid_input Q (points_of four_rows) (filter_of four_filter) 8 /\
  build insertion_sort four_rows four_filter 8 = ([], Ok four_index) /\
  2 * nth 0 (shape (points_of four_rows)) 0 <= 8 /\
  first_greater_than (_filter_values Q four_index) 1%Q = Some 1 /\
  first_greater_than_or_equal_to (_filter_values Q four_index) 4%Q
  = Some 3 /\
  check_empty Q four_index (1, 4)%Q = ([], Ok false) /\
  _bucket_sizes Q four_index = [] /\
  optimized_postfiltering_search Q distance insertion_sort index_query
    four_index [3]%Q (1, 4)%Q (qp_of_k 10)
  = if (1 <=? 3) && (4 * (3 - 1) <? 8)
    then fenwick_tree_search Q distance insertion_sort index_query four_index
           [3]%Q (1, 4)%Q (qp_of_k 10)
    else ([], Err undefined_behaviour).
Proof.
  assert (Hv : valid_input Q (points_of four_rows) (filter_of four_filter) 8)
    by scenario_is_valid.
  assert (Hi : build insertion_sort four_rows four_filter 8
               = ([], Ok four_index)) by evaluate.
  assert (Hbig : 2 * nth 0 (shape (points_of four_rows)) 0 <= 8) by evaluate.
  assert (Hs : first_greater_than (_filter_values Q four_index) 1%Q
               = Some 1) by evaluate.
  assert (He : first_greater_than_or_equal_to (_filter_values Q four_index)
                 4%Q = Some 3) by evaluate.
  assert (Hce : check_empty Q four_index (1, 4)%Q = ([], Ok false))
    by evaluate.
  split; [exact insertion_sort_contract|]. split; [exact Hv|].
  split; [exact Hi|]. split; [exact Hbig|]. split; [exact Hs|].
  split; [exact He|]. split; [exact Hce|].
  exact (optimized_postfilter_on_empty_pyramid Q distance insertion_sort
           index_query insertion_sort_contract _ _ _ _ Hv Hi [3]%Q (1, 4)%Q
           (qp_of_k 10) 1 3 Hbig Hs He Hce).
Defined.

Lemma batch_search_returns_witness :
  sort_contract insertion_sort /\ answers_in_subset Q index_query /\
  valid_input Q (points_of line_rows) (filter_of line_filter) 1 /\
  build insertion_sort line_rows line_filter 1 = ([], Ok line_index_1) /\
  0 <= 2 <= size two_queries /\ 2 <= size two_ranges /\
  0 <= k (qp_of_k 2) < 2 ^ 31 /\
  ("optimized_postfilter"%string = "optimized_postfilter"%string ->
   1 < 2 * nth 0 (shape (points_of line_rows)) 0) /\
  exists ids dists,
    outcome (batch_search Q distance insertion_sort index_query line_index_1
               two_queries two_ranges 2 "optimized_postfilter"%string
               (qp_of_k 2)) = Ok (ids, dists) /\
    size ids = 2 /\ size dists = 2 /\
    Forall (fun row => size row = k (qp_of_k 2) /\
                       Forall (fun id => 0 <= id
                                         < nth 0 (shape (points_of line_rows)) 0)
                              row) ids /\
    Forall (fun row => size row = k (qp_of_k 2)) dists.
Proof.
  assert (Hv : valid_input Q (points_of line_rows) (filter_of line_filter) 1)
    by scenario_is_valid.
  assert (Hi : build insertion_sort line_rows line_filter 1
               = ([], Ok line_index_1)) by evaluate.
  assert (Hq : 0 <= 2 <= size two_queries) by (split; evaluate).
  assert (Hf : 2 <= size two_ranges) by evaluate.
  assert (Hk : 0 <= k (qp_of_k 2) < 2 ^ 31) by (split; evaluate).
  assert (Hm : "optimized_postfilter"%string = "optimized_postfilter"%string ->
               1 < 2 * nth 0 (shape (points_of line_rows)) 0)
    by (intros _; reflexivity).
  split; [exact insertion_sort_contract|].
  split; [exact index_query_in_subset|]. split; [exact Hv|].
  split; [exact Hi|]. split; [exact Hq|]. split; [exact Hf|].
  split; [exact Hk|]. split; [exact Hm|].
  exact (batch_search_returns Q distance insertion_sort index_query
           insertion_sort_contract index_query_in_subset _ _ _ _ Hv Hi
           two_queries two_ranges 2 "optimized_postfilter"%string (qp_of_k 2)
           Hq Hf Hk Hm).
Defined.

End MoreChecks.
